(** * Verification of [generate_and_filter_images] and of the data
    utilities of atlaswildfiretool/generative/utils.py

    The pipeline decodes random latent vectors into images, smooths and
    binarizes them, keeps those whose pixel ratio lies in a range, searches
    the best (MSE, SSIM) match against the observation images and ranks the
    kept images by their distance to that best match.

    Conventions of the embedding:
    - a numpy array is a shape together with its row-major data;
    - numpy/Python floats are exact rationals ([Q]); [float("inf")] and a
      non-finite pixel ratio are represented explicitly;
    - code that can raise lives in the error monad [outcome], code that also
      prints lives in the writer monad [io];
    - the model is a record holding its decoder, and the batch of latent
      vectors drawn by [torch.randn] is an argument of the function; the
      [device] argument, which only says where the decoder runs, is left out;
    - the library functions the pipeline only calls (scipy's
      [gaussian_filter], skimage's [structural_similarity] and numpy's
      [argsort]) are the fields of the class [Externals], with what the
      pipeline relies on: the filter keeps shapes, and [argsort] returns a
      permutation of the indices that sorts its argument;
    - matplotlib is modelled as far as it decides whether the function
      raises: the shape of the axes array of [plt.subplots] and the images
      [imshow] accepts;
    - [sequential_undersample_3d_arr] and [sequential_train_val_split] work
      on the frames of an array along its first axis; [test_data_metrics]
      takes the error of a batch (the criterion applied to the model's
      reconstruction) as a function, and the loader as the number of
      samples of its dataset with the batches it yields. *)

From Stdlib Require Import List ZArith QArith Qminmax Lia Bool Sorted
  Permutation.
Import ListNotations.

Local Open Scope nat_scope.

(* ================================================================== *)
(** ** Exceptions, the error monad and the printing monad *)

Inductive exn : Type :=
| ValueError
| TypeError
| IndexError.

Inductive outcome (A : Type) : Type :=
| Ok (a : A)
| Raise (e : exn).

Arguments Ok {A} a.
Arguments Raise {A} e.

Definition obind {A B : Type} (c : outcome A) (k : A -> outcome B) : outcome B :=
  match c with
  | Ok a => k a
  | Raise e => Raise e
  end.

Declare Scope outcome_scope.
Delimit Scope outcome_scope with outcome.
Notation "x <- c ;; k" := (obind c (fun x => k))
  (at level 61, c at next level, right associativity) : outcome_scope.
Notation "c ;; k" := (obind c (fun _ => k))
  (at level 61, right associativity) : outcome_scope.

(** What the function writes on standard output. *)
Inductive event : Type :=
| PrintDebug (i num_samples : nat) (threshold : Q)
             (total_pixels active_pixels : nat) (pixel_ratio : option Q)
    (* the five lines "Generated Image i/n", "Threshold: ...",
       "Total Pixels: ...", "Active Pixels: ...", "Pixel Ratio: ...%" *)
| PrintNoImages
    (* "No images meet the pixel ratio criteria." *)
| PrintTotalValid (n : nat).
    (* "Total Valid Generated Images: n" *)

(** A computation that prints and then returns or raises. *)
Definition io (A : Type) : Type := (list event * outcome A)%type.

Definition io_ret {A : Type} (a : A) : io A := ([], Ok a).

Definition io_bind {A B : Type} (c : io A) (k : A -> io B) : io B :=
  match c with
  | (out, Ok a) => let (out', r) := k a in (out ++ out', r)
  | (out, Raise e) => (out, Raise e)
  end.

Definition print (e : event) : io unit := ([e], Ok tt).

Definition lift {A : Type} (c : outcome A) : io A := ([], c).

Declare Scope io_scope.
Delimit Scope io_scope with io.
Notation "x <- c ;; k" := (io_bind c (fun x => k))
  (at level 61, c at next level, right associativity) : io_scope.
Notation "c ;; k" := (io_bind c (fun _ => k))
  (at level 61, right associativity) : io_scope.

(** [l[i]] on a Python list: [IndexError] past the end. *)
Definition getitem {A : Type} (l : list A) (i : nat) : outcome A :=
  match nth_error l i with
  | Some x => Ok x
  | None => Raise IndexError
  end.

(** [for i in range(a, a + n): s = body(i, s)] in each monad. *)
Fixpoint for_range {S : Type} (a n : nat) (body : nat -> S -> outcome S)
    (s : S) : outcome S :=
  match n with
  | O => Ok s
  | Datatypes.S n' => obind (body a s) (for_range (Datatypes.S a) n' body)
  end.

Fixpoint io_for_range {S : Type} (a n : nat) (body : nat -> S -> io S)
    (s : S) : io S :=
  match n with
  | O => io_ret s
  | Datatypes.S n' => io_bind (body a s) (io_for_range (Datatypes.S a) n' body)
  end.

(** [for x in l: s = body(x, s)]. *)
Fixpoint for_each {A S : Type} (l : list A) (body : A -> S -> outcome S)
    (s : S) : outcome S :=
  match l with
  | [] => Ok s
  | x :: l' => obind (body x s) (for_each l' body)
  end.

(** [[f(x) for x in l]] where [f] may raise. *)
Fixpoint map_o {A B : Type} (f : A -> outcome B) (l : list A) : outcome (list B) :=
  match l with
  | [] => Ok []
  | x :: l' => obind (f x) (fun y => obind (map_o f l') (fun ys => Ok (y :: ys)))
  end.

(* ================================================================== *)
(** ** numpy arrays *)

Record ndarray (A : Type) : Type := mk_ndarray {
  shape : list nat;
  data : list A        (* row-major *)
}.

Arguments mk_ndarray {A} shape data.
Arguments shape {A} n.
Arguments data {A} n.

(** [np.prod(shape)] *)
Definition prod (s : list nat) : nat := fold_right Nat.mul 1 s.

(** [a.size] *)
Definition size {A : Type} (a : ndarray A) : nat := length (data a).

(** [a.squeeze()]: the axes of length one are dropped. *)
Definition squeeze {A : Type} (a : ndarray A) : ndarray A :=
  mk_ndarray (filter (fun d => negb (d =? 1)) (shape a)) (data a).

(** [a.reshape(new_shape)]: [ValueError] when the sizes differ. *)
Definition reshape {A : Type} (a : ndarray A) (new_shape : list nat)
  : outcome (ndarray A) :=
  if size a =? prod new_shape then Ok (mk_ndarray new_shape (data a))
  else Raise ValueError.

Fixpoint chunks {A : Type} (n k : nat) (l : list A) : list (list A) :=
  match n with
  | O => []
  | S n' => firstn k l :: chunks n' k (skipn k l)
  end.

(** Iteration over an array goes along its first axis. *)
Definition subarrays {A : Type} (a : ndarray A) : list (ndarray A) :=
  match shape a with
  | [] => []
  | n :: rest => map (mk_ndarray rest) (chunks n (prod rest) (data a))
  end.

(** [a.astype(float)] of an integer array. *)
Definition as_float (a : ndarray Z) : ndarray Q :=
  mk_ndarray (shape a) (map inject_Z (data a)).

(** [a.max()] and [a.min()]: [ValueError] on an empty array. *)
Definition amax (a : ndarray Z) : outcome Z :=
  match data a with
  | [] => Raise ValueError
  | x :: l => Ok (fold_left Z.max l x)
  end.

Definition amin (a : ndarray Z) : outcome Z :=
  match data a with
  | [] => Raise ValueError
  | x :: l => Ok (fold_left Z.min l x)
  end.

(* ================================================================== *)
(** ** Floats *)

(** [x < y] on finite floats. *)
Definition Qlt_bool (x y : Q) : bool :=
  (Qnum x * QDen y <? Qnum y * QDen x)%Z.

(** A float that may be [float("inf")]. *)
Inductive pyfloat : Type :=
| Finite (q : Q)
| Infinity.

(** [x < y] where [x] is finite. *)
Definition lt_float (x : Q) (y : pyfloat) : bool :=
  match y with
  | Finite q => Qlt_bool x q
  | Infinity => true
  end.

(* ================================================================== *)
(** ** Post-processing and the ratio filter (lines 89-112) *)

(** [np.where(generated_image >= threshold, 1, 0)] *)
Definition binarize (generated_image : ndarray Q) (threshold : Q) : ndarray Z :=
  mk_ndarray (shape generated_image)
    (map (fun x => if Qle_bool threshold x then 1%Z else 0%Z)
         (data generated_image)).

(** [np.prod(binary_image.shape)] *)
Definition total_pixels (binary_image : ndarray Z) : nat :=
  prod (shape binary_image).

(** [np.sum(binary_image == 1)] *)
Definition active_pixels (binary_image : ndarray Z) : nat :=
  length (filter (fun x => (x =? 1)%Z) (data binary_image)).

(** [(active_pixels / total_pixels) * 100]; with no pixel at all numpy
    yields a non-finite value, here [None]. *)
Definition pixel_ratio (binary_image : ndarray Z) : option Q :=
  if total_pixels binary_image =? 0 then None
  else Some ((inject_Z (Z.of_nat (active_pixels binary_image))
              / inject_Z (Z.of_nat (total_pixels binary_image))) * 100)%Q.

(** [pixel_ratio_range[0] <= pixel_ratio <= pixel_ratio_range[1]]; every
    comparison with a non-finite ratio is false. *)
Definition in_range (pixel_ratio_range : Q * Q) (ratio : option Q) : bool :=
  match ratio with
  | Some r => Qle_bool (fst pixel_ratio_range) r && Qle_bool r (snd pixel_ratio_range)
  | None => false
  end.

(** Lines 110-112: the image is appended when its ratio is in range. *)
Definition append_if_in_range (pixel_ratio_range : Q * Q)
    (filtered_generated_images : list (ndarray Z)) (binary_image : ndarray Z)
  : list (ndarray Z) :=
  if in_range pixel_ratio_range (pixel_ratio binary_image)
  then filtered_generated_images ++ [binary_image]
  else filtered_generated_images.

(** Lines 97-112 for one binarized image: the ratio is computed, printed on
    demand, and the image appended when the ratio is in range. *)
Definition ratio_step (pixel_ratio_range : Q * Q) (threshold : Q)
    (print_info : bool) (num_samples i : nat)
    (filtered_generated_images : list (ndarray Z)) (binary_image : ndarray Z)
  : io (list (ndarray Z)) :=
  ((if print_info
    then print (PrintDebug (i + 1) num_samples threshold
                  (total_pixels binary_image) (active_pixels binary_image)
                  (pixel_ratio binary_image))
    else io_ret tt) ;;
   io_ret (append_if_in_range pixel_ratio_range filtered_generated_images
             binary_image))%io.

(** The loop of lines 91-112. *)
Definition filter_loop (smoothed_images : list (ndarray Q)) (num_samples : nat)
    (pixel_ratio_range : Q * Q) (threshold : Q) (print_info : bool)
  : io (list (ndarray Z)) :=
  io_for_range 0 num_samples
    (fun i filtered_generated_images =>
       (s <- lift (getitem smoothed_images i) ;;
        let generated_image := squeeze s in
        let binary_image := binarize generated_image threshold in
        ratio_step pixel_ratio_range threshold print_info num_samples i
          filtered_generated_images binary_image)%io)
    [].

(** The ratio filter on its own: lines 97-112 run over images that are
    already binarized, without the diagnostic output. *)
Definition ratio_filter (pixel_ratio_range : Q * Q)
    (binary_images : list (ndarray Z)) : list (ndarray Z) :=
  fold_left (append_if_in_range pixel_ratio_range) binary_images [].

(* ================================================================== *)
(** ** sklearn's [mean_squared_error] *)

(** sklearn treats a one-dimensional target as a single column. *)
Definition as_2d (s : list nat) : option (nat * nat) :=
  match s with
  | [n] => Some (n, 1)
  | [n; m] => Some (n, m)
  | _ => None
  end.

Definition squared_errors (y_true y_pred : list Q) : list Q :=
  map (fun p => ((fst p - snd p) * (fst p - snd p))%Q) (combine y_true y_pred).

Definition Qsum (l : list Q) : Q := fold_right Qplus 0%Q l.

(** The arithmetic mean of the squared elementwise differences;
    [ValueError] when the two arrays are not of the same (non-empty,
    at most two-dimensional) shape. *)
Definition mean_squared_error (y_true y_pred : ndarray Q) : outcome Q :=
  match as_2d (shape y_true), as_2d (shape y_pred) with
  | Some (n, m), Some (n', m') =>
      if (n =? n') && (m =? m') && (1 <=? n) && (1 <=? m)
      then Ok (Qsum (squared_errors (data y_true) (data y_pred))
               / inject_Z (Z.of_nat (n * m)))%Q
      else Raise ValueError
  | _, _ => Raise ValueError
  end.

(** [mean_squared_error(best_generated_image, generated_image)] where the
    first argument may still be [None]. *)
Definition mse_to_best (best_generated_image : option (ndarray Z))
    (generated_image : ndarray Z) : outcome Q :=
  match best_generated_image with
  | None => Raise TypeError
  | Some b => mean_squared_error (as_float b) (as_float generated_image)
  end.

(* ================================================================== *)
(** ** matplotlib, as far as it can make the function raise *)

(** The [ax] returned by [plt.subplots(nrows, ncols)]; with the default
    [squeeze=True] a single row or column comes back one-dimensional. *)
Inductive axes_array : Type :=
| AxesScalar
| Axes1D (n : nat)
| Axes2D (rows cols : nat).

Definition subplots (nrows ncols : nat) : outcome axes_array :=
  if (nrows =? 0) || (ncols =? 0) then Raise ValueError
  else if (nrows =? 1) && (ncols =? 1) then Ok AxesScalar
  else if nrows =? 1 then Ok (Axes1D ncols)
  else if ncols =? 1 then Ok (Axes1D nrows)
  else Ok (Axes2D nrows ncols).

(** [ax[i]] *)
Definition axes_getitem (ax : axes_array) (i : nat) : outcome unit :=
  match ax with
  | AxesScalar => Raise TypeError
  | Axes1D n => if i <? n then Ok tt else Raise IndexError
  | Axes2D rows _ => if i <? rows then Ok tt else Raise IndexError
  end.

(** [ax[row, col]] *)
Definition axes_getitem2 (ax : axes_array) (row col : nat) : outcome unit :=
  match ax with
  | AxesScalar => Raise TypeError
  | Axes1D _ => Raise IndexError
  | Axes2D rows cols =>
      if (row <? rows) && (col <? cols) then Ok tt else Raise IndexError
  end.

(** [ax.imshow(img)]: [None] or an array that is not an image raises. *)
Definition imshow {A : Type} (img : option (ndarray A)) : outcome unit :=
  match img with
  | None => Raise TypeError
  | Some a =>
      match shape a with
      | [_; _] => Ok tt
      | [_; _; c] => if (c =? 3) || (c =? 4) then Ok tt else Raise TypeError
      | _ => Raise TypeError
      end
  end.

(** Lines 153-162. *)
Definition plot_best (best_generated_image : option (ndarray Z))
    (best_obs_image : option (ndarray Q)) : outcome unit :=
  (ax <- subplots 1 2 ;;
   axes_getitem ax 0 ;;
   imshow best_generated_image ;;
   axes_getitem ax 1 ;;
   imshow best_obs_image ;;
   Ok tt)%outcome.

(** Lines 175-194. *)
Definition plot_top (num_images : nat) (top_images : list (ndarray Z))
    (top_mses : list Q) : outcome unit :=
  (let images_to_plot := Nat.min num_images 100 in
   let num_rows := (images_to_plot + 9) / 10 in
   ax <- subplots num_rows 10 ;;
   for_range 0 images_to_plot
     (fun i _ =>
        let row := i / 10 in
        let col := i mod 10 in
        axes_getitem2 ax row col ;;
        img <- getitem top_images i ;;
        imshow (Some img) ;;
        axes_getitem2 ax row col ;;
        m <- getitem top_mses i ;;
        axes_getitem2 ax row col ;;
        Ok tt) tt ;;
   for_range images_to_plot (num_rows * 10 - images_to_plot)
     (fun j _ =>
        let row := j / 10 in
        let col := j mod 10 in
        axes_getitem2 ax row col ;;
        Ok tt) tt)%outcome.

(* ================================================================== *)
(** ** The collaborators *)

(** The model: [get_latent_dim] reads [latent_dim], the pipeline calls
    [decoder] on a batch of latent vectors. *)
Record autoencoder : Type := mk_autoencoder {
  latent_dim : nat;
  decoder : ndarray Q -> ndarray Q
}.

Definition get_latent_dim (model : autoencoder) : nat := latent_dim model.

Class Externals : Type := {
  (** [scipy.ndimage.gaussian_filter(img, sigma)] returns an array of the
      shape of its input. *)
  gaussian_filter : ndarray Q -> Q -> ndarray Q;
  gaussian_filter_shape :
    forall a sigma, shape (gaussian_filter a sigma) = shape a;
  gaussian_filter_size :
    forall a sigma, size (gaussian_filter a sigma) = size a;
  (** [skimage.metrics.structural_similarity(im1, im2, data_range=...)] *)
  ssim : ndarray Q -> ndarray Z -> Z -> outcome Q;
  (** [np.argsort]: the indices that sort its argument in ascending
      order; the order among equal values is left open. *)
  argsort : list Q -> list nat;
  argsort_perm :
    forall l, Permutation (argsort l) (seq 0 (length l));
  argsort_sorted :
    forall l, Sorted Qle (map (fun i => nth i l 0%Q) (argsort l))
}.

(* ================================================================== *)
(** ** The matcher and ranker *)

(** The running best of Phase A (lines 123-127). *)
Record best_match : Type := mk_best_match {
  lowest_mse : pyfloat;
  highest_ssim : Q;
  best_generated_image : option (ndarray Z);
  best_obs_image : option (ndarray Q);
  best_obs_index : option nat
}.

Definition initial_best : best_match :=
  mk_best_match Infinity (-1)%Q None None None.

(** What the function returns when it does not return [None]. *)
Record result : Type := mk_result {
  r_filtered_generated_images : list (ndarray Z);
  r_best_generated_image : option (ndarray Z);
  r_best_obs_image : option (ndarray Q);
  r_best_obs_index : option nat;
  r_lowest_mse : pyfloat;
  r_top_images : list (ndarray Z);
  r_top_mses : list Q
}.

(** The image side fixed by the reshape of line 83. *)
Definition IMG_SIDE : nat := 256.

#[global] Opaque IMG_SIDE.

(** The keyword defaults of the signature. *)
Definition default_num_samples : nat := 500.
Definition default_pixel_ratio_range : Q * Q := (5, 14)%Q.
Definition default_threshold : Q := (2 # 10)%Q.
Definition default_num_images : nat := 10.
Definition default_print_info : bool := false.

Section Pipeline.

Context {ext : Externals}.

(** Lines 136-143: the two metrics of a pair, the SSIM with the dynamic
    range of the generated image as [data_range]. *)
Definition pair_metrics (obs_image : ndarray Q) (generated_image : ndarray Z)
  : outcome (Q * Q) :=
  (mse <- mean_squared_error obs_image (as_float generated_image) ;;
   hi <- amax generated_image ;;
   lo <- amin generated_image ;;
   ssim_value <- ssim obs_image generated_image (hi - lo)%Z ;;
   Ok (mse, ssim_value))%outcome.

(** Lines 145-151: the update of the running best. *)
Definition update_best (best : best_match) (generated_image : ndarray Z)
    (obs_image : ndarray Q) (j : nat) (mse ssim_value : Q) : best_match :=
  if lt_float mse (lowest_mse best) && Qlt_bool (highest_ssim best) ssim_value
  then mk_best_match (Finite mse) ssim_value (Some generated_image)
         (Some obs_image) (Some j)
  else best.

(** The body of the inner loop (lines 134-151). *)
Definition compare_pair (generated_image : ndarray Z) (j : nat)
    (obs_j : ndarray Q) (best : best_match) : outcome best_match :=
  (let obs_image := squeeze obs_j in
   metrics <- pair_metrics obs_image generated_image ;;
   Ok (update_best best generated_image obs_image j (fst metrics) (snd metrics)))%outcome.

(** Phase A (lines 129-151). *)
Definition phase_a (filtered_generated_images : list (ndarray Z))
    (obs_dataset : list (ndarray Q)) : outcome best_match :=
  let total_valid_generated_images := length filtered_generated_images in
  for_range 0 total_valid_generated_images
    (fun i best =>
       (generated_image <- getitem filtered_generated_images i ;;
        for_range 0 (length obs_dataset)
          (fun j best' =>
             (obs_j <- getitem obs_dataset j ;;
              compare_pair generated_image j obs_j best')%outcome)
          best)%outcome)
    initial_best.

(** Phase B (lines 164-173). *)
Definition phase_b (best_generated_image : option (ndarray Z))
    (filtered_generated_images : list (ndarray Z)) (num_images : nat)
  : outcome (list (ndarray Z) * list Q) :=
  (mse_list <- for_each filtered_generated_images
                 (fun generated_image mse_list =>
                    mse <- mse_to_best best_generated_image generated_image ;;
                    Ok (mse_list ++ [mse])) [] ;;
   let top_indices := firstn num_images (argsort mse_list) in
   top_images <- map_o (getitem filtered_generated_images) top_indices ;;
   top_mses <- map_o (getitem mse_list) top_indices ;;
   Ok (top_images, top_mses))%outcome.

(** Lines 72-112: sampling, smoothing, binarization and the ratio filter.
    [z] is the batch of latent vectors drawn by
    [torch.randn(num_samples, latent_dim)]. *)
Definition sample_and_filter (model : autoencoder) (z : ndarray Q)
    (num_samples : nat) (pixel_ratio_range : Q * Q) (threshold : Q)
    (print_info : bool) : io (list (ndarray Z)) :=
  (generated_images <-
     lift (reshape (decoder model z) [num_samples; IMG_SIDE; IMG_SIDE]) ;;
   let smoothed_images :=
     map (fun img => gaussian_filter img 1%Q) (subarrays generated_images) in
   filter_loop smoothed_images num_samples pixel_ratio_range threshold
     print_info)%io.

(** Lines 114-204: the early return on an empty filtered set ([None] is the
    "no result" value of line 117), then the matcher and ranker. *)
Definition match_and_rank (filtered_generated_images : list (ndarray Z))
    (obs_dataset : list (ndarray Q)) (num_images : nat) : io (option result) :=
  (if length filtered_generated_images =? 0
   then print PrintNoImages ;; io_ret None
   else
     let total_valid_generated_images := length filtered_generated_images in
     print (PrintTotalValid total_valid_generated_images) ;;
     best <- lift (phase_a filtered_generated_images obs_dataset) ;;
     lift (plot_best (best_generated_image best) (best_obs_image best)) ;;
     top <- lift (phase_b (best_generated_image best)
                    filtered_generated_images num_images) ;;
     lift (plot_top num_images (fst top) (snd top)) ;;
     io_ret (Some (mk_result filtered_generated_images
                     (best_generated_image best) (best_obs_image best)
                     (best_obs_index best) (lowest_mse best)
                     (fst top) (snd top))))%io.

(** The whole function. *)
Definition generate_and_filter_images (model : autoencoder)
    (obs_dataset : list (ndarray Q)) (z : ndarray Q) (num_samples : nat)
    (pixel_ratio_range : Q * Q) (threshold : Q) (num_images : nat)
    (print_info : bool) : io (option result) :=
  (filtered_generated_images <-
     sample_and_filter model z num_samples pixel_ratio_range threshold
       print_info ;;
   match_and_rank filtered_generated_images obs_dataset num_images)%io.

(** The call [generate_and_filter_images(autoencoder, obs_dataset)], every
    keyword argument at its default. *)
Definition generate_and_filter_images_default (model : autoencoder)
    (obs_dataset : list (ndarray Q)) (z : ndarray Q) : io (option result) :=
  generate_and_filter_images model obs_dataset z default_num_samples
    default_pixel_ratio_range default_threshold default_num_images
    default_print_info.

(** *** The vocabulary of the statements *)

(** A loop over [range(len(l))] that starts by reading [l[i]] is a loop
    over the elements of [l] with their indices. *)
Fixpoint for_indexed {A S : Type} (i : nat) (l : list A)
    (body : nat -> A -> S -> outcome S) (s : S) : outcome S :=
  match l with
  | [] => Ok s
  | x :: l' => obind (body i x s) (for_indexed (Datatypes.S i) l' body)
  end.

(** The elements of a list with their indices, counted from [i]. *)
Definition indexed_from {A : Type} (i : nat) (l : list A) : list (nat * A) :=
  combine (seq i (length l)) l.

(** A compared pair: the generated image, the index of the observation
    and the observation as stored in the dataset. *)
Definition pair : Type := (ndarray Z * nat * ndarray Q)%type.

(** All pairs, in the order in which the two nested loops visit them. *)
Definition pairs (filtered : list (ndarray Z)) (obs_dataset : list (ndarray Q))
  : list pair :=
  flat_map (fun g => map (fun jo => (g, fst jo, snd jo)) (indexed_from 0 obs_dataset))
           filtered.

(** The inner loop body applied along a list of pairs. *)
Definition run_pairs (ps : list pair) (best : best_match) : outcome best_match :=
  for_each ps
    (fun p best' => compare_pair (fst (fst p)) (snd (fst p)) (snd p) best')
    best.

(** The binarized candidates, in generation order. *)
Definition candidates (smoothed_images : list (ndarray Q)) (threshold : Q)
  : list (ndarray Z) :=
  map (fun s => binarize (squeeze s) threshold) smoothed_images.

(** The test of line 111 on a binarized image. *)
Definition passes (pixel_ratio_range : Q * Q) (binary_image : ndarray Z) : bool :=
  in_range pixel_ratio_range (pixel_ratio binary_image).

(** The diagnostic output of the loop, when asked for. *)
Fixpoint debug_output (threshold : Q) (num_samples i : nat)
    (binary_images : list (ndarray Z)) : list event :=
  match binary_images with
  | [] => []
  | b :: rest =>
      PrintDebug (i + 1) num_samples threshold (total_pixels b)
        (active_pixels b) (pixel_ratio b)
      :: debug_output threshold num_samples (Datatypes.S i) rest
  end.

(** [x < y] for a finite [x], as a proposition. *)
Definition float_lt (x : Q) (y : pyfloat) : Prop :=
  match y with
  | Finite q => (x < q)%Q
  | Infinity => True
  end.

(** The test of line 146. *)
Definition improves (best : best_match) (mse ssim_value : Q) : Prop :=
  float_lt mse (lowest_mse best) /\ (highest_ssim best < ssim_value)%Q.

(** The running best once a pair has replaced it. *)
Definition replaced_by (g : ndarray Z) (j : nat) (obs_j : ndarray Q)
    (mse ssim_value : Q) : best_match :=
  mk_best_match (Finite mse) ssim_value (Some g) (Some (squeeze obs_j)) (Some j).

(** What holds of the running best after any number of compared pairs:
    either nothing was ever accepted and it is still the initial state, or
    its fields all describe one and the same accepted pair. *)
Definition consistent (filtered : list (ndarray Z)) (obs_dataset : list (ndarray Q))
    (best : best_match) : Prop :=
  best = initial_best \/
  exists g j obs_j mse,
    best = replaced_by g j obs_j mse (highest_ssim best) /\
    In g filtered /\
    nth_error obs_dataset j = Some obs_j /\
    pair_metrics (squeeze obs_j) g = Ok (mse, highest_ssim best) /\
    (-1 < highest_ssim best)%Q.

(** An image as the reshape of line 83 produces it. *)
Definition is_image {A : Type} (a : ndarray A) : Prop :=
  shape a = [IMG_SIDE; IMG_SIDE] /\ size a = IMG_SIDE * IMG_SIDE.

(** The smoothed images of a run. *)
Definition smoothed_of (model : autoencoder) (z : ndarray Q) (num_samples : nat)
  : list (ndarray Q) :=
  map (fun img => gaussian_filter img 1%Q)
    (subarrays (mk_ndarray [num_samples; IMG_SIDE; IMG_SIDE]
                  (data (decoder model z)))).

(** An ordered subsequence: some elements dropped, the others in place. *)
Inductive subsequence {A : Type} : list A -> list A -> Prop :=
| subsequence_nil : subsequence [] []
| subsequence_drop (x : A) (l l' : list A) :
    subsequence l l' -> subsequence l (x :: l')
| subsequence_keep (x : A) (l l' : list A) :
    subsequence l l' -> subsequence (x :: l) (x :: l').

(** Whether a run returned its tuple, and the tuple it returned. *)
Definition returned (run : io (option result)) : bool :=
  match snd run with
  | Ok (Some _) => true
  | _ => false
  end.

Definition tuple_of (run : io (option result)) : result :=
  match snd run with
  | Ok (Some r) => r
  | _ => mk_result [] None None None Infinity [] []
  end.

(** The filtered set of a run whose decoder output has the right size. *)
Definition filtered_of (model : autoencoder) (z : ndarray Q) (num_samples : nat)
    (pixel_ratio_range : Q * Q) (threshold : Q) : list (ndarray Z) :=
  filter (passes pixel_ratio_range)
    (candidates (smoothed_of model z num_samples) threshold).

(** The diagnostics of the loop of lines 91-112. *)
Definition diagnostics_of (model : autoencoder) (z : ndarray Q) (num_samples : nat)
    (threshold : Q) (print_info : bool) : list event :=
  if print_info
  then debug_output threshold num_samples 0
         (candidates (smoothed_of model z num_samples) threshold)
  else [].

(** [x <= y] for floats that may be infinite. *)
Definition float_le (x y : pyfloat) : Prop :=
  match x, y with
  | _, Infinity => True
  | Finite p, Finite q => (p <= q)%Q
  | Infinity, Finite _ => False
  end.

(** The running best [b'] is at least as good as [b] in both metrics. *)
Definition at_least_as_good (b' b : best_match) : Prop :=
  float_le (lowest_mse b') (lowest_mse b) /\
  (highest_ssim b <= highest_ssim b')%Q.

(** A 256x256 array of zeros and ones. *)
Definition is_binary_image (b : ndarray Z) : Prop :=
  is_image b /\ Forall (fun p => p = 0%Z \/ p = 1%Z) (data b).

(** The ranges a ratio is in together: the larger of the lower ends to
    the smaller of the upper ends. *)
Definition range_meet (r1 r2 : Q * Q) : Q * Q :=
  (Qmax (fst r1) (fst r2), Qmin (snd r1) (snd r2)).

(** The list a computation returned, empty when it raised. *)
Definition produced {A : Type} (c : io (list A)) : list A :=
  match snd c with
  | Ok l => l
  | Raise _ => []
  end.

(** The running best a finished Phase A returned and the image it
    recorded, and whether there is one. *)
Definition best_of (c : outcome best_match) : best_match :=
  match c with
  | Ok best => best
  | Raise _ => initial_best
  end.

Definition image_of (best : best_match) : ndarray Z :=
  match best_generated_image best with
  | Some g => g
  | None => mk_ndarray [] []
  end.

Definition found (c : outcome best_match) : bool :=
  match c with
  | Ok best =>
      match best_generated_image best with
      | Some _ => true
      | None => false
      end
  | Raise _ => false
  end.

End Pipeline.

(* ================================================================== *)
(** ** The other functions of [generative/utils.py] *)

(** The exceptions of these functions: the three of the pipeline and the
    ones that only occur here. *)
Inductive py_exn : Type :=
| Builtin (e : exn)
| AssertionError
| ZeroDivisionError
| StopIteration.

Inductive py_outcome (A : Type) : Type :=
| Returns (a : A)
| Raises (e : py_exn).

Arguments Returns {A} a.
Arguments Raises {A} e.

(** An [outcome] of the pipeline's vocabulary read as a [py_outcome]. *)
Definition of_outcome {A : Type} (c : outcome A) : py_outcome A :=
  match c with
  | Ok a => Returns a
  | Raise e => Raises (Builtin e)
  end.

(** What these functions print. *)
Inductive line : Type :=
| UndersampledInfo (undersampled_shape : list nat)
    (* "\n** (undersampled) data info **" and
       "X_train_undersampled: <shape>" *)
| SplitInfo (sequence_jump : Z) (train_shape val_shape : list nat).
    (* "\n** (split) data info (w/ jump=<jump>)**", "X_train: <shape>" and
       "X_val: <shape>" *)

(** An array holds as many values as its shape says. *)
Definition well_shaped {A : Type} (a : ndarray A) : Prop :=
  size a = prod (shape a).

(** The array whose first axis runs over [frames], each of shape [rest]. *)
Definition stack {A : Type} (rest : list nat) (frames : list (ndarray A))
  : ndarray A :=
  mk_ndarray (length frames :: rest) (concat (map data frames)).

(** The elements at positions [skip], [skip + step], [skip + 2 * step], ...
    of a list. *)
Fixpoint every_nth_from {A : Type} (step skip : nat) (l : list A) : list A :=
  match l with
  | [] => []
  | x :: l' =>
      match skip with
      | O => x :: every_nth_from step (step - 1) l'
      | S skip' => every_nth_from step skip' l'
      end
  end.

(** [arr[0::step]]: the slice of the first axis with a positive step. *)
Definition slice_step {A : Type} (arr : ndarray A) (step : nat) : ndarray A :=
  match shape arr with
  | [] => arr
  | _ :: rest => stack rest (every_nth_from step 0 (subarrays arr))
  end.

(** [sequential_undersample_3d_arr] (lines 219-242). *)
Definition sequential_undersample_3d_arr {A : Type} (arr : ndarray A)
    (sequence_jump : Z) (_print : bool) : list line * py_outcome (ndarray A) :=
  if negb (length (shape arr) =? 3) then ([], Raises AssertionError)
  else
    let sequence_jump := Z.max 1 sequence_jump in
    let undersampled_arr := slice_step arr (Z.to_nat sequence_jump) in
    ((if _print then [UndersampledInfo (shape undersampled_arr)] else []),
     Returns undersampled_arr).

(** The number of elements of [range(start, stop, step)]. *)
Definition range_length (start stop step : Z) : Z :=
  if (0 <? step)%Z
  then if (start <? stop)%Z then ((stop - start - 1) / step + 1)%Z else 0%Z
  else if (stop <? start)%Z then ((start - stop - 1) / (- step) + 1)%Z else 0%Z.

(** [list(range(start, stop, step))]: [ValueError] on a zero step. *)
Definition py_range (start stop step : Z) : outcome (list Z) :=
  if (step =? 0)%Z then Raise ValueError
  else Ok (map (fun k => (start + Z.of_nat k * step)%Z)
             (seq 0 (Z.to_nat (range_length start stop step)))).

(** [arr[indices]] with a list of integers: the frames of the first axis
    at these indices, negative ones counted from the end, [IndexError]
    outside [-n, n). *)
Definition take_frames {A : Type} (arr : ndarray A) (indices : list Z)
  : outcome (ndarray A) :=
  match shape arr with
  | [] => Raise IndexError
  | n :: rest =>
      obind (map_o (fun i =>
                      if ((- Z.of_nat n <=? i) && (i <? Z.of_nat n))%Z
                      then getitem (subarrays arr)
                             (Z.to_nat (i mod Z.of_nat n))
                      else Raise IndexError)
                   indices)
            (fun frames => Ok (stack rest frames))
  end.

(** [i in val_idx] *)
Definition mem_Z (i : Z) (l : list Z) : bool := existsb (Z.eqb i) l.

(** [sequential_train_val_split] (lines 245-284). *)
Definition sequential_train_val_split {A : Type} (train_data : ndarray A)
    (sequence_jump start_offset jump_multiplier : Z) (_print : bool)
  : list line * outcome (ndarray A * ndarray A) :=
  match shape train_data with
  | [] => ([], Raise IndexError)
  | n :: _ =>
      match py_range (sequence_jump * start_offset + 1) (Z.of_nat n)
              (sequence_jump * jump_multiplier) with
      | Raise e => ([], Raise e)
      | Ok val_idx =>
          let train_idx :=
            filter (fun i => negb (mem_Z i val_idx))
                   (map Z.of_nat (seq 0 n)) in
          match take_frames train_data train_idx with
          | Raise e => ([], Raise e)
          | Ok X_train =>
              match take_frames train_data val_idx with
              | Raise e => ([], Raise e)
              | Ok X_val =>
                  ((if _print
                    then [SplitInfo sequence_jump (shape X_train) (shape X_val)]
                    else []),
                   Ok (X_train, X_val))
              end
          end
      end
  end.

(** The keyword defaults of [sequential_train_val_split]. *)
Definition default_start_offset : Z := 2.
Definition default_jump_multiplier : Z := 3.

(** A [DataLoader]: the number of samples of its dataset and the batches
    it yields. *)
Record data_loader (B : Type) : Type := mk_data_loader {
  dataset_length : nat;
  batches : list B
}.

Arguments mk_data_loader {B} dataset_length batches.
Arguments dataset_length {B} d.
Arguments batches {B} d.

(** [total_error / len(data_loader.dataset)] *)
Definition divide_by_length (total_error : Q) (n : nat) : py_outcome Q :=
  if n =? 0 then Raises ZeroDivisionError
  else Returns (total_error / inject_Z (Z.of_nat n))%Q.

(** The loop of [test_data_metrics] (lines 341-345).  [batch_error X]
    stands for [criterion(model(X)[0], X).item()] on a batch, which may
    raise. *)
Fixpoint accumulate_errors {B : Type} (batch_error : B -> py_outcome Q)
    (data : list B) (total_error : Q) : py_outcome Q :=
  match data with
  | [] => Returns total_error
  | X_test :: rest =>
      match batch_error X_test with
      | Returns error => accumulate_errors batch_error rest (total_error + error)%Q
      | Raises e => Raises e
      end
  end.

(** [test_data_metrics] (lines 314-347). *)
Definition test_data_metrics {B : Type} (batch_error : B -> py_outcome Q)
    (loader : data_loader B) : py_outcome Q :=
  match accumulate_errors batch_error (batches loader) 0%Q with
  | Returns total_error => divide_by_length total_error (dataset_length loader)
  | Raises e => Raises e
  end.

(** *** The vocabulary of the statements *)

(** A frame of an array whose shape is [n :: rest]. *)
Definition frame_of {A : Type} (rest : list nat) (f : ndarray A) : Prop :=
  shape f = rest /\ size f = prod rest.

(** The positions [start], [start + step], ... below [n], and the others. *)
Definition val_positions (n start step : nat) : list nat :=
  map (fun k => start + k * step)
    (seq 0 (Z.to_nat (range_length (Z.of_nat start) (Z.of_nat n) (Z.of_nat step)))).

Definition train_positions (n start step : nat) : list nat :=
  filter (fun i => negb (existsb (Nat.eqb i) (val_positions n start step)))
    (seq 0 n).

(* ================================================================== *)
(** ** Implementations of the collaborators and concrete inputs

    A stable insertion sort on the indices is one [argsort]; the identity
    is one shape-preserving filter; [1 - 2 * MSE], a constant and the share
    of active pixels are three similarity scores.  They show that the
    interface can be implemented and let the pipeline run on concrete
    inputs. *)

Fixpoint insert_index (l : list Q) (i : nat) (sorted : list nat) : list nat :=
  match sorted with
  | [] => [i]
  | j :: rest =>
      if Qle_bool (nth i l 0%Q) (nth j l 0%Q) then i :: j :: rest
      else j :: insert_index l i rest
  end.

Definition insertion_argsort (l : list Q) : list nat :=
  fold_right (insert_index l) [] (seq 0 (length l)).

Definition identity_filter (a : ndarray Q) (sigma : Q) : ndarray Q := a.

Definition mse_similarity (im1 : ndarray Q) (im2 : ndarray Z) (data_range : Z)
  : outcome Q :=
  (mse <- mean_squared_error im1 (as_float im2) ;;
   Ok (Qred (1 - 2 * mse)))%outcome.

(** Two more similarity scores: a constant one, and the share of active
    pixels of the generated image (which ignores the observation). *)
Definition constant_similarity (v : Q) (im1 : ndarray Q) (im2 : ndarray Z)
    (data_range : Z) : outcome Q := Ok v.

Definition density_similarity (im1 : ndarray Q) (im2 : ndarray Z)
    (data_range : Z) : outcome Q :=
  Ok (inject_Z (Z.of_nat (active_pixels im2)) / inject_Z (Z.of_nat (size im2)))%Q.

(** A 10x10 smoothed image whose first [k] pixels are 1: once binarized at
    1/2 its pixel ratio is [k] percent. *)
Definition small_image (k : nat) : ndarray Q :=
  mk_ndarray [10; 10] (repeat 1%Q k ++ repeat 0%Q (100 - k)).

Definition small_binary (k : nat) : ndarray Z :=
  binarize (squeeze (small_image k)) (1 # 2).

Definition five_small_images : list (ndarray Q) :=
  [small_image 3; small_image 6; small_image 10; small_image 20; small_image 13].

Definition kept_small_images : list (ndarray Z) :=
  [small_binary 6; small_binary 10; small_binary 13].

(** 2x2 binary images and a 1x2x2 observation. *)
Definition tiny (a b c d : Z) : ndarray Z := mk_ndarray [2; 2] [a; b; c; d].

Definition tiny_obs : ndarray Q := mk_ndarray [1; 2; 2] [1; 1; 0; 0]%Q.

(** Full-size inputs: [n] decoded images of 256x256 pixels, the [k]-th
    with its first [first + step * k] pixels set. *)
Definition striped (k : nat) : list Q :=
  repeat 1%Q k ++ repeat 0%Q (IMG_SIDE * IMG_SIDE - k).

Definition striped_model (n first step : nat) : autoencoder :=
  mk_autoencoder 4
    (fun _ => mk_ndarray [n; 1; IMG_SIDE; IMG_SIDE]
                (concat (map (fun k => striped (first + step * k)) (seq 0 n)))).

Definition latent_batch (n : nat) : ndarray Q :=
  mk_ndarray [n; 4] (repeat 0%Q (n * 4)).

Definition one_observation : list (ndarray Q) :=
  [mk_ndarray [1; IMG_SIDE; IMG_SIDE] (striped 4250)].

(** Eight frames of 1x2 pixels, the [k]-th filled with [k]. *)
Definition eight_frames : ndarray Z :=
  mk_ndarray [8; 1; 2] [0; 0; 1; 1; 2; 2; 3; 3; 4; 4; 5; 5; 6; 6; 7; 7]%Z.

(** Nine such frames. *)
Definition nine_frames : ndarray Z :=
  mk_ndarray [9; 1; 2]
    [0; 0; 1; 1; 2; 2; 3; 3; 4; 4; 5; 5; 6; 6; 7; 7; 8; 8]%Z.

(* ================================================================== *)
(** ** Comparisons on floats *)

Lemma Qlt_bool_iff (x y : Q) : Qlt_bool x y = true <-> (x < y)%Q.
Proof.
  unfold Qlt_bool, Qlt. apply Z.ltb_lt.
Qed.

Lemma Qle_bool_false_iff (x y : Q) : Qle_bool x y = false <-> (y < x)%Q.
Proof.
  unfold Qle_bool, Qlt. apply Z.leb_gt.
Qed.

Lemma in_range_iff (range : Q * Q) (ratio : option Q) :
  in_range range ratio = true <->
  exists r, ratio = Some r /\ (fst range <= r)%Q /\ (r <= snd range)%Q.
Proof.
  destruct ratio as [r|]; simpl.
  - rewrite andb_true_iff, !Qle_bool_iff. split.
    + intros [H1 H2]. exists r. auto.
    + intros [r' [E [H1 H2]]]. injection E as <-. auto.
  - split; [discriminate | intros [r [E _]]; discriminate].
Qed.

(* ================================================================== *)
(** ** Loops over a list through its indices *)

Lemma getitem_app_r {A : Type} (pre rest : list A) (x : A) :
  getitem (pre ++ x :: rest) (length pre) = Ok x.
Proof.
  unfold getitem. rewrite nth_error_app2 by lia.
  rewrite Nat.sub_diag. reflexivity.
Qed.

Lemma getitem_Ok {A : Type} (l : list A) (i : nat) (x : A) :
  getitem l i = Ok x <-> nth_error l i = Some x.
Proof.
  unfold getitem. destruct (nth_error l i); split; congruence.
Qed.

Lemma for_range_getitem {A S : Type} (body : nat -> A -> S -> outcome S)
    (rest pre : list A) (s : S) :
  for_range (length pre) (length rest)
    (fun i s' => obind (getitem (pre ++ rest) i) (fun x => body i x s')) s
  = for_indexed (length pre) rest body s.
Proof.
  revert pre s. induction rest as [|x rest IH]; intros pre s; simpl.
  - reflexivity.
  - rewrite getitem_app_r. simpl. destruct (body (length pre) x s) as [s'|e]; simpl.
    + specialize (IH (pre ++ [x]) s').
      rewrite <- app_assoc in IH. simpl in IH.
      rewrite length_app in IH. simpl in IH. rewrite Nat.add_1_r in IH.
      exact IH.
    + reflexivity.
Qed.

(* ================================================================== *)
(** ** The ratio filter *)

Lemma fold_append_if_in_range (range : Q * Q) (bs acc : list (ndarray Z)) :
  fold_left (append_if_in_range range) bs acc = acc ++ filter (passes range) bs.
Proof.
  revert acc. induction bs as [|b bs IH]; intros acc; simpl.
  - now rewrite app_nil_r.
  - rewrite IH. unfold append_if_in_range, passes.
    destruct (in_range range (pixel_ratio b)).
    + now rewrite <- app_assoc.
    + reflexivity.
Qed.

Lemma ratio_filter_filter (range : Q * Q) (bs : list (ndarray Z)) :
  ratio_filter range bs = filter (passes range) bs.
Proof.
  unfold ratio_filter. now rewrite fold_append_if_in_range.
Qed.

Lemma io_bind_Ok {A B : Type} (out : list event) (a : A) (k : A -> io B) :
  io_bind (out, Ok a) k = (out ++ fst (k a), snd (k a)).
Proof.
  unfold io_bind. destruct (k a); reflexivity.
Qed.

Lemma io_bind_lift_Ok {A B : Type} (a : A) (k : A -> io B) :
  io_bind (lift (Ok a)) k = k a.
Proof.
  unfold lift. rewrite io_bind_Ok. destruct (k a); reflexivity.
Qed.

Lemma ratio_step_run (range : Q * Q) (threshold : Q) (print_info : bool)
    (num_samples i : nat) (acc : list (ndarray Z)) (b : ndarray Z) :
  ratio_step range threshold print_info num_samples i acc b
  = ((if print_info
      then [PrintDebug (i + 1) num_samples threshold (total_pixels b)
              (active_pixels b) (pixel_ratio b)]
      else []),
     Ok (append_if_in_range range acc b)).
Proof.
  unfold ratio_step, print, io_ret. destruct print_info; reflexivity.
Qed.

Lemma filter_loop_from (range : Q * Q) (threshold : Q) (print_info : bool)
    (num_samples : nat) (rest pre : list (ndarray Q)) (acc : list (ndarray Z)) :
  io_for_range (length pre) (length rest)
    (fun i filtered =>
       io_bind (lift (getitem (pre ++ rest) i))
         (fun s => ratio_step range threshold print_info num_samples i filtered
                     (binarize (squeeze s) threshold)))
    acc
  = ((if print_info
      then debug_output threshold num_samples (length pre)
             (candidates rest threshold)
      else []),
     Ok (fold_left (append_if_in_range range) (candidates rest threshold) acc)).
Proof.
  revert pre acc. induction rest as [|s rest IH]; intros pre acc.
  - simpl. destruct print_info; reflexivity.
  - cbn [length io_for_range]. rewrite getitem_app_r.
    specialize (IH (pre ++ [s])
                  (append_if_in_range range acc (binarize (squeeze s) threshold))).
    rewrite <- app_assoc, length_app in IH. cbn [app length] in IH.
    rewrite Nat.add_1_r in IH.
    rewrite io_bind_lift_Ok, ratio_step_run, io_bind_Ok, IH.
    destruct print_info; reflexivity.
Qed.

(** With as many smoothed images as samples, the loop never raises: it
    filters the binarized candidates, printing one record per candidate
    when [print_info] is set. *)
Lemma filter_loop_run (smoothed : list (ndarray Q)) (range : Q * Q)
    (threshold : Q) (print_info : bool) :
  filter_loop smoothed (length smoothed) range threshold print_info
  = ((if print_info
      then debug_output threshold (length smoothed) 0 (candidates smoothed threshold)
      else []),
     Ok (ratio_filter range (candidates smoothed threshold))).
Proof.
  unfold filter_loop, ratio_filter.
  exact (filter_loop_from range threshold print_info (length smoothed) smoothed [] []).
Qed.

Lemma io_for_range_ext {S : Type} (body1 body2 : nat -> S -> io S) (n a : nat) (s : S) :
  (forall i s', a <= i < a + n -> body1 i s' = body2 i s') ->
  io_for_range a n body1 s = io_for_range a n body2 s.
Proof.
  revert a s. induction n as [|n IH]; intros a s Hext; simpl.
  - reflexivity.
  - rewrite Hext by lia. destruct (body2 a s) as [out [s'|e]]; simpl.
    + rewrite IH; [reflexivity|]. intros i s'' Hi. apply Hext. lia.
    + reflexivity.
Qed.

Lemma io_for_range_raise_first {S : Type} (body : nat -> S -> io S) (n a : nat)
    (s : S) (e : exn) :
  body a s = ([], Raise e) ->
  io_for_range a (Datatypes.S n) body s = ([], Raise e).
Proof.
  intros H. simpl. rewrite H. reflexivity.
Qed.

Lemma io_for_range_add {S : Type} (body : nat -> S -> io S) (n1 n2 a : nat) (s : S) :
  io_for_range a (n1 + n2) body s
  = io_bind (io_for_range a n1 body s) (io_for_range (a + n1) n2 body).
Proof.
  revert a s. induction n1 as [|n1 IH]; intros a s.
  - cbn [Nat.add io_for_range]. unfold io_ret. rewrite io_bind_Ok.
    rewrite Nat.add_0_r. now destruct (io_for_range a n2 body s).
  - cbn [Nat.add io_for_range].
    destruct (body a s) as [out [s'|e]]; [|reflexivity].
    rewrite !io_bind_Ok, IH.
    replace (a + Datatypes.S n1) with (Datatypes.S a + n1) by lia.
    destruct (io_for_range (Datatypes.S a) n1 body s') as [out1 [s1|e1]].
    + rewrite !io_bind_Ok. cbn [fst snd]. rewrite io_bind_Ok. cbn [fst snd].
      now rewrite app_assoc.
    + reflexivity.
Qed.

(** Asking for more samples than there are smoothed images raises. *)
Lemma filter_loop_short (smoothed : list (ndarray Q)) (num_samples : nat)
    (range : Q * Q) (threshold : Q) (print_info : bool) :
  length smoothed < num_samples ->
  snd (filter_loop smoothed num_samples range threshold print_info)
  = Raise IndexError.
Proof.
  intros Hlt. unfold filter_loop.
  replace num_samples
    with (length smoothed + Datatypes.S (num_samples - length smoothed - 1)) by lia.
  rewrite io_for_range_add.
  pose proof (filter_loop_from range threshold print_info
                (length smoothed + Datatypes.S (num_samples - length smoothed - 1))
                smoothed [] []) as H.
  cbn [app length] in H. rewrite H, io_bind_Ok. cbn [snd Nat.add].
  rewrite io_for_range_raise_first with (e := IndexError); [reflexivity|].
  unfold getitem.
  destruct (nth_error smoothed (length smoothed)) eqn:E.
  - assert (nth_error smoothed (length smoothed) <> None) as Hn by congruence.
    apply nth_error_Some in Hn. lia.
  - reflexivity.
Qed.

(** Reading only the first [num_samples] smoothed images. *)
Lemma filter_loop_firstn (smoothed : list (ndarray Q)) (num_samples : nat)
    (range : Q * Q) (threshold : Q) (print_info : bool) :
  num_samples <= length smoothed ->
  filter_loop smoothed num_samples range threshold print_info
  = ((if print_info
      then debug_output threshold num_samples 0
             (candidates (firstn num_samples smoothed) threshold)
      else []),
     Ok (ratio_filter range (candidates (firstn num_samples smoothed) threshold))).
Proof.
  intros Hle.
  pose proof (filter_loop_run (firstn num_samples smoothed) range threshold
                print_info) as H.
  rewrite length_firstn, Nat.min_l in H by exact Hle.
  rewrite <- H. unfold filter_loop. apply io_for_range_ext.
  intros i s' Hi. unfold getitem.
  rewrite nth_error_firstn.
  destruct (Nat.ltb_spec i num_samples); [reflexivity | lia].
Qed.

(** Every successful run of the loop is the ratio filter applied to the
    binarized candidates. *)
Lemma filter_loop_Ok (smoothed : list (ndarray Q)) (num_samples : nat)
    (range : Q * Q) (threshold : Q) (print_info : bool)
    (out : list event) (filtered : list (ndarray Z)) :
  filter_loop smoothed num_samples range threshold print_info = (out, Ok filtered) ->
  num_samples <= length smoothed /\
  filtered = filter (passes range) (candidates (firstn num_samples smoothed) threshold).
Proof.
  intros H. destruct (Nat.le_gt_cases num_samples (length smoothed)) as [Hle|Hgt].
  - split; [exact Hle|].
    rewrite filter_loop_firstn in H by exact Hle.
    injection H as _ H. now rewrite <- H, ratio_filter_filter.
  - pose proof (filter_loop_short smoothed num_samples range threshold print_info Hgt) as H'.
    rewrite H in H'. discriminate.
Qed.

(* ================================================================== *)
(** ** Insertion sort on the indices is an [argsort] *)

Lemma insert_index_perm (l : list Q) (i : nat) (s : list nat) :
  Permutation (insert_index l i s) (i :: s).
Proof.
  induction s as [|j s IH]; simpl.
  - apply Permutation_refl.
  - destruct (Qle_bool (nth i l 0%Q) (nth j l 0%Q)).
    + apply Permutation_refl.
    + apply Permutation_trans with (j :: i :: s).
      * now apply perm_skip.
      * apply perm_swap.
Qed.

Lemma insertion_argsort_perm (l : list Q) :
  Permutation (insertion_argsort l) (seq 0 (length l)).
Proof.
  unfold insertion_argsort. induction (seq 0 (length l)) as [|i s IH]; simpl.
  - apply perm_nil.
  - apply Permutation_trans with (i :: fold_right (insert_index l) [] s).
    + apply insert_index_perm.
    + now apply perm_skip.
Qed.

Lemma insert_index_sorted (l : list Q) (i : nat) (s : list nat) :
  Sorted Qle (map (fun k => nth k l 0%Q) s) ->
  Sorted Qle (map (fun k => nth k l 0%Q) (insert_index l i s)).
Proof.
  induction s as [|j s IH]; intros Hs; simpl.
  - repeat constructor.
  - destruct (Qle_bool (nth i l 0%Q) (nth j l 0%Q)) eqn:E.
    + simpl. constructor; [exact Hs|]. constructor. now apply Qle_bool_iff.
    + apply Qle_bool_false_iff in E. inversion Hs as [|? ? Hs' Hhd]; subst.
      simpl. constructor; [now apply IH|].
      destruct s as [|k s]; simpl.
      * constructor. now apply Qlt_le_weak.
      * destruct (Qle_bool (nth i l 0%Q) (nth k l 0%Q)); simpl; constructor.
        -- now apply Qlt_le_weak.
        -- now inversion Hhd.
Qed.

Lemma insertion_argsort_sorted (l : list Q) :
  Sorted Qle (map (fun k => nth k l 0%Q) (insertion_argsort l)).
Proof.
  unfold insertion_argsort. induction (seq 0 (length l)) as [|i s IH]; simpl.
  - constructor.
  - now apply insert_index_sorted.
Qed.

(* ================================================================== *)
(** ** Phase A as one pass over the pairs *)

Lemma for_indexed_ext {A S : Type} (body1 body2 : nat -> A -> S -> outcome S)
    (l : list A) (i : nat) (s : S) :
  (forall k x s', body1 k x s' = body2 k x s') ->
  for_indexed i l body1 s = for_indexed i l body2 s.
Proof.
  intros Hext. revert i s. induction l as [|x l IH]; intros i s; simpl.
  - reflexivity.
  - rewrite Hext. destruct (body2 i x s); simpl; [apply IH | reflexivity].
Qed.

Lemma for_range_list {A S : Type} (body : nat -> A -> S -> outcome S)
    (l : list A) (s : S) :
  for_range 0 (length l)
    (fun i s' => obind (getitem l i) (fun x => body i x s')) s
  = for_indexed 0 l body s.
Proof.
  exact (for_range_getitem body l [] s).
Qed.

Lemma for_each_app {A S : Type} (body : A -> S -> outcome S) (l1 l2 : list A) (s : S) :
  for_each (l1 ++ l2) body s = obind (for_each l1 body s) (for_each l2 body).
Proof.
  revert s. induction l1 as [|x l1 IH]; intros s; simpl.
  - reflexivity.
  - destruct (body x s); simpl; [apply IH | reflexivity].
Qed.

Lemma for_indexed_for_each {A S : Type} (body : nat -> A -> S -> outcome S)
    (l : list A) (i : nat) (s : S) :
  for_indexed i l body s
  = for_each (indexed_from i l) (fun p s' => body (fst p) (snd p) s') s.
Proof.
  revert i s. induction l as [|x l IH]; intros i s; simpl.
  - reflexivity.
  - destruct (body i x s); simpl; [apply IH | reflexivity].
Qed.

Lemma in_indexed_from {A : Type} (l : list A) (i j : nat) (x : A) :
  In (j, x) (indexed_from i l) <-> i <= j /\ nth_error l (j - i) = Some x.
Proof.
  unfold indexed_from. revert i. induction l as [|y l IH]; intros i; simpl.
  - split; [tauto|]. intros [_ H]. destruct (j - i); discriminate.
  - rewrite IH. split.
    + intros [E | [Hle Hn]].
      * injection E as <- <-. rewrite Nat.sub_diag. split; [lia | reflexivity].
      * split; [lia|]. replace (j - i) with (S (j - S i)) by lia. exact Hn.
    + intros [Hle Hn]. destruct (Nat.eq_dec i j) as [<-|Hne].
      * left. rewrite Nat.sub_diag in Hn. simpl in Hn. congruence.
      * right. split; [lia|]. replace (j - i) with (S (j - S i)) in Hn by lia.
        exact Hn.
Qed.

Lemma in_pairs (filtered : list (ndarray Z)) (obs_dataset : list (ndarray Q))
    (g : ndarray Z) (j : nat) (o : ndarray Q) :
  In (g, j, o) (pairs filtered obs_dataset) <->
  In g filtered /\ nth_error obs_dataset j = Some o.
Proof.
  unfold pairs. rewrite in_flat_map. split.
  - intros [g' [Hg Hin]]. apply in_map_iff in Hin.
    destruct Hin as [[j' o'] [E Hjo]]. simpl in E. injection E as <- <- <-.
    apply in_indexed_from in Hjo. rewrite Nat.sub_0_r in Hjo. tauto.
  - intros [Hg Hn]. exists g. split; [exact Hg|].
    apply in_map_iff. exists (j, o). split; [reflexivity|].
    apply in_indexed_from. rewrite Nat.sub_0_r. split; [lia | exact Hn].
Qed.

Section PhaseA.

Context {ext : Externals}.

Lemma run_pairs_app (ps1 ps2 : list pair) (best : best_match) :
  run_pairs (ps1 ++ ps2) best = obind (run_pairs ps1 best) (run_pairs ps2).
Proof.
  apply for_each_app.
Qed.

Lemma inner_loop_pairs (g : ndarray Z) (obs_dataset : list (ndarray Q))
    (best : best_match) :
  for_range 0 (length obs_dataset)
    (fun j best' =>
       obind (getitem obs_dataset j) (fun obs_j => compare_pair g j obs_j best'))
    best
  = run_pairs (map (fun jo => (g, fst jo, snd jo)) (indexed_from 0 obs_dataset)) best.
Proof.
  rewrite for_range_list, for_indexed_for_each. unfold run_pairs.
  induction (indexed_from 0 obs_dataset) as [|[j o] l IH] in best |- *; simpl.
  - reflexivity.
  - destruct (compare_pair g j o best); simpl; [apply IH | reflexivity].
Qed.

(** The nested loops of Phase A visit [pairs] from left to right. *)
Lemma phase_a_pairs (filtered : list (ndarray Z)) (obs_dataset : list (ndarray Q)) :
  phase_a filtered obs_dataset
  = run_pairs (pairs filtered obs_dataset) initial_best.
Proof.
  unfold phase_a. rewrite for_range_list.
  rewrite for_indexed_ext
    with (body2 := fun _ g best =>
                     run_pairs (map (fun jo => (g, fst jo, snd jo))
                                  (indexed_from 0 obs_dataset)) best)
    by (intros; apply inner_loop_pairs).
  generalize initial_best as best. generalize 0 at 1 as i.
  unfold pairs. induction filtered as [|g filtered IH]; intros i best; simpl.
  - reflexivity.
  - rewrite run_pairs_app.
    destruct (run_pairs _ best); simpl; [apply IH | reflexivity].
Qed.

End PhaseA.

(* ================================================================== *)
(** ** The update rule and the invariant of Phase A *)

Lemma lt_float_iff (x : Q) (y : pyfloat) : lt_float x y = true <-> float_lt x y.
Proof.
  destruct y as [q|]; simpl.
  - apply Qlt_bool_iff.
  - tauto.
Qed.

Lemma update_best_improves (best : best_match) (g : ndarray Z) (j : nat)
    (obs_j : ndarray Q) (mse ssim_value : Q) :
  improves best mse ssim_value ->
  update_best best g (squeeze obs_j) j mse ssim_value
  = replaced_by g j obs_j mse ssim_value.
Proof.
  intros [H1 H2]. unfold update_best.
  apply lt_float_iff in H1. apply Qlt_bool_iff in H2.
  now rewrite H1, H2.
Qed.

Lemma update_best_keeps (best : best_match) (g : ndarray Z) (j : nat)
    (obs_image : ndarray Q) (mse ssim_value : Q) :
  ~ improves best mse ssim_value ->
  update_best best g obs_image j mse ssim_value = best.
Proof.
  intros Hn. unfold update_best.
  destruct (lt_float mse (lowest_mse best)) eqn:E1; [|reflexivity].
  destruct (Qlt_bool (highest_ssim best) ssim_value) eqn:E2; [|reflexivity].
  exfalso. apply Hn. split; [now apply lt_float_iff | now apply Qlt_bool_iff].
Qed.

Lemma improves_changes (best : best_match) (g : ndarray Z) (j : nat)
    (obs_j : ndarray Q) (mse ssim_value : Q) :
  improves best mse ssim_value ->
  replaced_by g j obs_j mse ssim_value <> best.
Proof.
  intros [H1 _] E. rewrite <- E in H1. simpl in H1.
  exact (Qlt_irrefl _ H1).
Qed.

Section PhaseAInvariant.

Context {ext : Externals}.

Lemma compare_pair_metrics (g : ndarray Z) (j : nat) (obs_j : ndarray Q)
    (best : best_match) (mse ssim_value : Q) :
  pair_metrics (squeeze obs_j) g = Ok (mse, ssim_value) ->
  compare_pair g j obs_j best
  = Ok (update_best best g (squeeze obs_j) j mse ssim_value).
Proof.
  intros H. unfold compare_pair. rewrite H. reflexivity.
Qed.

Lemma compare_pair_Ok (g : ndarray Z) (j : nat) (obs_j : ndarray Q)
    (best best' : best_match) :
  compare_pair g j obs_j best = Ok best' ->
  exists mse ssim_value,
    pair_metrics (squeeze obs_j) g = Ok (mse, ssim_value) /\
    best' = update_best best g (squeeze obs_j) j mse ssim_value.
Proof.
  unfold compare_pair. destruct (pair_metrics (squeeze obs_j) g) as [[m s]|e]; simpl.
  - intros E. injection E as <-. now exists m, s.
  - discriminate.
Qed.

Lemma pair_metrics_mse (obs_image : ndarray Q) (g : ndarray Z) (mse ssim_value : Q) :
  pair_metrics obs_image g = Ok (mse, ssim_value) ->
  mean_squared_error obs_image (as_float g) = Ok mse.
Proof.
  unfold pair_metrics.
  destruct (mean_squared_error obs_image (as_float g)) as [m|]; simpl; [|discriminate].
  destruct (amax g); simpl; [|discriminate].
  destruct (amin g); simpl; [|discriminate].
  destruct (ssim obs_image g (a - a0)); simpl; [|discriminate].
  intros E. now injection E as <- _.
Qed.

Lemma update_best_consistent (filtered : list (ndarray Z))
    (obs_dataset : list (ndarray Q)) (best : best_match) (g : ndarray Z) (j : nat)
    (obs_j : ndarray Q) (mse ssim_value : Q) :
  consistent filtered obs_dataset best ->
  In g filtered ->
  nth_error obs_dataset j = Some obs_j ->
  pair_metrics (squeeze obs_j) g = Ok (mse, ssim_value) ->
  consistent filtered obs_dataset
    (update_best best g (squeeze obs_j) j mse ssim_value).
Proof.
  intros Hc Hg Hj Hm. unfold update_best.
  destruct (lt_float mse (lowest_mse best)) eqn:E1; [|exact Hc].
  destruct (Qlt_bool (highest_ssim best) ssim_value) eqn:E2; [|exact Hc].
  simpl. right. exists g, j, obs_j, mse. simpl.
  repeat split; try assumption; try reflexivity.
  apply Qlt_bool_iff in E2.
  destruct Hc as [-> | (g0 & j0 & o0 & m0 & _ & _ & _ & _ & Hs)].
  - exact E2.
  - now apply Qlt_trans with (highest_ssim best).
Qed.

Lemma run_pairs_consistent (filtered : list (ndarray Z))
    (obs_dataset : list (ndarray Q)) (ps : list pair) (best best' : best_match) :
  (forall p, In p ps -> In p (pairs filtered obs_dataset)) ->
  consistent filtered obs_dataset best ->
  run_pairs ps best = Ok best' ->
  consistent filtered obs_dataset best'.
Proof.
  revert best. induction ps as [|[[g j] o] ps IH]; intros best Hin Hc Hrun.
  - simpl in Hrun. now injection Hrun as <-.
  - unfold run_pairs in Hrun. simpl in Hrun.
    destruct (compare_pair g j o best) as [b1|] eqn:E; simpl in Hrun; [|discriminate].
    apply compare_pair_Ok in E. destruct E as (m & s & Hm & ->).
    assert (In (g, j, o) (pairs filtered obs_dataset)) as Hp by (apply Hin; now left).
    apply in_pairs in Hp. destruct Hp as [Hg Hj].
    apply IH with (best := update_best best g (squeeze o) j m s).
    + intros p Hp. apply Hin. now right.
    + now apply update_best_consistent.
    + exact Hrun.
Qed.

Lemma phase_a_consistent (filtered : list (ndarray Z))
    (obs_dataset : list (ndarray Q)) (best : best_match) :
  phase_a filtered obs_dataset = Ok best ->
  consistent filtered obs_dataset best.
Proof.
  rewrite phase_a_pairs. apply run_pairs_consistent.
  - auto.
  - now left.
Qed.

(** Once a best image is recorded it stays recorded. *)
Lemma update_best_stays_set (best : best_match) (g : ndarray Z) (j : nat)
    (obs_image : ndarray Q) (mse ssim_value : Q) :
  best_generated_image best <> None ->
  best_generated_image (update_best best g obs_image j mse ssim_value) <> None.
Proof.
  intros H. unfold update_best.
  destruct (_ && _); [simpl; discriminate | exact H].
Qed.

Lemma run_pairs_stays_set (ps : list pair) (best best' : best_match) :
  best_generated_image best <> None ->
  run_pairs ps best = Ok best' ->
  best_generated_image best' <> None.
Proof.
  revert best. induction ps as [|[[g j] o] ps IH]; intros best Hset Hrun.
  - simpl in Hrun. now injection Hrun as <-.
  - unfold run_pairs in Hrun. simpl in Hrun.
    destruct (compare_pair g j o best) as [b1|] eqn:E; simpl in Hrun; [|discriminate].
    apply compare_pair_Ok in E. destruct E as (m & s & _ & ->).
    eapply IH; [|exact Hrun]. now apply update_best_stays_set.
Qed.

(** While every similarity is at most [-1] nothing is accepted. *)
Lemma run_pairs_never_accepts (ps : list pair) (best' : best_match) :
  (forall g j o m s, In (g, j, o) ps ->
     pair_metrics (squeeze o) g = Ok (m, s) -> (s <= -1)%Q) ->
  run_pairs ps initial_best = Ok best' ->
  best' = initial_best.
Proof.
  induction ps as [|[[g j] o] ps IH]; intros Hall Hrun.
  - simpl in Hrun. now injection Hrun as <-.
  - unfold run_pairs in Hrun. simpl in Hrun.
    destruct (compare_pair g j o initial_best) as [b1|] eqn:E; simpl in Hrun;
      [|discriminate].
    apply compare_pair_Ok in E. destruct E as (m & s & Hm & ->).
    rewrite update_best_keeps in Hrun.
    + apply IH; [|exact Hrun]. intros. eapply Hall; [right|]; eassumption.
    + intros [_ Hs]. simpl in Hs.
      apply (Qlt_not_le _ _ Hs). eapply Hall; [left; reflexivity | exact Hm].
Qed.

(** A run that ends with no best image recorded never accepted a pair. *)
Lemma run_pairs_unset (ps : list pair) (best best' : best_match) :
  run_pairs ps best = Ok best' ->
  best_generated_image best' = None ->
  best' = best.
Proof.
  revert best. induction ps as [|[[g j] o] ps IH]; intros best Hrun Hnone.
  - simpl in Hrun. now injection Hrun as <-.
  - unfold run_pairs in Hrun. simpl in Hrun.
    destruct (compare_pair g j o best) as [b1|] eqn:E; simpl in Hrun; [|discriminate].
    apply compare_pair_Ok in E. destruct E as (m & s & _ & ->).
    rewrite (IH _ Hrun Hnone). unfold update_best.
    destruct (_ && _) eqn:Eb; [|reflexivity].
    exfalso. revert Hnone. eapply run_pairs_stays_set; [|exact Hrun].
    unfold update_best. rewrite Eb. simpl. discriminate.
Qed.

(** A similarity above [-1] is accepted at the latest when it is met. *)
Lemma run_pairs_accepts (pre post : list pair) (g : ndarray Z) (j : nat)
    (o : ndarray Q) (m s : Q) (best' : best_match) :
  pair_metrics (squeeze o) g = Ok (m, s) ->
  (-1 < s)%Q ->
  run_pairs (pre ++ (g, j, o) :: post) initial_best = Ok best' ->
  best_generated_image best' <> None.
Proof.
  intros Hm Hs Hrun. rewrite run_pairs_app in Hrun.
  destruct (run_pairs pre initial_best) as [b1|] eqn:E1; simpl in Hrun; [|discriminate].
  unfold run_pairs in Hrun. simpl in Hrun.
  rewrite (compare_pair_metrics g j o b1 m s Hm) in Hrun. simpl in Hrun.
  eapply run_pairs_stays_set; [|exact Hrun].
  destruct (best_generated_image b1) as [g1|] eqn:Eg.
  - apply update_best_stays_set. congruence.
  - rewrite (run_pairs_unset pre initial_best b1 E1 Eg).
    rewrite update_best_improves; [simpl; discriminate|].
    split; [exact I | exact Hs].
Qed.

End PhaseAInvariant.

(* ================================================================== *)
(** ** Phase B *)

Lemma map_o_Ok {A B : Type} (f : A -> outcome B) (l : list A) (ys : list B) :
  map_o f l = Ok ys <-> Forall2 (fun x y => f x = Ok y) l ys.
Proof.
  revert ys. induction l as [|x l IH]; intros ys; simpl.
  - split.
    + intros E. injection E as <-. constructor.
    + intros H. inversion H. reflexivity.
  - destruct (f x) as [y|e] eqn:Ef; simpl.
    + destruct (map_o f l) as [ys'|e] eqn:El; simpl.
      * split.
        -- intros E. injection E as <-. constructor; [exact Ef | now apply IH].
        -- intros H. inversion H as [|? y0 ? ys0 Hy Htl]; subst.
           apply IH in Htl. congruence.
      * split; [discriminate|].
        intros H. inversion H as [|? y0 ? ys0 Hy Htl]; subst.
        apply IH in Htl. discriminate.
    + split; [discriminate|].
      intros H. inversion H; subst. congruence.
Qed.

Lemma for_each_collect {A B : Type} (f : A -> outcome B) (l : list A) (acc : list B) :
  for_each l (fun x acc' => obind (f x) (fun y => Ok (acc' ++ [y]))) acc
  = obind (map_o f l) (fun ys => Ok (acc ++ ys)).
Proof.
  revert acc. induction l as [|x l IH]; intros acc; simpl.
  - now rewrite app_nil_r.
  - destruct (f x) as [y|e]; simpl; [|reflexivity].
    rewrite IH. destruct (map_o f l); simpl; [|reflexivity].
    now rewrite <- app_assoc.
Qed.

Lemma Forall2_nth_error {A B : Type} (R : A -> B -> Prop) (l : list A) (l' : list B)
    (i : nat) (x : A) (y : B) :
  Forall2 R l l' -> nth_error l i = Some x -> nth_error l' i = Some y -> R x y.
Proof.
  intros H. revert i. induction H as [|a b l l' Hab _ IH]; intros i Hx Hy.
  - destruct i; discriminate.
  - destruct i as [|i]; simpl in Hx, Hy.
    + congruence.
    + now apply (IH i).
Qed.

Lemma Sorted_firstn {A : Type} (R : A -> A -> Prop) (l : list A) (n : nat) :
  Sorted R l -> Sorted R (firstn n l).
Proof.
  intros H. revert n. induction H as [|x l Hs IH Hhd]; intros n.
  - rewrite firstn_nil. constructor.
  - destruct n as [|n]; simpl; [constructor|].
    constructor; [apply IH|].
    destruct Hhd as [|y l' Hxy]; destruct n; simpl; constructor. exact Hxy.
Qed.

Lemma Forall2_map_nth {A : Type} (d : A) (l : list A) (idx : list nat) (xs : list A) :
  Forall2 (fun i x => nth_error l i = Some x) idx xs ->
  xs = map (fun i => nth i l d) idx.
Proof.
  induction 1 as [|i x idx xs Hi _ IH]; simpl.
  - reflexivity.
  - rewrite <- IH. f_equal. symmetry. now apply nth_error_nth.
Qed.

Section PhaseB.

Context {ext : Externals}.

(** What a successful Phase B has computed: the MSE of every filtered
    image to the best one, and the images and MSEs at the first
    [num_images] indices of the sorted order. *)
Lemma phase_b_Ok (best : option (ndarray Z)) (filtered : list (ndarray Z))
    (num_images : nat) (top_images : list (ndarray Z)) (top_mses : list Q) :
  phase_b best filtered num_images = Ok (top_images, top_mses) ->
  exists mse_list,
    Forall2 (fun g m => mse_to_best best g = Ok m) filtered mse_list /\
    Forall2 (fun i img => nth_error filtered i = Some img)
            (firstn num_images (argsort mse_list)) top_images /\
    Forall2 (fun i m => nth_error mse_list i = Some m)
            (firstn num_images (argsort mse_list)) top_mses.
Proof.
  unfold phase_b. rewrite for_each_collect.
  destruct (map_o (mse_to_best best) filtered) as [mse_list|] eqn:E1; simpl;
    [|discriminate].
  destruct (map_o (getitem filtered) _) as [ti|] eqn:E2; simpl; [|discriminate].
  destruct (map_o (getitem mse_list) _) as [tm|] eqn:E3; simpl; [|discriminate].
  intros E. injection E as <- <-.
  exists mse_list. apply map_o_Ok in E1, E2, E3. repeat split.
  - exact E1.
  - eapply Forall2_impl; [|exact E2]. intros i img. apply getitem_Ok.
  - eapply Forall2_impl; [|exact E3]. intros i m. apply getitem_Ok.
Qed.

Lemma top_indices_length (mse_list : list Q) (num_images : nat) :
  length (firstn num_images (argsort mse_list))
  = Nat.min num_images (length mse_list).
Proof.
  rewrite length_firstn, (Permutation_length (argsort_perm mse_list)), length_seq.
  reflexivity.
Qed.

Lemma top_mses_sorted (mse_list : list Q) (num_images : nat) :
  Sorted Qle (map (fun i => nth i mse_list 0%Q)
                (firstn num_images (argsort mse_list))).
Proof.
  rewrite <- firstn_map. apply Sorted_firstn, argsort_sorted.
Qed.

End PhaseB.

(* ================================================================== *)
(** ** The mean squared error *)

Lemma Qsquare_nonneg (q : Q) : (0 <= q * q)%Q.
Proof.
  unfold Qle, Qmult. simpl. rewrite Z.mul_1_r. apply Z.square_nonneg.
Qed.

Lemma squared_errors_nonneg (l1 l2 : list Q) :
  Forall (fun x => (0 <= x)%Q) (squared_errors l1 l2).
Proof.
  unfold squared_errors. apply Forall_forall. intros x Hx.
  apply in_map_iff in Hx. destruct Hx as [p [<- _]]. apply Qsquare_nonneg.
Qed.

Lemma Qsum_nonneg (l : list Q) :
  Forall (fun x => (0 <= x)%Q) l -> (0 <= Qsum l)%Q.
Proof.
  induction 1 as [|x l Hx _ IH]; simpl.
  - apply Qle_refl.
  - rewrite <- (Qplus_0_l 0). now apply Qplus_le_compat.
Qed.

Lemma Qsum_zero (l : list Q) :
  Forall (fun x => (0 <= x)%Q) l -> (Qsum l == 0)%Q ->
  Forall (fun x => (x == 0)%Q) l.
Proof.
  induction 1 as [|x l Hx Hl IH]; simpl; intros Hsum.
  - constructor.
  - pose proof (Qsum_nonneg l Hl) as Hs.
    assert (x == 0)%Q as Hx0.
    { apply Qle_antisym; [|exact Hx].
      rewrite <- Hsum. rewrite <- (Qplus_0_r x) at 1.
      apply Qplus_le_compat; [apply Qle_refl | exact Hs]. }
    constructor; [exact Hx0|]. apply IH.
    rewrite Hx0, Qplus_0_l in Hsum. exact Hsum.
Qed.

Lemma mean_squared_error_Ok (y_true y_pred : ndarray Q) (mse : Q) :
  mean_squared_error y_true y_pred = Ok mse ->
  exists n m,
    as_2d (shape y_true) = Some (n, m) /\ as_2d (shape y_pred) = Some (n, m) /\
    1 <= n /\ 1 <= m /\
    mse = (Qsum (squared_errors (data y_true) (data y_pred))
           / inject_Z (Z.of_nat (n * m)))%Q.
Proof.
  unfold mean_squared_error.
  destruct (as_2d (shape y_true)) as [[n m]|]; [|discriminate].
  destruct (as_2d (shape y_pred)) as [[n' m']|]; [|discriminate].
  destruct ((n =? n') && (m =? m') && (1 <=? n) && (1 <=? m)) eqn:E; [|discriminate].
  apply andb_true_iff in E. destruct E as [E E4].
  apply andb_true_iff in E. destruct E as [E E3].
  apply andb_true_iff in E. destruct E as [E1 E2].
  apply Nat.eqb_eq in E1, E2. apply Nat.leb_le in E3, E4. subst n' m'.
  intros H. injection H as <-. exists n, m. auto.
Qed.

Lemma pixel_count_positive (n m : nat) :
  1 <= n -> 1 <= m -> (0 < inject_Z (Z.of_nat (n * m)))%Q.
Proof.
  intros Hn Hm. change 0%Q with (inject_Z 0). rewrite <- Zlt_Qlt.
  apply (inj_lt 0). nia.
Qed.

Lemma mean_squared_error_nonneg (y_true y_pred : ndarray Q) (mse : Q) :
  mean_squared_error y_true y_pred = Ok mse -> (0 <= mse)%Q.
Proof.
  intros H. apply mean_squared_error_Ok in H.
  destruct H as (n & m & _ & _ & Hn & Hm & ->).
  apply Qle_shift_div_l; [now apply pixel_count_positive|].
  rewrite Qmult_0_l. apply Qsum_nonneg, squared_errors_nonneg.
Qed.

Lemma squared_errors_self (l : list Q) :
  Forall (fun x => (x == 0)%Q) (squared_errors l l).
Proof.
  unfold squared_errors. induction l as [|x l IH]; simpl; constructor.
  - ring.
  - exact IH.
Qed.

Lemma Qsum_all_zero (l : list Q) :
  Forall (fun x => (x == 0)%Q) l -> (Qsum l == 0)%Q.
Proof.
  induction 1 as [|x l Hx _ IH]; simpl.
  - reflexivity.
  - rewrite Hx, IH. ring.
Qed.

(** The MSE of an image to itself is zero. *)
Lemma mean_squared_error_self (a : ndarray Q) (mse : Q) :
  mean_squared_error a a = Ok mse -> (mse == 0)%Q.
Proof.
  intros H. apply mean_squared_error_Ok in H.
  destruct H as (n & m & _ & _ & Hn & Hm & ->).
  rewrite (Qsum_all_zero _ (squared_errors_self (data a))).
  unfold Qdiv. ring.
Qed.

Lemma squared_errors_zero_eq (l1 l2 : list Z) :
  length l1 = length l2 ->
  Forall (fun x => (x == 0)%Q)
         (squared_errors (map inject_Z l1) (map inject_Z l2)) ->
  l1 = l2.
Proof.
  revert l2. induction l1 as [|x l1 IH]; intros [|y l2] Hlen Hall;
    try discriminate; [reflexivity|].
  unfold squared_errors in Hall. simpl in Hall.
  inversion Hall as [|? ? Hxy Htl]; subst.
  f_equal.
  - apply Qmult_integral in Hxy.
    assert (inject_Z x - inject_Z y == 0)%Q as Hd by tauto.
    apply inject_Z_injective. rewrite <- (Qplus_0_l (inject_Z y)), <- Hd. ring.
  - apply IH; [simpl in Hlen; lia | exact Htl].
Qed.

(** Two integer images of one shape and size at MSE zero are equal. *)
Lemma mean_squared_error_zero_eq (a b : ndarray Z) (mse : Q) :
  shape a = shape b -> size a = size b ->
  mean_squared_error (as_float a) (as_float b) = Ok mse ->
  (mse == 0)%Q -> a = b.
Proof.
  intros Hshape Hsize H Hz. apply mean_squared_error_Ok in H.
  destruct H as (n & m & _ & _ & Hn & Hm & ->).
  assert (Qsum (squared_errors (data (as_float a)) (data (as_float b))) == 0)%Q as Hs.
  { pose proof (pixel_count_positive n m Hn Hm) as Hpos.
    rewrite <- (Qmult_div_r (Qsum _) (inject_Z (Z.of_nat (n * m)))).
    - rewrite Hz. ring.
    - intros E. rewrite E in Hpos. exact (Qlt_irrefl _ Hpos). }
  apply Qsum_zero in Hs; [|apply squared_errors_nonneg].
  simpl in Hs. apply squared_errors_zero_eq in Hs; [|exact Hsize].
  destruct a, b. simpl in *. congruence.
Qed.

(* ================================================================== *)
(** ** The arrays that reach the matcher *)

Lemma chunks_length {A : Type} (n k : nat) (l : list A) :
  length (chunks n k l) = n.
Proof.
  revert l. induction n as [|n IH]; intros l; simpl; [reflexivity|].
  now rewrite IH.
Qed.

Lemma chunks_sizes {A : Type} (n k : nat) (l : list A) :
  length l = n * k -> Forall (fun c => length c = k) (chunks n k l).
Proof.
  revert l. induction n as [|n IH]; intros l Hlen; cbn [chunks].
  - constructor.
  - constructor.
    + rewrite length_firstn. nia.
    + apply IH. rewrite length_skipn. nia.
Qed.

Lemma squeeze_image_shape :
  filter (fun d => negb (d =? 1)) [IMG_SIDE; IMG_SIDE] = [IMG_SIDE; IMG_SIDE].
Proof.
  reflexivity.
Qed.

Lemma squeeze_is_image {A : Type} (a : ndarray A) : is_image a -> squeeze a = a.
Proof.
  intros [Hs _]. destruct a as [s d]. unfold squeeze. simpl in *.
  subst s. now rewrite squeeze_image_shape.
Qed.

Lemma binarize_is_image (a : ndarray Q) (threshold : Q) :
  is_image a -> is_image (binarize a threshold).
Proof.
  intros [Hs Hn]. split; [exact Hs|].
  unfold size, binarize. simpl. now rewrite length_map.
Qed.

Lemma subarrays_reshaped {A : Type} (l : list A) (n : nat) :
  length l = n * (IMG_SIDE * IMG_SIDE) ->
  length (subarrays (mk_ndarray [n; IMG_SIDE; IMG_SIDE] l)) = n /\
  Forall is_image (subarrays (mk_ndarray [n; IMG_SIDE; IMG_SIDE] l)).
Proof.
  intros Hlen. unfold subarrays. cbn [shape data]. split.
  - now rewrite length_map, chunks_length.
  - apply Forall_map. unfold prod. cbn [fold_right]. rewrite Nat.mul_1_r.
    eapply Forall_impl; [|apply chunks_sizes; exact Hlen].
    intros c Hc. split; [reflexivity | exact Hc].
Qed.

Lemma io_bind_inv {A B : Type} (c : io A) (k : A -> io B) (out : list event) (b : B) :
  io_bind c k = (out, Ok b) ->
  exists out1 a out2,
    c = (out1, Ok a) /\ k a = (out2, Ok b) /\ out = out1 ++ out2.
Proof.
  destruct c as [out1 [a|e]]; simpl.
  - destruct (k a) as [out2 r] eqn:E. intros H. injection H as <- ->.
    now exists out1, a, out2.
  - discriminate.
Qed.

Section Inversion.

Context {ext : Externals}.

Lemma reshape_Ok {A : Type} (a b : ndarray A) (new_shape : list nat) :
  reshape a new_shape = Ok b ->
  size a = prod new_shape /\ b = mk_ndarray new_shape (data a).
Proof.
  unfold reshape. destruct (Nat.eqb_spec (size a) (prod new_shape)).
  - intros E. injection E as <-. auto.
  - discriminate.
Qed.

Lemma prod_batch (n : nat) :
  prod [n; IMG_SIDE; IMG_SIDE] = n * (IMG_SIDE * IMG_SIDE).
Proof.
  unfold prod. cbn [fold_right]. now rewrite Nat.mul_1_r.
Qed.

Lemma smoothed_of_images (model : autoencoder) (z : ndarray Q) (num_samples : nat) :
  size (decoder model z) = num_samples * (IMG_SIDE * IMG_SIDE) ->
  length (smoothed_of model z num_samples) = num_samples /\
  Forall is_image (smoothed_of model z num_samples).
Proof.
  intros Hsize. destruct (subarrays_reshaped _ _ Hsize) as [Hlen Himg].
  unfold smoothed_of. split.
  - now rewrite length_map.
  - apply Forall_map. eapply Forall_impl; [|exact Himg].
    intros a [Hs Hn]. split.
    + now rewrite gaussian_filter_shape.
    + now rewrite gaussian_filter_size.
Qed.

(** A run of lines 72-112 that does not raise: the decoder produced
    [num_samples] images of 256x256 pixels and the filtered set is the
    ratio filter of their binarizations. *)
Lemma sample_and_filter_Ok (model : autoencoder) (z : ndarray Q)
    (num_samples : nat) (range : Q * Q) (threshold : Q) (print_info : bool)
    (out : list event) (filtered : list (ndarray Z)) :
  sample_and_filter model z num_samples range threshold print_info
  = (out, Ok filtered) ->
  size (decoder model z) = num_samples * (IMG_SIDE * IMG_SIDE) /\
  filtered = filter (passes range)
               (candidates (smoothed_of model z num_samples) threshold) /\
  out = (if print_info
         then debug_output threshold num_samples 0
                (candidates (smoothed_of model z num_samples) threshold)
         else []).
Proof.
  unfold sample_and_filter. intros H. apply io_bind_inv in H.
  destruct H as (out1 & g & out2 & Hr & Hf & ->).
  unfold lift in Hr. injection Hr as <- Hr. apply reshape_Ok in Hr.
  destruct Hr as [Hsize ->]. rewrite prod_batch in Hsize.
  fold (smoothed_of model z num_samples) in Hf.
  destruct (smoothed_of_images model z num_samples Hsize) as [Hlen _].
  rewrite <- Hlen in Hf at 2. rewrite filter_loop_run in Hf.
  injection Hf as <- <-. rewrite Hlen, ratio_filter_filter. auto.
Qed.

Lemma sample_and_filter_images (model : autoencoder) (z : ndarray Q)
    (num_samples : nat) (range : Q * Q) (threshold : Q) (print_info : bool)
    (out : list event) (filtered : list (ndarray Z)) :
  sample_and_filter model z num_samples range threshold print_info
  = (out, Ok filtered) ->
  Forall is_image filtered.
Proof.
  intros H. apply sample_and_filter_Ok in H. destruct H as (Hsize & -> & _).
  destruct (smoothed_of_images model z num_samples Hsize) as [_ Himg].
  apply Forall_forall. intros b Hb. apply filter_In in Hb. destruct Hb as [Hb _].
  unfold candidates in Hb. apply in_map_iff in Hb. destruct Hb as (s & <- & Hs).
  rewrite Forall_forall in Himg. specialize (Himg s Hs).
  rewrite squeeze_is_image by exact Himg. now apply binarize_is_image.
Qed.

(** A run of lines 114-204 that returns its tuple went through both
    phases and both plots. *)
Lemma match_and_rank_Ok (filtered : list (ndarray Z)) (obs_dataset : list (ndarray Q))
    (num_images : nat) (out : list event) (r : result) :
  match_and_rank filtered obs_dataset num_images = (out, Ok (Some r)) ->
  filtered <> [] /\
  out = [PrintTotalValid (length filtered)] /\
  exists best top_images top_mses,
    phase_a filtered obs_dataset = Ok best /\
    plot_best (best_generated_image best) (best_obs_image best) = Ok tt /\
    phase_b (best_generated_image best) filtered num_images
    = Ok (top_images, top_mses) /\
    plot_top num_images top_images top_mses = Ok tt /\
    r = mk_result filtered (best_generated_image best) (best_obs_image best)
          (best_obs_index best) (lowest_mse best) top_images top_mses.
Proof.
  unfold match_and_rank. destruct (length filtered =? 0) eqn:E0.
  - discriminate.
  - intros H. split.
    { intros ->. discriminate. }
    unfold print, lift, io_ret in H. rewrite io_bind_Ok in H.
    destruct (phase_a filtered obs_dataset) as [best|] eqn:Ea; [|discriminate].
    rewrite io_bind_Ok in H.
    destruct (plot_best (best_generated_image best) (best_obs_image best))
      as [[]|] eqn:Ep; [|discriminate].
    rewrite io_bind_Ok in H.
    destruct (phase_b (best_generated_image best) filtered num_images)
      as [[ti tm]|] eqn:Eb; [|discriminate].
    rewrite io_bind_Ok in H. cbn [fst snd] in H.
    destruct (plot_top num_images ti tm) as [[]|] eqn:Et; [|discriminate].
    rewrite io_bind_Ok in H. cbn [fst snd app] in H.
    injection H as <- <-. split; [reflexivity|].
    exists best, ti, tm. auto.
Qed.

Lemma generate_and_filter_images_Ok (model : autoencoder)
    (obs_dataset : list (ndarray Q)) (z : ndarray Q) (num_samples : nat)
    (range : Q * Q) (threshold : Q) (num_images : nat) (print_info : bool)
    (out : list event) (r : result) :
  generate_and_filter_images model obs_dataset z num_samples range threshold
    num_images print_info = (out, Ok (Some r)) ->
  exists out1 filtered out2,
    sample_and_filter model z num_samples range threshold print_info
    = (out1, Ok filtered) /\
    match_and_rank filtered obs_dataset num_images = (out2, Ok (Some r)) /\
    out = out1 ++ out2.
Proof.
  unfold generate_and_filter_images. apply io_bind_inv.
Qed.

End Inversion.

(* ================================================================== *)
(** ** The collaborators, implemented *)

Definition externals_with
    (similarity : ndarray Q -> ndarray Z -> Z -> outcome Q) : Externals := {|
  gaussian_filter := identity_filter;
  gaussian_filter_shape := fun _ _ => eq_refl;
  gaussian_filter_size := fun _ _ => eq_refl;
  ssim := similarity;
  argsort := insertion_argsort;
  argsort_perm := insertion_argsort_perm;
  argsort_sorted := insertion_argsort_sorted
|}.

(** The instance used for the runs on full-size images. *)
Definition reference_externals : Externals := externals_with mse_similarity.

(** Eleven images, all within (5, 14) percent, ranked eleven deep. *)
Definition full_run : io (option result) :=
  generate_and_filter_images (ext := reference_externals)
    (striped_model 11 4000 100) one_observation (latent_batch 11) 11
    (5, 14)%Q (1 # 2) 11 false.

(** One full-size image that the range (5, 14) keeps. *)
Definition single_filtered_run : io (list (ndarray Z)) :=
  sample_and_filter (ext := reference_externals) (striped_model 1 4000 0)
    (latent_batch 1) 1 (5, 14)%Q (1 # 2) false.

(** Three full-size images that the range (5, 14) keeps, and the running
    best Phase A ends with on them. *)
Definition three_images_run : io (list (ndarray Z)) :=
  sample_and_filter (ext := reference_externals) (striped_model 3 4000 100)
    (latent_batch 3) 3 (5, 14)%Q (1 # 2) false.

Definition three_images_match : outcome best_match :=
  phase_a (ext := reference_externals) (produced three_images_run)
    one_observation.

Lemma returned_eq (run : io (option result)) :
  returned run = true -> run = (fst run, Ok (Some (tuple_of run))).
Proof.
  unfold returned, tuple_of. destruct run as [out [[r|]|e]]; cbn; intros H;
    try discriminate. reflexivity.
Qed.

Lemma full_run_returns : returned full_run = true.
Proof.
  vm_compute. reflexivity.
Qed.

Lemma produced_eq {A : Type} (c : io (list A)) :
  (0 <? length (produced c)) = true ->
  c = (fst c, Ok (produced c)) /\ produced c <> [].
Proof.
  unfold produced. destruct c as [out [l|e]]; cbn; intros H.
  - split; [reflexivity|]. intros ->. discriminate.
  - discriminate.
Qed.

Lemma single_filtered_run_keeps : (0 <? length (produced single_filtered_run)) = true.
Proof.
  vm_compute. reflexivity.
Qed.

Lemma found_eq (c : outcome best_match) :
  found c = true ->
  c = Ok (best_of c) /\
  best_generated_image (best_of c) = Some (image_of (best_of c)).
Proof.
  unfold found, best_of, image_of. destruct c as [best|e]; [|discriminate].
  destruct (best_generated_image best); [|discriminate].
  intros _. split; reflexivity.
Qed.

Lemma three_images_run_keeps : length (produced three_images_run) = 3.
Proof.
  vm_compute. reflexivity.
Qed.

Lemma three_images_match_found : found three_images_match = true.
Proof.
  vm_compute. reflexivity.
Qed.

(* ================================================================== *)
(** * The claims *)

(** ** Post-processing and ratio filter *)

(** C5.  Binarization keeps the shape (and the size) of the smoothed image
    and sets every pixel to 1 when the smoothed value is at least the
    threshold and to 0 otherwise.  Hence every output pixel is 0 or 1; a
    threshold above every value gives the all-0 image, and a threshold at
    or below every value gives the all-1 image. *)
Theorem binarize_zero_one (generated_image : ndarray Q) (threshold : Q) :
  shape (binarize generated_image threshold) = shape generated_image /\
  size (binarize generated_image threshold) = size generated_image /\
  (forall i x,
     nth_error (data generated_image) i = Some x ->
     ((threshold <= x)%Q ->
      nth_error (data (binarize generated_image threshold)) i = Some 1%Z) /\
     ((x < threshold)%Q ->
      nth_error (data (binarize generated_image threshold)) i = Some 0%Z)) /\
  Forall (fun p => p = 0%Z \/ p = 1%Z) (data (binarize generated_image threshold)) /\
  ((forall x, In x (data generated_image) -> (x < threshold)%Q) ->
   Forall (fun p => p = 0%Z) (data (binarize generated_image threshold))) /\
  ((forall x, In x (data generated_image) -> (threshold <= x)%Q) ->
   Forall (fun p => p = 1%Z) (data (binarize generated_image threshold))).
Proof.
  unfold binarize, size. cbn [shape data].
  split; [reflexivity|]. split; [apply length_map|]. split; [|split; [|split]].
  - intros i x Hx. rewrite nth_error_map, Hx. cbn [option_map]. split; intros H.
    + apply Qle_bool_iff in H. now rewrite H.
    + apply Qle_bool_false_iff in H. now rewrite H.
  - apply Forall_map, Forall_forall. intros x _.
    destruct (Qle_bool threshold x); auto.
  - intros Hall. apply Forall_map, Forall_forall. intros x Hx.
    apply Hall, Qle_bool_false_iff in Hx. now rewrite Hx.
  - intros Hall. apply Forall_map, Forall_forall. intros x Hx.
    apply Hall, Qle_bool_iff in Hx. now rewrite Hx.
Qed.

Lemma binarize_zero_one_witness :
  Forall (fun p => p = 0%Z \/ p = 1%Z) (data (small_binary 6)) /\
  Forall (fun p => p = 0%Z) (data (binarize (mk_ndarray [2] [0.1; 0.7]%Q) 2)) /\
  Forall (fun p => p = 1%Z) (data (binarize (mk_ndarray [2] [0.1; 0.7]%Q) 0.1)).
Proof.
  split; [|split].
  - exact (proj1 (proj2 (proj2 (proj2
             (binarize_zero_one (squeeze (small_image 6)) (1 # 2)))))).
  - apply (binarize_zero_one (mk_ndarray [2] [0.1; 0.7]%Q) 2).
    intros x [<-|[<-|[]]]; reflexivity.
  - apply (binarize_zero_one (mk_ndarray [2] [0.1; 0.7]%Q) 0.1).
    intros x [<-|[<-|[]]]; discriminate.
Defined.

Lemma pixel_ratio_value (b : ndarray Z) (r : Q) :
  pixel_ratio b = Some r ->
  (r == 100 * inject_Z (Z.of_nat (active_pixels b))
        / inject_Z (Z.of_nat (total_pixels b)))%Q.
Proof.
  unfold pixel_ratio. destruct (total_pixels b =? 0); [discriminate|].
  intros E. injection E as <-. unfold Qdiv. ring.
Qed.

Lemma passes_iff (range : Q * Q) (b : ndarray Z) :
  passes range b = true <->
  exists r, pixel_ratio b = Some r /\ (fst range <= r)%Q /\ (r <= snd range)%Q.
Proof.
  apply in_range_iff.
Qed.

(** C2.  After the loop of lines 89-112, every image of the filtered set
    has a pixel ratio [r = 100 * ones / total] with [lo <= r <= hi], both
    ends included, and no binarized candidate whose ratio is not in
    [[lo, hi]] is in the filtered set. *)
Theorem filtered_set_in_range (smoothed_images : list (ndarray Q))
    (num_samples : nat) (pixel_ratio_range : Q * Q) (threshold : Q)
    (print_info : bool) (out : list event) (filtered : list (ndarray Z)) :
  filter_loop smoothed_images num_samples pixel_ratio_range threshold print_info
  = (out, Ok filtered) ->
  (forall b, In b filtered ->
     exists r,
       pixel_ratio b = Some r /\
       (r == 100 * inject_Z (Z.of_nat (active_pixels b))
             / inject_Z (Z.of_nat (total_pixels b)))%Q /\
       (fst pixel_ratio_range <= r)%Q /\ (r <= snd pixel_ratio_range)%Q) /\
  (forall i s,
     i < num_samples -> nth_error smoothed_images i = Some s ->
     ~ (exists r,
          pixel_ratio (binarize (squeeze s) threshold) = Some r /\
          (fst pixel_ratio_range <= r)%Q /\ (r <= snd pixel_ratio_range)%Q) ->
     ~ In (binarize (squeeze s) threshold) filtered).
Proof.
  intros H. apply filter_loop_Ok in H. destruct H as [_ ->]. split.
  - intros b Hb. apply filter_In in Hb. destruct Hb as [_ Hp].
    apply passes_iff in Hp. destruct Hp as (r & Hr & Hlo & Hhi).
    exists r. repeat split; try assumption. now apply pixel_ratio_value.
  - intros i s _ _ Hout Hin. apply filter_In in Hin. destruct Hin as [_ Hp].
    apply Hout. now apply passes_iff.
Qed.

Lemma filtered_set_in_range_witness :
  filter_loop five_small_images 5 (5, 14)%Q (1 # 2) false
  = ([], Ok kept_small_images) /\
  (forall b, In b kept_small_images ->
     exists r, pixel_ratio b = Some r /\ (5 <= r)%Q /\ (r <= 14)%Q) /\
  ~ In (small_binary 3) kept_small_images /\
  ~ In (small_binary 20) kept_small_images.
Proof.
  assert (filter_loop five_small_images 5 (5, 14)%Q (1 # 2) false
          = ([], Ok kept_small_images)) as Hrun by reflexivity.
  destruct (filtered_set_in_range five_small_images 5 (5, 14)%Q (1 # 2) false
              [] kept_small_images Hrun) as [Hin Hout].
  split; [exact Hrun|]. split; [|split].
  - intros b Hb. destruct (Hin b Hb) as (r & Hr & _ & Hlo & Hhi).
    exists r. auto.
  - apply (Hout 0 (small_image 3)); [lia | reflexivity|].
    intros (r & Hr & Hlo & _). injection Hr as <-.
    apply Qle_bool_iff in Hlo. discriminate.
  - apply (Hout 3 (small_image 20)); [lia | reflexivity|].
    intros (r & Hr & _ & Hhi). injection Hr as <-.
    apply Qle_bool_iff in Hhi. discriminate.
Defined.

Lemma filter_subsequence {A : Type} (f : A -> bool) (l : list A) :
  subsequence (filter f l) l.
Proof.
  induction l as [|x l IH]; simpl.
  - constructor.
  - destruct (f x); now constructor.
Qed.

(** C6.  The filtered set is the ordered subsequence of the binarized
    candidates that pass the ratio test, in generation order; in
    particular three candidates of ratios 6, 10 and 13 percent are all
    kept, in their order, by the range (5, 14). *)
Theorem ratio_filter_preserves_order (smoothed_images : list (ndarray Q))
    (pixel_ratio_range : Q * Q) (threshold : Q) (print_info : bool) :
  snd (filter_loop smoothed_images (length smoothed_images) pixel_ratio_range
         threshold print_info)
  = Ok (filter (passes pixel_ratio_range) (candidates smoothed_images threshold)) /\
  subsequence (filter (passes pixel_ratio_range)
                 (candidates smoothed_images threshold))
              (candidates smoothed_images threshold) /\
  (forall s1 s2 s3 r1 r2 r3,
     smoothed_images = [s1; s2; s3] ->
     pixel_ratio (binarize (squeeze s1) threshold) = Some r1 -> (r1 == 6)%Q ->
     pixel_ratio (binarize (squeeze s2) threshold) = Some r2 -> (r2 == 10)%Q ->
     pixel_ratio (binarize (squeeze s3) threshold) = Some r3 -> (r3 == 13)%Q ->
     snd (filter_loop smoothed_images 3 (5, 14)%Q threshold print_info)
     = Ok [binarize (squeeze s1) threshold; binarize (squeeze s2) threshold;
           binarize (squeeze s3) threshold]).
Proof.
  split; [|split].
  - rewrite filter_loop_run. cbn [snd]. now rewrite ratio_filter_filter.
  - apply filter_subsequence.
  - intros s1 s2 s3 r1 r2 r3 -> H1 E1 H2 E2 H3 E3.
    change 3 with (length [s1; s2; s3]).
    rewrite filter_loop_run. cbn [snd]. rewrite ratio_filter_filter.
    unfold candidates. cbn [map filter]. unfold passes.
    rewrite H1, H2, H3. unfold in_range. cbn [fst snd].
    assert (forall r q, (r == q)%Q -> (5 <= q)%Q -> (q <= 14)%Q ->
              Qle_bool 5 r && Qle_bool r 14 = true) as Hin.
    { intros r q E Hlo Hhi. apply andb_true_iff.
      split; apply Qle_bool_iff; rewrite E; assumption. }
    rewrite (Hin r1 6%Q E1), (Hin r2 10%Q E2), (Hin r3 13%Q E3)
      by (unfold Qle; simpl; lia).
    reflexivity.
Qed.

Lemma ratio_filter_preserves_order_witness :
  snd (filter_loop [small_image 6; small_image 10; small_image 13] 3 (5, 14)%Q
         (1 # 2) false)
  = Ok [small_binary 6; small_binary 10; small_binary 13].
Proof.
  destruct (ratio_filter_preserves_order
              [small_image 6; small_image 10; small_image 13] (5, 14)%Q (1 # 2)
              false) as (_ & _ & H).
  eapply H;
    [reflexivity | reflexivity | exact eq_refl | reflexivity | exact eq_refl
    | reflexivity | exact eq_refl].
Defined.

(** C8.  The ratio filter is idempotent: filtering its own output again
    with the same range changes nothing; in particular the filtered set
    that the loop of lines 89-112 builds is a fixed point of the filter. *)
Theorem ratio_filter_idempotent (pixel_ratio_range : Q * Q)
    (binary_images : list (ndarray Z)) :
  ratio_filter pixel_ratio_range (ratio_filter pixel_ratio_range binary_images)
  = ratio_filter pixel_ratio_range binary_images /\
  (forall smoothed_images num_samples threshold print_info out filtered,
     filter_loop smoothed_images num_samples pixel_ratio_range threshold print_info
     = (out, Ok filtered) ->
     ratio_filter pixel_ratio_range filtered = filtered).
Proof.
  assert (forall bs, filter (passes pixel_ratio_range)
                       (filter (passes pixel_ratio_range) bs)
                     = filter (passes pixel_ratio_range) bs) as Hidem.
  { induction bs as [|b bs IH]; [reflexivity|]. cbn [filter].
    destruct (passes pixel_ratio_range b) eqn:E; [|exact IH].
    cbn [filter]. now rewrite E, IH. }
  split.
  - now rewrite !ratio_filter_filter.
  - intros smoothed num_samples threshold print_info out filtered H.
    apply filter_loop_Ok in H. destruct H as [_ ->].
    now rewrite ratio_filter_filter.
Qed.

Lemma ratio_filter_idempotent_witness :
  ratio_filter (5, 14)%Q
    (ratio_filter (5, 14)%Q (candidates five_small_images (1 # 2)))
  = kept_small_images /\
  ratio_filter (5, 14)%Q kept_small_images = kept_small_images.
Proof.
  destruct (ratio_filter_idempotent (5, 14)%Q
              (candidates five_small_images (1 # 2))) as [Htwice Hloop].
  split.
  - rewrite Htwice. reflexivity.
  - apply (Hloop five_small_images 5 (1 # 2) false []). reflexivity.
Defined.

(** ** The empty filtered set *)

Section EmptyFilteredSet.

Context {ext : Externals}.

Lemma filter_none {A : Type} (f : A -> bool) (l : list A) :
  (forall x, In x l -> f x = false) -> filter f l = [].
Proof.
  induction l as [|x l IH]; intros H; simpl; [reflexivity|].
  rewrite (H x) by now left. apply IH. intros y Hy. apply H. now right.
Qed.

(** C4.  When the decoder delivered its [num_samples] images and none of
    the binarized candidates has its pixel ratio in the range, the function
    prints "No images meet the pixel ratio criteria." (after the optional
    diagnostics of the loop) and returns [None]; it does not raise, and
    neither phase runs: the outcome is the same for every observation set,
    every [num_images] and every similarity measure. *)
Theorem empty_filtered_set_returns_none (model : autoencoder)
    (obs_dataset : list (ndarray Q)) (z : ndarray Q) (num_samples : nat)
    (pixel_ratio_range : Q * Q) (threshold : Q) (num_images : nat)
    (print_info : bool) :
  size (decoder model z) = num_samples * (IMG_SIDE * IMG_SIDE) ->
  (forall b, In b (candidates (smoothed_of model z num_samples) threshold) ->
     passes pixel_ratio_range b = false) ->
  generate_and_filter_images model obs_dataset z num_samples pixel_ratio_range
    threshold num_images print_info
  = ((if print_info
      then debug_output threshold num_samples 0
             (candidates (smoothed_of model z num_samples) threshold)
      else []) ++ [PrintNoImages],
     Ok None).
Proof.
  intros Hsize Hnone.
  unfold generate_and_filter_images, sample_and_filter, reshape.
  rewrite prod_batch. rewrite (proj2 (Nat.eqb_eq _ _) Hsize).
  rewrite io_bind_lift_Ok. fold (smoothed_of model z num_samples).
  destruct (smoothed_of_images model z num_samples Hsize) as [Hlen _].
  rewrite <- Hlen at 2. rewrite filter_loop_run, io_bind_Ok.
  rewrite ratio_filter_filter, (filter_none _ _ Hnone), Hlen.
  reflexivity.
Qed.

End EmptyFilteredSet.

(** Twenty all-zero decoded images: none reaches 5 percent. *)
Lemma empty_filtered_set_returns_none_witness :
  generate_and_filter_images (ext := reference_externals)
    (striped_model 20 0 0) one_observation (latent_batch 20) 20 (5, 14)%Q
    (1 # 2) 10 false
  = ([PrintNoImages], Ok None).
Proof.
  apply (empty_filtered_set_returns_none (ext := reference_externals)
           (striped_model 20 0 0) one_observation (latent_batch 20) 20
           (5, 14)%Q (1 # 2) 10 false).
  - apply Nat.eqb_eq. vm_compute. reflexivity.
  - intros b Hb. apply negb_true_iff. revert b Hb. apply forallb_forall.
    vm_compute. reflexivity.
Defined.

(** ** Phase A *)

Section PhaseAClaims.

Context {ext : Externals}.

(** C1.  Phase A visits the pairs (filtered image, observation image) in
    the order of its two nested loops.  Whatever the running best is when
    a pair is reached, after the pair it is replaced by that pair (its
    MSE, its SSIM, the generated image, the squeezed observation and the
    observation index) exactly when the pair's MSE is strictly lower than
    the lowest MSE and its SSIM strictly higher than the highest SSIM;
    otherwise it is unchanged.  In particular a pair with a lower MSE
    whose SSIM is not higher leaves the best as it was. *)
Theorem phase_a_update_rule (filtered : list (ndarray Z))
    (obs_dataset : list (ndarray Q)) (before after : list pair)
    (g : ndarray Z) (j : nat) (obs_j : ndarray Q) (best : best_match)
    (mse ssim_value : Q) :
  pairs filtered obs_dataset = before ++ (g, j, obs_j) :: after ->
  run_pairs before initial_best = Ok best ->
  pair_metrics (squeeze obs_j) g = Ok (mse, ssim_value) ->
  phase_a filtered obs_dataset
  = obind (run_pairs (before ++ [(g, j, obs_j)]) initial_best) (run_pairs after) /\
  exists best',
    run_pairs (before ++ [(g, j, obs_j)]) initial_best = Ok best' /\
    (improves best mse ssim_value ->
     best' = replaced_by g j obs_j mse ssim_value) /\
    (~ improves best mse ssim_value -> best' = best) /\
    (best' <> best <-> improves best mse ssim_value) /\
    (float_lt mse (lowest_mse best) -> (ssim_value <= highest_ssim best)%Q ->
     best' = best).
Proof.
  intros Hpairs Hbefore Hmetrics. split.
  - rewrite phase_a_pairs, Hpairs.
    change (before ++ (g, j, obs_j) :: after)
      with (before ++ [(g, j, obs_j)] ++ after).
    now rewrite app_assoc, run_pairs_app.
  - exists (update_best best g (squeeze obs_j) j mse ssim_value). split.
    { rewrite run_pairs_app, Hbefore. unfold run_pairs. cbn [obind for_each fst snd].
      now rewrite (compare_pair_metrics g j obs_j best mse ssim_value Hmetrics). }
    split; [apply update_best_improves|].
    split; [apply update_best_keeps|].
    split.
    + split.
      * intros Hne. destruct (lt_float mse (lowest_mse best)) eqn:E1.
        -- destruct (Qlt_bool (highest_ssim best) ssim_value) eqn:E2.
           ++ split; [now apply lt_float_iff | now apply Qlt_bool_iff].
           ++ exfalso. apply Hne. unfold update_best. now rewrite E1, E2.
        -- exfalso. apply Hne. unfold update_best. now rewrite E1.
      * intros Himp. rewrite update_best_improves by exact Himp.
        now apply improves_changes.
    + intros _ Hle. apply update_best_keeps. intros [_ Hlt].
      exact (Qlt_not_le _ _ Hlt Hle).
Qed.

(** C7.  Phase A starts from lowest MSE = +infinity, highest SSIM = -1 and
    no best references.  On a non-empty filtered set, when every computed
    SSIM is at most -1 the references are still unset after Phase A and
    the function then raises: the plot of the best image fails on [None],
    as the MSE of Phase B would.  Conversely, when some compared pair has
    an SSIM above -1, the references are set after Phase A. *)
Theorem phase_a_unset_best (filtered : list (ndarray Z))
    (obs_dataset : list (ndarray Q)) (num_images : nat) :
  initial_best = mk_best_match Infinity (-1)%Q None None None /\
  (filtered <> [] ->
   (forall g j obs_j mse ssim_value,
      In g filtered -> nth_error obs_dataset j = Some obs_j ->
      pair_metrics (squeeze obs_j) g = Ok (mse, ssim_value) ->
      (ssim_value <= -1)%Q) ->
   (forall best,
      phase_a filtered obs_dataset = Ok best ->
      best_generated_image best = None /\ best_obs_image best = None /\
      best_obs_index best = None /\
      plot_best (best_generated_image best) (best_obs_image best)
      = Raise TypeError /\
      (forall g, mse_to_best (best_generated_image best) g = Raise TypeError)) /\
   exists e, snd (match_and_rank filtered obs_dataset num_images) = Raise e) /\
  (forall best g j obs_j mse ssim_value,
     phase_a filtered obs_dataset = Ok best ->
     In g filtered -> nth_error obs_dataset j = Some obs_j ->
     pair_metrics (squeeze obs_j) g = Ok (mse, ssim_value) ->
     (-1 < ssim_value)%Q ->
     best_generated_image best <> None /\ best_obs_image best <> None /\
     best_obs_index best <> None).
Proof.
  split; [reflexivity|]. split.
  - intros Hne Hall.
    assert (forall best, phase_a filtered obs_dataset = Ok best ->
              best = initial_best) as Hinit.
    { intros best Hrun. rewrite phase_a_pairs in Hrun.
      apply (run_pairs_never_accepts (pairs filtered obs_dataset)); [|exact Hrun].
      intros g j o m s Hin. apply in_pairs in Hin. destruct Hin as [Hg Hj].
      now apply (Hall g j o m s). }
    split.
    + intros best Hrun. rewrite (Hinit best Hrun). repeat split; reflexivity.
    + unfold match_and_rank.
      destruct filtered as [|g0 filtered']; [now elim Hne|].
      cbn [length Nat.eqb]. unfold print, lift. rewrite io_bind_Ok. cbn [snd].
      destruct (phase_a (g0 :: filtered') obs_dataset) as [best|e] eqn:Ea.
      * rewrite (Hinit best eq_refl). exists TypeError. reflexivity.
      * exists e. reflexivity.
  - intros best g j o m s Hrun Hg Hj Hm Hs.
    assert (best_generated_image best <> None) as Hset.
    { rewrite phase_a_pairs in Hrun.
      assert (In (g, j, o) (pairs filtered obs_dataset)) as Hin
        by (apply in_pairs; auto).
      apply in_split in Hin. destruct Hin as (pre & post & Hsplit).
      rewrite Hsplit in Hrun.
      exact (run_pairs_accepts pre post g j o m s best Hm Hs Hrun). }
    apply phase_a_consistent in Hrun.
    destruct Hrun as [-> | (g1 & j1 & o1 & m1 & E & _)].
    + now elim Hset.
    + rewrite E. cbn. repeat split; discriminate.
Qed.

End PhaseAClaims.

(** The first pair is accepted; the second has a lower MSE (1/4 against
    2/4) and a lower similarity (1/4 against 1) and is not. *)
Lemma phase_a_update_rule_witness :
  run_pairs (ext := externals_with density_similarity)
    [(tiny 1 1 1 1, 0, tiny_obs); (tiny 1 0 0 0, 0, tiny_obs)] initial_best
  = Ok (replaced_by (tiny 1 1 1 1) 0 tiny_obs (2 # 4) (4 # 4)) /\
  phase_a (ext := externals_with density_similarity)
    [tiny 1 1 1 1; tiny 1 0 0 0] [tiny_obs]
  = Ok (replaced_by (tiny 1 1 1 1) 0 tiny_obs (2 # 4) (4 # 4)).
Proof.
  destruct (phase_a_update_rule (ext := externals_with density_similarity)
              [tiny 1 1 1 1; tiny 1 0 0 0] [tiny_obs]
              [(tiny 1 1 1 1, 0, tiny_obs)] [] (tiny 1 0 0 0) 0 tiny_obs
              (replaced_by (tiny 1 1 1 1) 0 tiny_obs (2 # 4) (4 # 4))
              (1 # 4) (1 # 4) eq_refl eq_refl eq_refl)
    as (Hphase & best' & Hrun & _ & _ & _ & Hkeep).
  assert (best' = replaced_by (tiny 1 1 1 1) 0 tiny_obs (2 # 4) (4 # 4)) as ->.
  { apply Hkeep; [reflexivity | discriminate]. }
  split.
  - exact Hrun.
  - rewrite Hphase, Hrun. reflexivity.
Defined.

(** With a similarity stuck at -1 nothing is accepted and the function
    raises; with the reference similarity a best pair is recorded. *)
Lemma phase_a_unset_best_witness :
  phase_a (ext := externals_with (constant_similarity (-1)))
    [tiny 1 1 1 1; tiny 1 0 0 0] [tiny_obs] = Ok initial_best /\
  (exists e,
     snd (match_and_rank (ext := externals_with (constant_similarity (-1)))
            [tiny 1 1 1 1; tiny 1 0 0 0] [tiny_obs] 11) = Raise e) /\
  (forall best,
     phase_a (ext := reference_externals)
       [tiny 1 1 1 1; tiny 1 0 0 0] [tiny_obs] = Ok best ->
     best_generated_image best <> None).
Proof.
  destruct (phase_a_unset_best (ext := externals_with (constant_similarity (-1)))
              [tiny 1 1 1 1; tiny 1 0 0 0] [tiny_obs] 11) as (_ & Hunset & _).
  destruct (phase_a_unset_best (ext := reference_externals)
              [tiny 1 1 1 1; tiny 1 0 0 0] [tiny_obs] 11) as (_ & _ & Hset).
  split; [reflexivity|]. split.
  - apply Hunset; [discriminate|].
    intros g j obs_j mse ssim_value _ _ Hm.
    unfold pair_metrics in Hm. cbn [ssim externals_with constant_similarity] in Hm.
    destruct (mean_squared_error (squeeze obs_j) (as_float g)); [|discriminate].
    destruct (amax g); [|discriminate]. destruct (amin g); [|discriminate].
    cbn in Hm. injection Hm as _ <-. discriminate.
  - intros best Hbest.
    apply (Hset best (tiny 1 0 0 0) 0 tiny_obs (1 # 4) (1 # 2) Hbest).
    + right. left. reflexivity.
    + reflexivity.
    + reflexivity.
    + reflexivity.
Defined.

(** ** The returned tuple *)

Section ReturnedTuple.

Context {ext : Externals}.

Lemma plot_best_Ok (g : option (ndarray Z)) (o : option (ndarray Q)) :
  plot_best g o = Ok tt -> g <> None /\ o <> None.
Proof.
  unfold plot_best. cbn. destruct g as [g|]; [|discriminate].
  destruct o as [o|]; [intros _; split; discriminate|].
  destruct (imshow (Some g)); discriminate.
Qed.

(** The fields of a returned tuple describe one accepted pair. *)
Lemma match_and_rank_consistent (filtered : list (ndarray Z))
    (obs_dataset : list (ndarray Q)) (num_images : nat) (out : list event)
    (r : result) :
  match_and_rank filtered obs_dataset num_images = (out, Ok (Some r)) ->
  r_filtered_generated_images r = filtered /\
  exists g j obs_j mse,
    r_best_generated_image r = Some g /\
    r_best_obs_image r = Some (squeeze obs_j) /\
    r_best_obs_index r = Some j /\
    r_lowest_mse r = Finite mse /\
    nth_error obs_dataset j = Some obs_j /\
    mean_squared_error (squeeze obs_j) (as_float g) = Ok mse /\
    In g filtered.
Proof.
  intros H. apply match_and_rank_Ok in H.
  destruct H as (_ & _ & best & ti & tm & Ha & Hp & _ & _ & ->).
  split; [reflexivity|]. cbn.
  apply plot_best_Ok in Hp. destruct Hp as [Hg _].
  apply phase_a_consistent in Ha.
  destruct Ha as [-> | (g & j & o & m & E & Hin & Hj & Hm & _)].
  - now elim Hg.
  - exists g, j, o, m. rewrite E. cbn.
    repeat split; try assumption; try reflexivity.
    eapply pair_metrics_mse. exact Hm.
Qed.

(** C9.  In a returned tuple the best observation image is the squeezed
    observation at the best observation index, the lowest MSE is the MSE
    between that observation image and the best generated image, and the
    best generated image is one of the returned filtered images. *)
Theorem returned_match_consistent (model : autoencoder)
    (obs_dataset : list (ndarray Q)) (z : ndarray Q) (num_samples : nat)
    (pixel_ratio_range : Q * Q) (threshold : Q) (num_images : nat)
    (print_info : bool) (out : list event) (r : result) :
  generate_and_filter_images model obs_dataset z num_samples pixel_ratio_range
    threshold num_images print_info = (out, Ok (Some r)) ->
  exists g o j mse,
    r_best_generated_image r = Some g /\
    r_best_obs_image r = Some o /\
    r_best_obs_index r = Some j /\
    r_lowest_mse r = Finite mse /\
    (exists obs_j, nth_error obs_dataset j = Some obs_j /\ o = squeeze obs_j) /\
    mean_squared_error o (as_float g) = Ok mse /\
    In g (r_filtered_generated_images r).
Proof.
  intros H. apply generate_and_filter_images_Ok in H.
  destruct H as (out1 & filtered & out2 & _ & Hm & _).
  apply match_and_rank_consistent in Hm.
  destruct Hm as (Hf & g & j & obs_j & mse & Hg & Ho & Hj & Hl & Hn & Hmse & Hin).
  exists g, (squeeze obs_j), j, mse. rewrite Hf.
  repeat split; try assumption. now exists obs_j.
Qed.

(** Images fetched at given indices come with the MSEs fetched at the same
    indices. *)
Lemma fetched_pairs (best : option (ndarray Z)) (filtered : list (ndarray Z))
    (mse_list : list Q) (idx : list nat) (imgs : list (ndarray Z)) (mses : list Q) :
  Forall2 (fun g m => mse_to_best best g = Ok m) filtered mse_list ->
  Forall2 (fun i img => nth_error filtered i = Some img) idx imgs ->
  Forall2 (fun i m => nth_error mse_list i = Some m) idx mses ->
  Forall2 (fun img m => mse_to_best best img = Ok m) imgs mses.
Proof.
  intros Hall Himgs. revert mses.
  induction Himgs as [|i img idx imgs Hi _ IH]; intros mses Hmses.
  - inversion Hmses. constructor.
  - inversion Hmses as [|? m ? mses' Hm Htl]; subst. constructor.
    + exact (Forall2_nth_error _ _ _ i img m Hall Hi Hm).
    + now apply IH.
Qed.

(** Phase B on its own: whenever it ends normally, whatever the later
    plot does, its two lists are the ranking described in C3. *)
Lemma phase_b_ranked (best : option (ndarray Z)) (filtered : list (ndarray Z))
    (num_images : nat) (top_images : list (ndarray Z)) (top_mses : list Q) :
  phase_b best filtered num_images = Ok (top_images, top_mses) ->
  (exists mse_list order,
     Forall2 (fun g m => mse_to_best best g = Ok m) filtered mse_list /\
     Permutation order (seq 0 (length filtered)) /\
     Sorted Qle (map (fun i => nth i mse_list 0%Q) order) /\
     Forall2 (fun i img => nth_error filtered i = Some img)
             (firstn num_images order) top_images /\
     top_mses = map (fun i => nth i mse_list 0%Q) (firstn num_images order)) /\
  Forall2 (fun img m => mse_to_best best img = Ok m) top_images top_mses /\
  Sorted Qle top_mses /\
  length top_images = Nat.min num_images (length filtered) /\
  length top_mses = Nat.min num_images (length filtered).
Proof.
  intros Hb.
  apply phase_b_Ok in Hb. destruct Hb as (mse_list & Hall & Hti & Htm).
  pose proof (Forall2_length Hall) as Hlen.
  pose proof (Forall2_map_nth 0%Q mse_list _ top_mses Htm) as Etm.
  split; [|split; [|split; [|split]]].
  - exists mse_list, (argsort mse_list). repeat split; try assumption.
    + rewrite Hlen. apply argsort_perm.
    + apply argsort_sorted.
  - exact (fetched_pairs _ _ _ _ _ _ Hall Hti Htm).
  - rewrite Etm. apply top_mses_sorted.
  - rewrite <- (Forall2_length Hti), top_indices_length. now rewrite Hlen.
  - rewrite <- (Forall2_length Htm), top_indices_length. now rewrite Hlen.
Qed.

Lemma map_o_total {A B : Type} (f : A -> outcome B) (l : list A) :
  Forall (fun x => exists y, f x = Ok y) l -> exists ys, map_o f l = Ok ys.
Proof.
  induction 1 as [|x l [y Hy] _ [ys Hys]]; cbn [map_o].
  - now exists [].
  - rewrite Hy, Hys. now exists (y :: ys).
Qed.

Lemma image_side_positive : 1 <= IMG_SIDE.
Proof.
  apply Nat.leb_le. vm_compute. reflexivity.
Qed.

(** Two images as the reshape produces them have an MSE. *)
Lemma mse_of_images (g img : ndarray Z) :
  is_image g -> is_image img ->
  exists m, mean_squared_error (as_float g) (as_float img) = Ok m.
Proof.
  intros [Hg _] [Hi _]. unfold mean_squared_error. cbn [as_float shape].
  rewrite Hg, Hi. cbn [as_2d]. rewrite Nat.eqb_refl.
  rewrite (proj2 (Nat.leb_le _ _) image_side_positive). cbn [andb].
  eexists. reflexivity.
Qed.

(** Phase B ends normally as soon as every MSE to the best image exists:
    the indices it reads are those of [argsort], which are in range. *)
Lemma phase_b_returns (best : option (ndarray Z)) (filtered : list (ndarray Z))
    (num_images : nat) :
  Forall (fun img => exists m, mse_to_best best img = Ok m) filtered ->
  exists top_images top_mses,
    phase_b best filtered num_images = Ok (top_images, top_mses).
Proof.
  intros Hall. unfold phase_b. rewrite for_each_collect.
  destruct (map_o_total _ _ Hall) as [mse_list Hmse]. rewrite Hmse.
  cbn [obind app].
  pose proof (Forall2_length (proj1 (map_o_Ok _ _ _) Hmse)) as Hlen.
  assert (Forall (fun i => i < length mse_list)
            (firstn num_images (argsort mse_list))) as Hidx.
  { apply Forall_forall. intros i Hi.
    assert (In i (argsort mse_list)) as Hi'.
    { rewrite <- (firstn_skipn num_images (argsort mse_list)).
      apply in_or_app. now left. }
    clear Hi. rename Hi' into Hi.
    apply (Permutation_in _ (argsort_perm mse_list)) in Hi.
    apply in_seq in Hi. lia. }
  destruct (map_o_total (getitem filtered) (firstn num_images (argsort mse_list)))
    as [top_images Himages].
  { eapply Forall_impl; [|exact Hidx]. intros i Hi. unfold getitem.
    destruct (nth_error filtered i) as [img|] eqn:E; [now exists img|].
    apply nth_error_None in E. cbv beta in Hi. lia. }
  destruct (map_o_total (getitem mse_list) (firstn num_images (argsort mse_list)))
    as [top_mses Hmses].
  { eapply Forall_impl; [|exact Hidx]. intros i Hi. unfold getitem.
    destruct (nth_error mse_list i) as [m|] eqn:E; [now exists m|].
    apply nth_error_None in E. cbv beta in Hi. lia. }
  rewrite Himages, Hmses. cbn [obind]. now exists top_images, top_mses.
Qed.

(** The plot of the best pair accepts two 256x256 arrays. *)
Lemma plot_best_images (g : ndarray Z) (o : ndarray Q) :
  shape g = [IMG_SIDE; IMG_SIDE] -> shape o = [IMG_SIDE; IMG_SIDE] ->
  plot_best (Some g) (Some o) = Ok tt.
Proof.
  intros Hg Ho. unfold plot_best, imshow. rewrite Hg, Ho. reflexivity.
Qed.

(** The observation of an accepted pair squeezes to the shape of the
    generated image it was compared with. *)
Lemma compared_observation_shape (o : ndarray Q) (g : ndarray Z) (mse ssim_value : Q) :
  is_image g -> pair_metrics o g = Ok (mse, ssim_value) ->
  shape o = [IMG_SIDE; IMG_SIDE].
Proof.
  intros [Hg _] Hm. apply pair_metrics_mse, mean_squared_error_Ok in Hm.
  destruct Hm as (n & k & Hobs & Hgen & _ & _ & _).
  cbn [as_float shape] in Hgen. rewrite Hg in Hgen. cbn [as_2d] in Hgen.
  injection Hgen as <- <-.
  destruct (shape o) as [|a [|b [|c l]]]; cbn [as_2d] in Hobs; try discriminate.
  now injection Hobs as -> ->.
Qed.

(** C3.  In every run of the function that reaches Phase B (the reshape
    succeeded and Phase A recorded a best image), whatever [num_images]
    is, its default 10 included, Phase B ends normally: the MSE to the
    Phase-A best image is computed for every filtered image, the best
    image being one of them; [top_images] and [top_mses] are the images
    and MSEs found at the first [num_images] positions of an ordering of
    the filtered set that is ascending in that MSE, so [top_mses] is
    sorted ascending, each of its entries is the MSE of the image at the
    same position, and both lists have length
    [min(num_images, number of filtered images)].  The run then ends with
    the plot of the ranking followed by the tuple that holds the two
    lists, so the lists of a returned tuple are these.  The default of
    [num_images] is 10. *)
Theorem ranked_top_sorted (model : autoencoder)
    (obs_dataset : list (ndarray Q)) (z : ndarray Q) (num_samples : nat)
    (pixel_ratio_range : Q * Q) (threshold : Q) (num_images : nat)
    (print_info : bool) (out : list event) (filtered : list (ndarray Z))
    (best : best_match) (g : ndarray Z) :
  sample_and_filter model z num_samples pixel_ratio_range threshold print_info
  = (out, Ok filtered) ->
  phase_a filtered obs_dataset = Ok best ->
  best_generated_image best = Some g ->
  exists mse_list order top_images top_mses,
    phase_b (Some g) filtered num_images = Ok (top_images, top_mses) /\
    Forall2 (fun img m => mean_squared_error (as_float g) (as_float img) = Ok m)
            filtered mse_list /\
    In g filtered /\
    Permutation order (seq 0 (length filtered)) /\
    Sorted Qle (map (fun i => nth i mse_list 0%Q) order) /\
    Forall2 (fun i img => nth_error filtered i = Some img)
            (firstn num_images order) top_images /\
    top_mses = map (fun i => nth i mse_list 0%Q) (firstn num_images order) /\
    Forall2 (fun img m => mean_squared_error (as_float g) (as_float img) = Ok m)
            top_images top_mses /\
    Sorted Qle top_mses /\
    length top_images = Nat.min num_images (length filtered) /\
    length top_mses = Nat.min num_images (length filtered) /\
    generate_and_filter_images model obs_dataset z num_samples pixel_ratio_range
      threshold num_images print_info
    = (out ++ [PrintTotalValid (length filtered)],
       obind (plot_top num_images top_images top_mses)
         (fun _ => Ok (Some (mk_result filtered (Some g) (best_obs_image best)
                               (best_obs_index best) (lowest_mse best)
                               top_images top_mses)))) /\
    (forall out' r,
       generate_and_filter_images model obs_dataset z num_samples
         pixel_ratio_range threshold num_images print_info = (out', Ok (Some r)) ->
       r_filtered_generated_images r = filtered /\
       r_best_generated_image r = Some g /\
       r_top_images r = top_images /\ r_top_mses r = top_mses) /\
    default_num_images = 10.
Proof.
  intros Hs Ha Hg.
  pose proof (sample_and_filter_images _ _ _ _ _ _ _ _ Hs) as Himg.
  destruct (phase_a_consistent _ _ _ Ha) as [Hinit|(g' & j & obs_j & mse & Hbest & Hin & Hj & Hm & _)].
  { rewrite Hinit in Hg. discriminate. }
  assert (g' = g) as ->.
  { rewrite Hbest in Hg. cbn in Hg. now injection Hg. }
  assert (is_image g) as Hgi by (rewrite Forall_forall in Himg; now apply Himg).
  assert (best_obs_image best = Some (squeeze obs_j)) as Hobs
    by (rewrite Hbest; reflexivity).
  pose proof (compared_observation_shape _ _ _ _ Hgi Hm) as Hoshape.
  destruct (phase_b_returns (Some g) filtered num_images)
    as (top_images & top_mses & Hb).
  { eapply Forall_impl; [|exact Himg]. intros img Hi. now apply mse_of_images. }
  destruct (phase_b_ranked _ _ _ _ _ Hb)
    as ((mse_list & order & H1 & H2 & H3 & H4 & H5) & H6 & H7 & H8 & H9).
  assert (generate_and_filter_images model obs_dataset z num_samples
            pixel_ratio_range threshold num_images print_info
          = (out ++ [PrintTotalValid (length filtered)],
             obind (plot_top num_images top_images top_mses)
               (fun _ => Ok (Some (mk_result filtered (Some g) (best_obs_image best)
                                     (best_obs_index best) (lowest_mse best)
                                     top_images top_mses))))) as Hrun.
  { unfold generate_and_filter_images. rewrite Hs, io_bind_Ok.
    unfold match_and_rank.
    destruct filtered as [|g0 filtered']; [destruct Hin|].
    cbn [length Nat.eqb]. unfold print. rewrite io_bind_Ok. cbn [fst snd].
    rewrite Ha, io_bind_lift_Ok, Hg, Hobs.
    rewrite (plot_best_images g (squeeze obs_j) (proj1 Hgi) Hoshape).
    rewrite io_bind_lift_Ok, Hb, io_bind_lift_Ok. cbn [fst snd].
    unfold lift, io_bind, io_ret.
    destruct (plot_top num_images top_images top_mses); reflexivity. }
  exists mse_list, order, top_images, top_mses.
  split; [exact Hb|]. split; [exact H1|]. split; [exact Hin|].
  split; [exact H2|]. split; [exact H3|]. split; [exact H4|].
  split; [exact H5|]. split; [exact H6|]. split; [exact H7|].
  split; [exact H8|]. split; [exact H9|]. split; [exact Hrun|].
  split; [|reflexivity].
  intros out' r Hr. rewrite Hrun in Hr.
  destruct (plot_top num_images top_images top_mses); [|discriminate].
  cbn [obind] in Hr. injection Hr as _ <-. cbn. auto.
Qed.

Lemma Sorted_head_le (l : list Q) (x y : Q) :
  Sorted Qle (x :: l) -> In y (x :: l) -> (x <= y)%Q.
Proof.
  intros Hs Hin. apply Sorted_StronglySorted in Hs.
  - inversion Hs as [|? ? _ Hall]; subst. destruct Hin as [<-|Hin].
    + apply Qle_refl.
    + rewrite Forall_forall in Hall. now apply Hall.
  - intros a b c. apply Qle_trans.
Qed.

(** C10.  In a returned tuple with [num_images >= 1], the first ranked
    image is the Phase-A best generated image and the first ranked MSE is
    zero. *)
Theorem best_image_ranked_first (model : autoencoder)
    (obs_dataset : list (ndarray Q)) (z : ndarray Q) (num_samples : nat)
    (pixel_ratio_range : Q * Q) (threshold : Q) (num_images : nat)
    (print_info : bool) (out : list event) (r : result) :
  generate_and_filter_images model obs_dataset z num_samples pixel_ratio_range
    threshold num_images print_info = (out, Ok (Some r)) ->
  1 <= num_images ->
  exists g mse,
    r_best_generated_image r = Some g /\
    nth_error (r_top_images r) 0 = Some g /\
    nth_error (r_top_mses r) 0 = Some mse /\
    (mse == 0)%Q.
Proof.
  intros H Hk. apply generate_and_filter_images_Ok in H.
  destruct H as (out1 & filtered & out2 & Hs & Hm & _).
  pose proof (sample_and_filter_images _ _ _ _ _ _ _ _ Hs) as Himg.
  rewrite Forall_forall in Himg. clear Hs.
  destruct (match_and_rank_consistent _ _ _ _ _ Hm)
    as (_ & g & _ & _ & _ & Hg & _ & _ & _ & _ & _ & Hin).
  apply match_and_rank_Ok in Hm.
  destruct Hm as (_ & _ & best & ti & tm & _ & _ & Hb & _ & ->).
  cbn [r_best_generated_image r_top_images r_top_mses] in Hg |- *.
  rewrite Hg in Hb. apply phase_b_Ok in Hb.
  destruct Hb as (mse_list & Hall & Hti & Htm).
  (* the best image sits at some position [p] of the filtered set *)
  apply In_nth_error in Hin. destruct Hin as [p Hp].
  assert (p < length mse_list) as Hplen.
  { rewrite <- (Forall2_length Hall). apply nth_error_Some. congruence. }
  destruct (nth_error mse_list p) as [mp|] eqn:Emp;
    [|apply nth_error_None in Emp; lia].
  pose proof (Forall2_nth_error _ _ _ p g mp Hall Hp Emp) as Hself. cbn in Hself.
  pose proof (mean_squared_error_self _ _ Hself) as Hmp.
  (* the sorted order starts at some index [i0] *)
  pose proof (argsort_perm mse_list) as Hperm.
  pose proof (argsort_sorted mse_list) as Hsorted.
  destruct (argsort mse_list) as [|i0 rest] eqn:Eorder.
  { apply Permutation_length in Hperm. rewrite length_seq in Hperm.
    cbn in Hperm. lia. }
  destruct num_images as [|k]; [lia|]. cbn [firstn] in Hti, Htm.
  inversion Hti as [|? img0 ? ti' Hi0 _]; subst.
  inversion Htm as [|? m0 ? tm' Hm0 _]; subst.
  (* its MSE is at most that of the best image, which is zero *)
  assert (In p (i0 :: rest)) as Hpin.
  { apply (Permutation_in p (Permutation_sym Hperm)), in_seq. lia. }
  assert (m0 <= mp)%Q as Hle.
  { cbn [map] in Hsorted.
    rewrite (nth_error_nth _ _ 0%Q Hm0) in Hsorted.
    rewrite <- (nth_error_nth _ _ 0%Q Emp).
    apply (Sorted_head_le _ _ _ Hsorted).
    destruct Hpin as [->|Hpin].
    - left. now rewrite (nth_error_nth _ _ 0%Q Hm0).
    - right. apply in_map_iff. now exists p. }
  pose proof (Forall2_nth_error _ _ _ i0 img0 m0 Hall Hi0 Hm0) as H0. cbn in H0.
  assert (m0 == 0)%Q as Hzero.
  { apply Qle_antisym.
    - now rewrite <- Hmp.
    - eapply mean_squared_error_nonneg. exact H0. }
  exists g, m0.
  split; [exact Hg|]. split; [|split; [reflexivity | exact Hzero]].
  cbn [nth_error]. f_equal. symmetry.
  destruct (Himg g (nth_error_In _ _ Hp)) as [Hsg Hng].
  destruct (Himg img0 (nth_error_In _ _ Hi0)) as [Hs0 Hn0].
  apply (mean_squared_error_zero_eq g img0 m0); congruence.
Qed.

(** Every iteration of a loop that ends normally ended normally. *)
Lemma for_range_iterations {S : Type} (body : nat -> S -> outcome S) (n a : nat)
    (s s' : S) (i : nat) :
  for_range a n body s = Ok s' -> a <= i < a + n ->
  exists s1 s2, body i s1 = Ok s2.
Proof.
  revert a s. induction n as [|n IH]; intros a s Hrun Hi; [lia|].
  cbn [for_range] in Hrun.
  destruct (body a s) as [s1|e] eqn:E; cbn [obind] in Hrun; [|discriminate].
  destruct (Nat.eq_dec i a) as [->|Hne].
  - now exists s, s1.
  - apply (IH (Datatypes.S a) s1 Hrun). lia.
Qed.

(** The ranked plot only succeeds on a grid of at least two rows that is
    filled with ranked images. *)
Lemma plot_top_Ok (num_images : nat) (top_images : list (ndarray Z))
    (top_mses : list Q) :
  plot_top num_images top_images top_mses = Ok tt ->
  11 <= num_images /\ Nat.min num_images 100 <= length top_images.
Proof.
  unfold plot_top.
  set (n := Nat.min num_images 100). set (rows := (n + 9) / 10).
  intros H.
  destruct (subplots rows 10) as [ax|] eqn:Eax; cbn [obind] in H; [|discriminate].
  destruct (for_range 0 n _ tt) as [[]|] eqn:Eloop; cbn [obind] in H; [|discriminate].
  clear H.
  assert (n = 0 \/ 1 <= n) as [Hz|Hpos] by lia.
  { (* no image to plot: zero rows *)
    exfalso. assert (rows = 0) as Hr by (unfold rows; rewrite Hz; reflexivity).
    rewrite Hr in Eax. discriminate. }
  (* the first iteration indexes the grid with two indices *)
  destruct (for_range_iterations _ n 0 tt tt 0 Eloop) as ([] & [] & H0); [lia|].
  assert (exists r c, ax = Axes2D r c) as (r & c & ->).
  { destruct ax as [|k|r c]; try discriminate. now exists r, c. }
  assert (2 <= rows) as Hrows.
  { unfold subplots in Eax.
    destruct (rows =? 0) eqn:E0; [discriminate|].
    destruct (rows =? 1) eqn:E1; [discriminate|].
    apply Nat.eqb_neq in E0, E1. lia. }
  assert (11 <= n) as Hn.
  { unfold rows in Hrows.
    destruct (Nat.le_gt_cases 11 n) as [|Hlt]; [assumption|].
    assert ((n + 9) / 10 < 2); [|lia].
    apply Nat.Div0.div_lt_upper_bound. lia. }
  split; [unfold n in Hn; lia|].
  (* every plotted position holds an image *)
  destruct (Nat.le_gt_cases n (length top_images)) as [|Hshort]; [assumption|].
  exfalso.
  destruct (for_range_iterations _ n 0 tt tt (length top_images) Eloop)
    as ([] & [] & Hi); [lia|].
  clear H0.
  destruct (axes_getitem2 (Axes2D r c) (length top_images / 10)
              (length top_images mod 10)); cbn [obind] in Hi; [|discriminate].
  unfold getitem in Hi.
  rewrite (proj2 (nth_error_None top_images (length top_images)) (Nat.le_refl _))
    in Hi.
  discriminate.
Qed.

(** X1.  The function returns its tuple only when at least eleven ranked
    images are asked for and at least [min(num_images, 100)] images passed
    the ratio filter: the ranked plot addresses its axes with two indices,
    which a single row of subplots does not accept, and reads
    [top_images[i]] for every plotted position. *)
Theorem returned_tuple_needs_full_grid (model : autoencoder)
    (obs_dataset : list (ndarray Q)) (z : ndarray Q) (num_samples : nat)
    (pixel_ratio_range : Q * Q) (threshold : Q) (num_images : nat)
    (print_info : bool) (out : list event) (r : result) :
  generate_and_filter_images model obs_dataset z num_samples pixel_ratio_range
    threshold num_images print_info = (out, Ok (Some r)) ->
  11 <= num_images /\
  Nat.min num_images 100 <= length (r_filtered_generated_images r).
Proof.
  intros H. apply generate_and_filter_images_Ok in H.
  destruct H as (out1 & filtered & out2 & _ & Hm & _).
  apply match_and_rank_Ok in Hm.
  destruct Hm as (_ & _ & best & ti & tm & _ & _ & Hb & Hp & ->).
  cbn [r_filtered_generated_images].
  apply plot_top_Ok in Hp. destruct Hp as [Hk Hlen]. split; [exact Hk|].
  apply phase_b_Ok in Hb. destruct Hb as (mse_list & Hall & Hti & _).
  pose proof (Forall2_length Hti) as Eti. rewrite top_indices_length in Eti.
  pose proof (Forall2_length Hall) as Eall. lia.
Qed.

(** X2.  Called with its default [num_images = 10] the function never
    returns its tuple: it returns [None] or raises. *)
Theorem default_call_returns_no_tuple (model : autoencoder)
    (obs_dataset : list (ndarray Q)) (z : ndarray Q) :
  snd (generate_and_filter_images_default model obs_dataset z) = Ok None \/
  exists e, snd (generate_and_filter_images_default model obs_dataset z) = Raise e.
Proof.
  unfold generate_and_filter_images_default.
  destruct (generate_and_filter_images model obs_dataset z default_num_samples
              default_pixel_ratio_range default_threshold default_num_images
              default_print_info) as [out [[r|]|e]] eqn:Erun; cbn [snd].
  - apply generate_and_filter_images_Ok in Erun.
    destruct Erun as (out1 & filtered & out2 & _ & Hm & _).
    apply match_and_rank_Ok in Hm.
    destruct Hm as (_ & _ & best & ti & tm & _ & _ & _ & Hp & _).
    apply plot_top_Ok in Hp. destruct Hp as [Hk _].
    unfold default_num_images in Hk. lia.
  - now left.
  - right. now exists e.
Qed.

End ReturnedTuple.

Lemma returned_match_consistent_witness :
  exists g o j mse,
    r_best_generated_image (tuple_of full_run) = Some g /\
    r_best_obs_image (tuple_of full_run) = Some o /\
    r_best_obs_index (tuple_of full_run) = Some j /\
    r_lowest_mse (tuple_of full_run) = Finite mse /\
    (exists obs_j, nth_error one_observation j = Some obs_j /\ o = squeeze obs_j) /\
    mean_squared_error o (as_float g) = Ok mse /\
    In g (r_filtered_generated_images (tuple_of full_run)).
Proof.
  exact (returned_match_consistent (ext := reference_externals)
           (striped_model 11 4000 100) one_observation (latent_batch 11) 11
           (5, 14)%Q (1 # 2) 11 false (fst full_run) (tuple_of full_run)
           (returned_eq full_run full_run_returns)).
Defined.

(** Three kept images ranked with the default [num_images = 10]: fewer
    images than asked for. *)
Lemma ranked_top_sorted_witness :
  exists top_images top_mses,
    phase_b (ext := reference_externals)
      (Some (image_of (best_of three_images_match)))
      (produced three_images_run) default_num_images
    = Ok (top_images, top_mses) /\
    Sorted Qle top_mses /\
    length top_images = Nat.min default_num_images 3 /\
    length top_mses = Nat.min default_num_images 3.
Proof.
  pose proof three_images_run_keeps as Hlen.
  assert ((0 <? length (produced three_images_run)) = true) as Hpos
    by (rewrite Hlen; reflexivity).
  destruct (produced_eq three_images_run Hpos) as [Hrun _].
  destruct (found_eq three_images_match three_images_match_found) as [Ha Hg].
  destruct (ranked_top_sorted (ext := reference_externals)
              (striped_model 3 4000 100) one_observation (latent_batch 3) 3
              (5, 14)%Q (1 # 2) default_num_images false
              (fst three_images_run) (produced three_images_run)
              (best_of three_images_match)
              (image_of (best_of three_images_match)) Hrun Ha Hg)
    as (mse_list & order & top_images & top_mses & Hb & _ & _ & _ & _ & _ & _
        & _ & Hsorted & Himages & Hmses & _).
  exists top_images, top_mses. rewrite Hlen in Himages, Hmses.
  split; [exact Hb|]. split; [exact Hsorted|].
  split; [exact Himages | exact Hmses].
Defined.

Lemma best_image_ranked_first_witness :
  exists g mse,
    r_best_generated_image (tuple_of full_run) = Some g /\
    nth_error (r_top_images (tuple_of full_run)) 0 = Some g /\
    nth_error (r_top_mses (tuple_of full_run)) 0 = Some mse /\
    (mse == 0)%Q.
Proof.
  apply (best_image_ranked_first (ext := reference_externals)
           (striped_model 11 4000 100) one_observation (latent_batch 11) 11
           (5, 14)%Q (1 # 2) 11 false (fst full_run) (tuple_of full_run)
           (returned_eq full_run full_run_returns)).
  lia.
Defined.

Lemma returned_tuple_needs_full_grid_witness :
  11 <= 11 /\
  Nat.min 11 100 <= length (r_filtered_generated_images (tuple_of full_run)).
Proof.
  exact (returned_tuple_needs_full_grid (ext := reference_externals)
           (striped_model 11 4000 100) one_observation (latent_batch 11) 11
           (5, 14)%Q (1 # 2) 11 false (fst full_run) (tuple_of full_run)
           (returned_eq full_run full_run_returns)).
Defined.

(* ================================================================== *)
(** * Further properties of [generate_and_filter_images] *)

(** ** The size of the decoder output and [print_info] *)

Section PipelineRuns.

Context {ext : Externals}.

(** A decoder output of the wrong size stops the run at the reshape. *)
Lemma generate_reshape_fails (model : autoencoder) (obs_dataset : list (ndarray Q))
    (z : ndarray Q) (num_samples : nat) (range : Q * Q) (threshold : Q)
    (num_images : nat) (print_info : bool) :
  size (decoder model z) <> num_samples * (IMG_SIDE * IMG_SIDE) ->
  generate_and_filter_images model obs_dataset z num_samples range threshold
    num_images print_info = ([], Raise ValueError).
Proof.
  intros Hsize.
  unfold generate_and_filter_images, sample_and_filter, reshape.
  rewrite prod_batch. rewrite (proj2 (Nat.eqb_neq _ _) Hsize). reflexivity.
Qed.

(** With a decoder output of the right size the run is the matcher applied
    to the filtered set, after the diagnostics. *)
Lemma generate_after_reshape (model : autoencoder) (obs_dataset : list (ndarray Q))
    (z : ndarray Q) (num_samples : nat) (range : Q * Q) (threshold : Q)
    (num_images : nat) (print_info : bool) :
  size (decoder model z) = num_samples * (IMG_SIDE * IMG_SIDE) ->
  generate_and_filter_images model obs_dataset z num_samples range threshold
    num_images print_info
  = (diagnostics_of model z num_samples threshold print_info
     ++ fst (match_and_rank (filtered_of model z num_samples range threshold)
               obs_dataset num_images),
     snd (match_and_rank (filtered_of model z num_samples range threshold)
            obs_dataset num_images)).
Proof.
  intros Hsize.
  unfold generate_and_filter_images, sample_and_filter, reshape.
  rewrite prod_batch. rewrite (proj2 (Nat.eqb_eq _ _) Hsize).
  rewrite io_bind_lift_Ok. fold (smoothed_of model z num_samples).
  destruct (smoothed_of_images model z num_samples Hsize) as [Hlen _].
  rewrite <- Hlen at 2. rewrite filter_loop_run, io_bind_Ok.
  rewrite ratio_filter_filter, Hlen. reflexivity.
Qed.

(** X3.  [print_info] only adds diagnostics in front of the output: the
    value the function returns, or the exception it raises, is the same
    with and without it. *)
Theorem print_info_keeps_result (model : autoencoder)
    (obs_dataset : list (ndarray Q)) (z : ndarray Q) (num_samples : nat)
    (pixel_ratio_range : Q * Q) (threshold : Q) (num_images : nat) :
  snd (generate_and_filter_images model obs_dataset z num_samples
         pixel_ratio_range threshold num_images true)
  = snd (generate_and_filter_images model obs_dataset z num_samples
           pixel_ratio_range threshold num_images false) /\
  exists diagnostics,
    fst (generate_and_filter_images model obs_dataset z num_samples
           pixel_ratio_range threshold num_images true)
    = diagnostics
      ++ fst (generate_and_filter_images model obs_dataset z num_samples
                pixel_ratio_range threshold num_images false).
Proof.
  destruct (Nat.eq_dec (size (decoder model z))
              (num_samples * (IMG_SIDE * IMG_SIDE))) as [Hsize|Hsize].
  - rewrite !(generate_after_reshape _ _ _ _ _ _ _ _ Hsize). cbn [fst snd].
    split; [reflexivity|].
    exists (diagnostics_of model z num_samples threshold true). reflexivity.
  - rewrite !(generate_reshape_fails _ _ _ _ _ _ _ _ Hsize).
    split; [reflexivity|]. exists []. reflexivity.
Qed.

(** X4.  The function raises [ValueError] without having printed anything
    exactly when the decoder did not deliver [num_samples * 256 * 256]
    values: the reshape of line 83 then fails, and every run that gets past
    it prints at least one line. *)
Theorem wrong_size_raises_value_error (model : autoencoder)
    (obs_dataset : list (ndarray Q)) (z : ndarray Q) (num_samples : nat)
    (pixel_ratio_range : Q * Q) (threshold : Q) (num_images : nat)
    (print_info : bool) :
  size (decoder model z) <> num_samples * (IMG_SIDE * IMG_SIDE) <->
  generate_and_filter_images model obs_dataset z num_samples pixel_ratio_range
    threshold num_images print_info = ([], Raise ValueError).
Proof.
  split.
  - apply generate_reshape_fails.
  - intros Hrun Hsize.
    rewrite (generate_after_reshape _ _ _ _ _ _ _ _ Hsize) in Hrun.
    injection Hrun as Hout _.
    apply app_eq_nil in Hout. destruct Hout as [_ Hout].
    unfold match_and_rank in Hout.
    destruct (length (filtered_of model z num_samples pixel_ratio_range threshold)
              =? 0).
    + discriminate.
    + unfold print in Hout. rewrite io_bind_Ok in Hout. discriminate.
Qed.

End PipelineRuns.

(** ** Pixel ratios are percentages *)

Lemma active_pixels_le_size (b : ndarray Z) : active_pixels b <= size b.
Proof.
  unfold active_pixels, size. apply filter_length_le.
Qed.

Lemma percentage_bounds (active total : nat) :
  active <= total -> 0 < total ->
  (0 <= inject_Z (Z.of_nat active) / inject_Z (Z.of_nat total) * 100)%Q /\
  (inject_Z (Z.of_nat active) / inject_Z (Z.of_nat total) * 100 <= 100)%Q.
Proof.
  intros Hle Hpos.
  assert (0 < inject_Z (Z.of_nat total))%Q as Hden.
  { change 0%Q with (inject_Z 0). rewrite <- Zlt_Qlt. lia. }
  split.
  - apply Qmult_le_0_compat; [|discriminate].
    apply Qle_shift_div_l; [exact Hden|]. rewrite Qmult_0_l.
    change 0%Q with (inject_Z 0). rewrite <- Zle_Qle. lia.
  - rewrite <- (Qmult_1_l 100) at 2.
    apply Qmult_le_compat_r; [|discriminate].
    apply Qle_shift_div_r; [exact Hden|]. rewrite Qmult_1_l.
    rewrite <- Zle_Qle. lia.
Qed.

(** X5.  The pixel ratio of an array that holds as many values as its
    shape says, and at least one, is a percentage: it lies between 0 and
    100. *)
Theorem pixel_ratio_is_percentage (binary_image : ndarray Z) :
  size binary_image = prod (shape binary_image) ->
  0 < size binary_image ->
  exists r,
    pixel_ratio binary_image = Some r /\ (0 <= r)%Q /\ (r <= 100)%Q.
Proof.
  intros Hwf Hpos. unfold pixel_ratio, total_pixels. rewrite <- Hwf.
  destruct (Nat.eqb_spec (size binary_image) 0) as [E|_]; [lia|].
  eexists. split; [reflexivity|].
  apply percentage_bounds; [apply active_pixels_le_size | exact Hpos].
Qed.

Lemma pixel_ratio_is_percentage_witness :
  exists r, pixel_ratio (small_binary 6) = Some r /\ (0 <= r)%Q /\ (r <= 100)%Q.
Proof.
  apply pixel_ratio_is_percentage; [reflexivity | apply Nat.ltb_lt; reflexivity].
Defined.

Section RangeOffScale.

Context {ext : Externals}.

Lemma image_pixels_positive : 0 < IMG_SIDE * IMG_SIDE.
Proof.
  apply Nat.ltb_lt. vm_compute. reflexivity.
Qed.

Lemma is_image_ratio (b : ndarray Z) :
  is_image b -> exists r, pixel_ratio b = Some r /\ (0 <= r)%Q /\ (r <= 100)%Q.
Proof.
  intros [Hshape Hsize]. pose proof image_pixels_positive as Hpos.
  assert (prod (shape b) = size b) as Hprod.
  { rewrite Hsize, Hshape. unfold prod. cbn [fold_right].
    now rewrite Nat.mul_1_r. }
  unfold pixel_ratio, total_pixels. rewrite Hprod.
  destruct (Nat.eqb_spec (size b) 0) as [E|_]; [lia|].
  eexists. split; [reflexivity|].
  apply percentage_bounds; [apply active_pixels_le_size | lia].
Qed.

Lemma candidates_are_images (model : autoencoder) (z : ndarray Q)
    (num_samples : nat) (threshold : Q) :
  size (decoder model z) = num_samples * (IMG_SIDE * IMG_SIDE) ->
  Forall is_image (candidates (smoothed_of model z num_samples) threshold).
Proof.
  intros Hsize.
  destruct (smoothed_of_images model z num_samples Hsize) as [_ Himg].
  unfold candidates. apply Forall_map. eapply Forall_impl; [|exact Himg].
  intros s Hs. rewrite squeeze_is_image by exact Hs. now apply binarize_is_image.
Qed.

(** X6.  A range that lies above 100 percent or below 0 percent keeps
    nothing, whatever the decoded images are: once the reshape succeeded
    the function prints its "no images" line and returns [None]. *)
Theorem range_off_scale_returns_none (model : autoencoder)
    (obs_dataset : list (ndarray Q)) (z : ndarray Q) (num_samples : nat)
    (pixel_ratio_range : Q * Q) (threshold : Q) (num_images : nat)
    (print_info : bool) :
  size (decoder model z) = num_samples * (IMG_SIDE * IMG_SIDE) ->
  (100 < fst pixel_ratio_range)%Q \/ (snd pixel_ratio_range < 0)%Q ->
  generate_and_filter_images model obs_dataset z num_samples pixel_ratio_range
    threshold num_images print_info
  = (diagnostics_of model z num_samples threshold print_info ++ [PrintNoImages],
     Ok None).
Proof.
  intros Hsize Hoff.
  rewrite (generate_after_reshape _ _ _ _ _ _ _ _ Hsize).
  assert (filtered_of model z num_samples pixel_ratio_range threshold = [])
    as ->.
  { unfold filtered_of. apply filter_none. intros b Hb.
    pose proof (candidates_are_images model z num_samples threshold Hsize) as Himg.
    rewrite Forall_forall in Himg.
    destruct (is_image_ratio b (Himg b Hb)) as (r & Hr & H0 & H100).
    unfold passes. rewrite Hr. cbn [in_range].
    apply andb_false_iff. destruct Hoff as [Hlo|Hhi].
    - left. apply Qle_bool_false_iff.
      now apply Qle_lt_trans with 100%Q.
    - right. apply Qle_bool_false_iff.
      now apply Qlt_le_trans with 0%Q. }
  reflexivity.
Qed.

End RangeOffScale.

(** The range (101, 102) on eleven images that the range (5, 14) keeps. *)
Lemma range_off_scale_returns_none_witness :
  generate_and_filter_images (ext := reference_externals)
    (striped_model 11 4000 100) one_observation (latent_batch 11) 11
    (101, 102)%Q (1 # 2) 11 false
  = ([PrintNoImages], Ok None).
Proof.
  apply (range_off_scale_returns_none (ext := reference_externals)
           (striped_model 11 4000 100) one_observation (latent_batch 11) 11
           (101, 102)%Q (1 # 2) 11 false).
  - apply Nat.eqb_eq. vm_compute. reflexivity.
  - left. reflexivity.
Defined.

(** ** What Phase A returns *)

Section PhaseAResult.

Context {ext : Externals}.

Lemma float_le_refl (x : pyfloat) : float_le x x.
Proof.
  destruct x; simpl; [apply Qle_refl | exact I].
Qed.

Lemma float_lt_le_trans (m : Q) (x y : pyfloat) :
  float_lt m x -> float_le x y -> float_lt m y.
Proof.
  destruct x, y; simpl; try tauto. apply Qlt_le_trans.
Qed.

Lemma float_le_trans (x y z : pyfloat) :
  float_le x y -> float_le y z -> float_le x z.
Proof.
  destruct x, y, z; simpl; try tauto. apply Qle_trans.
Qed.

Lemma update_best_at_least_as_good (best : best_match) (g : ndarray Z)
    (obs_image : ndarray Q) (j : nat) (mse ssim_value : Q) :
  at_least_as_good (update_best best g obs_image j mse ssim_value) best.
Proof.
  unfold update_best, at_least_as_good.
  destruct (lt_float mse (lowest_mse best)) eqn:E1; simpl;
    [|split; [apply float_le_refl | apply Qle_refl]].
  destruct (Qlt_bool (highest_ssim best) ssim_value) eqn:E2; simpl;
    [|split; [apply float_le_refl | apply Qle_refl]].
  apply lt_float_iff in E1. apply Qlt_bool_iff in E2. split.
  - destruct (lowest_mse best); simpl in *; [now apply Qlt_le_weak | exact I].
  - now apply Qlt_le_weak.
Qed.

Lemma run_pairs_at_least_as_good (ps : list pair) (best best' : best_match) :
  run_pairs ps best = Ok best' -> at_least_as_good best' best.
Proof.
  revert best. induction ps as [|[[g j] o] ps IH]; intros best Hrun.
  - simpl in Hrun. injection Hrun as <-.
    split; [apply float_le_refl | apply Qle_refl].
  - unfold run_pairs in Hrun. simpl in Hrun.
    destruct (compare_pair g j o best) as [b1|] eqn:E; simpl in Hrun; [|discriminate].
    apply compare_pair_Ok in E. destruct E as (m & s & _ & ->).
    destruct (IH _ Hrun) as [H1 H2].
    destruct (update_best_at_least_as_good best g (squeeze o) j m s) as [H3 H4].
    split; [eapply float_le_trans | eapply Qle_trans]; eassumption.
Qed.

Lemma not_improves_later (b b' : best_match) (m s : Q) :
  at_least_as_good b' b -> ~ improves b m s -> ~ improves b' m s.
Proof.
  intros [H1 H2] Hn [H3 H4]. apply Hn. split.
  - eapply float_lt_le_trans; eassumption.
  - eapply Qle_lt_trans; eassumption.
Qed.

Lemma update_best_not_improved (best : best_match) (g : ndarray Z)
    (obs_image : ndarray Q) (j : nat) (m s : Q) :
  ~ improves (update_best best g obs_image j m s) m s.
Proof.
  unfold update_best.
  destruct (lt_float m (lowest_mse best)) eqn:E1.
  - destruct (Qlt_bool (highest_ssim best) s) eqn:E2; simpl.
    + intros [H _]. simpl in H. exact (Qlt_irrefl _ H).
    + intros [_ H]. apply Qlt_bool_iff in H. congruence.
  - simpl. intros [H _]. apply lt_float_iff in H. congruence.
Qed.

Lemma run_pairs_not_improved (ps : list pair) (best best' : best_match)
    (g : ndarray Z) (j : nat) (o : ndarray Q) (m s : Q) :
  run_pairs ps best = Ok best' ->
  In (g, j, o) ps ->
  pair_metrics (squeeze o) g = Ok (m, s) ->
  ~ improves best' m s.
Proof.
  revert best. induction ps as [|[[g1 j1] o1] ps IH]; intros best Hrun Hin Hm.
  - destruct Hin.
  - unfold run_pairs in Hrun. simpl in Hrun.
    destruct (compare_pair g1 j1 o1 best) as [b1|] eqn:E; simpl in Hrun;
      [|discriminate].
    destruct Hin as [Heq|Hin].
    + injection Heq as -> -> ->.
      rewrite (compare_pair_metrics g j o best m s Hm) in E. injection E as <-.
      apply (not_improves_later (update_best best g (squeeze o) j m s)).
      * now apply (run_pairs_at_least_as_good ps).
      * apply update_best_not_improved.
    + now apply (IH b1).
Qed.

(** X7.  No compared pair improves on the best that Phase A ends with:
    there is no filtered image and observation whose MSE is strictly below
    the final lowest MSE and whose SSIM is strictly above the final
    highest SSIM.  (A pair may still beat it in one of the two.) *)
Theorem phase_a_best_not_improved (filtered : list (ndarray Z))
    (obs_dataset : list (ndarray Q)) (best : best_match) (g : ndarray Z)
    (j : nat) (obs_j : ndarray Q) (mse ssim_value : Q) :
  phase_a filtered obs_dataset = Ok best ->
  In g filtered ->
  nth_error obs_dataset j = Some obs_j ->
  pair_metrics (squeeze obs_j) g = Ok (mse, ssim_value) ->
  ~ (float_lt mse (lowest_mse best) /\ (highest_ssim best < ssim_value)%Q).
Proof.
  intros Hrun Hg Hj Hm. rewrite phase_a_pairs in Hrun.
  apply (run_pairs_not_improved (pairs filtered obs_dataset) initial_best best
           g j obs_j mse ssim_value Hrun); [|exact Hm].
  apply in_pairs. auto.
Qed.

Lemma pairs_no_observation (filtered : list (ndarray Z)) :
  pairs filtered [] = [].
Proof.
  unfold pairs. induction filtered as [|g filtered IH]; simpl; auto.
Qed.

(** X8.  With an empty observation set Phase A compares nothing: on a
    non-empty filtered set the function prints the number of valid images
    and raises [TypeError] at the plot of the best image. *)
Theorem no_observation_raises (filtered : list (ndarray Z)) (num_images : nat) :
  filtered <> [] ->
  match_and_rank filtered [] num_images
  = ([PrintTotalValid (length filtered)], Raise TypeError).
Proof.
  intros Hne. unfold match_and_rank.
  destruct filtered as [|g filtered]; [now elim Hne|].
  cbn [length Nat.eqb]. unfold print, lift. rewrite io_bind_Ok.
  rewrite phase_a_pairs, pairs_no_observation. reflexivity.
Qed.

Lemma run_pairs_all_compared (ps : list pair) (best best' : best_match)
    (g : ndarray Z) (j : nat) (o : ndarray Q) :
  run_pairs ps best = Ok best' ->
  In (g, j, o) ps ->
  exists m s, pair_metrics (squeeze o) g = Ok (m, s).
Proof.
  revert best. induction ps as [|[[g1 j1] o1] ps IH]; intros best Hrun Hin.
  - destruct Hin.
  - unfold run_pairs in Hrun. simpl in Hrun.
    destruct (compare_pair g1 j1 o1 best) as [b1|] eqn:E; simpl in Hrun;
      [|discriminate].
    destruct Hin as [Heq|Hin].
    + injection Heq as -> -> ->. apply compare_pair_Ok in E.
      destruct E as (m & s & Hm & _). now exists m, s.
    + now apply (IH b1).
Qed.

(** X9.  Every observation must squeeze to a 256x256 array: when one does
    not and at least one image passed the ratio filter, the run does not
    return (the MSE of line 137 raises when that observation is reached,
    unless an earlier comparison already raised). *)
Theorem misshapen_observation_raises (model : autoencoder)
    (obs_dataset : list (ndarray Q)) (z : ndarray Q) (num_samples : nat)
    (pixel_ratio_range : Q * Q) (threshold : Q) (num_images : nat)
    (print_info : bool) (out : list event) (filtered : list (ndarray Z))
    (j : nat) (obs_j : ndarray Q) :
  sample_and_filter model z num_samples pixel_ratio_range threshold print_info
  = (out, Ok filtered) ->
  filtered <> [] ->
  nth_error obs_dataset j = Some obs_j ->
  shape (squeeze obs_j) <> [IMG_SIDE; IMG_SIDE] ->
  (exists e, phase_a filtered obs_dataset = Raise e) /\
  exists e,
    generate_and_filter_images model obs_dataset z num_samples
      pixel_ratio_range threshold num_images print_info
    = (out ++ [PrintTotalValid (length filtered)], Raise e).
Proof.
  intros Hs Hne Hj Hshape.
  assert (exists e, phase_a filtered obs_dataset = Raise e) as [e He].
  { destruct (phase_a filtered obs_dataset) as [best|e] eqn:Ea;
      [|now exists e].
    exfalso. rewrite phase_a_pairs in Ea.
    destruct filtered as [|g filtered']; [now elim Hne|].
    pose proof (sample_and_filter_images _ _ _ _ _ _ _ _ Hs) as Himg.
    inversion Himg as [|? ? [Hg _] _]; subst.
    destruct (run_pairs_all_compared _ _ _ g j obs_j Ea) as (m & s & Hm).
    { apply in_pairs. split; [now left | exact Hj]. }
    apply pair_metrics_mse, mean_squared_error_Ok in Hm.
    destruct Hm as (n & k & Hobs & Hgen & _ & _ & _).
    cbn [as_float shape] in Hgen. rewrite Hg in Hgen. cbn [as_2d] in Hgen.
    injection Hgen as <- <-. apply Hshape.
    destruct (shape (squeeze obs_j)) as [|a [|b [|c l]]]; cbn [as_2d] in Hobs;
      try discriminate.
    now injection Hobs as -> ->. }
  split; [now exists e|]. exists e.
  unfold generate_and_filter_images. rewrite Hs, io_bind_Ok.
  unfold match_and_rank.
  destruct filtered as [|g filtered']; [now elim Hne|].
  cbn [length Nat.eqb]. unfold print, lift. rewrite io_bind_Ok, He. reflexivity.
Qed.

End PhaseAResult.

Lemma phase_a_best_not_improved_witness :
  phase_a (ext := externals_with density_similarity)
    [tiny 1 1 1 1; tiny 1 0 0 0] [tiny_obs]
  = Ok (replaced_by (tiny 1 1 1 1) 0 tiny_obs (2 # 4) (4 # 4)) /\
  ~ (float_lt (1 # 4) (Finite (2 # 4)) /\ (4 # 4 < 1 # 4)%Q).
Proof.
  split; [reflexivity|].
  apply (phase_a_best_not_improved (ext := externals_with density_similarity)
           [tiny 1 1 1 1; tiny 1 0 0 0] [tiny_obs]
           (replaced_by (tiny 1 1 1 1) 0 tiny_obs (2 # 4) (4 # 4))
           (tiny 1 0 0 0) 0 tiny_obs (1 # 4) (1 # 4)).
  - reflexivity.
  - right. left. reflexivity.
  - reflexivity.
  - reflexivity.
Defined.

Lemma no_observation_raises_witness :
  match_and_rank (ext := reference_externals) [tiny 1 1 1 1; tiny 1 0 0 0] [] 11
  = ([PrintTotalValid 2], Raise TypeError).
Proof.
  apply (no_observation_raises (ext := reference_externals)
           [tiny 1 1 1 1; tiny 1 0 0 0] 11).
  discriminate.
Defined.

(** One kept image against a 2x2 observation. *)
Lemma misshapen_observation_raises_witness :
  exists e,
    generate_and_filter_images (ext := reference_externals)
      (striped_model 1 4000 0) [mk_ndarray [1; 2; 2] [1; 1; 0; 0]%Q]
      (latent_batch 1) 1 (5, 14)%Q (1 # 2) 11 false
    = (fst single_filtered_run
       ++ [PrintTotalValid (length (produced single_filtered_run))],
       Raise e).
Proof.
  destruct (produced_eq single_filtered_run single_filtered_run_keeps)
    as [Hrun Hne].
  apply (misshapen_observation_raises (ext := reference_externals)
           (striped_model 1 4000 0) [mk_ndarray [1; 2; 2] [1; 1; 0; 0]%Q]
           (latent_batch 1) 1 (5, 14)%Q (1 # 2) 11 false
           (fst single_filtered_run) (produced single_filtered_run)
           0 (mk_ndarray [1; 2; 2] [1; 1; 0; 0]%Q) Hrun Hne eq_refl).
  discriminate.
Defined.

(** ** Thresholds and ranges *)

Lemma binarize_active_antitone (l : list Q) (t1 t2 : Q) :
  (t1 <= t2)%Q ->
  length (filter (fun x => (x =? 1)%Z)
            (map (fun x => if Qle_bool t2 x then 1%Z else 0%Z) l))
  <= length (filter (fun x => (x =? 1)%Z)
               (map (fun x => if Qle_bool t1 x then 1%Z else 0%Z) l)).
Proof.
  intros Hle. induction l as [|x l IH]; cbn [map filter length]; [lia|].
  destruct (Qle_bool t2 x) eqn:E2.
  - assert (Qle_bool t1 x = true) as ->.
    { apply Qle_bool_iff. apply Qle_bool_iff in E2.
      now apply Qle_trans with t2. }
    cbn. lia.
  - destruct (Qle_bool t1 x); cbn; lia.
Qed.

(** X10.  Raising the threshold never switches a pixel on: pixel by
    pixel the image binarized at the higher threshold is below the one
    binarized at the lower threshold, so it has at most as many active
    pixels, and its pixel ratio is at most as large. *)
Theorem higher_threshold_fewer_pixels (generated_image : ndarray Q) (t1 t2 : Q) :
  (t1 <= t2)%Q ->
  Forall2 Z.le (data (binarize generated_image t2))
               (data (binarize generated_image t1)) /\
  active_pixels (binarize generated_image t2)
  <= active_pixels (binarize generated_image t1) /\
  (forall r1 r2,
     pixel_ratio (binarize generated_image t1) = Some r1 ->
     pixel_ratio (binarize generated_image t2) = Some r2 ->
     (r2 <= r1)%Q).
Proof.
  intros Hle.
  assert (active_pixels (binarize generated_image t2)
          <= active_pixels (binarize generated_image t1)) as Hactive.
  { unfold active_pixels, binarize. cbn [data].
    now apply binarize_active_antitone. }
  split; [|split; [exact Hactive|]].
  - unfold binarize. cbn [data].
    induction (data generated_image) as [|x l IH]; cbn [map]; constructor;
      [|exact IH].
    destruct (Qle_bool t2 x) eqn:E2.
    + assert (Qle_bool t1 x = true) as ->; [|reflexivity].
      apply Qle_bool_iff. apply Qle_bool_iff in E2.
      now apply Qle_trans with t2.
    + destruct (Qle_bool t1 x); discriminate.
  - intros r1 r2. unfold pixel_ratio.
    assert (total_pixels (binarize generated_image t2)
            = total_pixels (binarize generated_image t1)) as -> by reflexivity.
    destruct (total_pixels (binarize generated_image t1) =? 0) eqn:E0;
      [discriminate|].
    apply Nat.eqb_neq in E0.
    intros H1 H2. injection H1 as <-. injection H2 as <-.
    apply Qmult_le_compat_r; [|discriminate].
    apply Qmult_le_compat_r.
    + rewrite <- Zle_Qle. lia.
    + apply Qinv_le_0_compat. change 0%Q with (inject_Z 0).
      rewrite <- Zle_Qle. lia.
Qed.

Lemma higher_threshold_fewer_pixels_witness :
  active_pixels (binarize (mk_ndarray [2; 2] [0.1; 0.4; 0.6; 0.9]%Q) 0.5)
  <= active_pixels (binarize (mk_ndarray [2; 2] [0.1; 0.4; 0.6; 0.9]%Q) 0.3).
Proof.
  apply (higher_threshold_fewer_pixels
           (mk_ndarray [2; 2] [0.1; 0.4; 0.6; 0.9]%Q) 0.3 0.5).
  discriminate.
Defined.

Lemma passes_range_meet (r1 r2 : Q * Q) (b : ndarray Z) :
  passes (range_meet r1 r2) b = passes r1 b && passes r2 b.
Proof.
  unfold passes, in_range, range_meet.
  destruct (pixel_ratio b) as [r|]; [|reflexivity]. cbn [fst snd].
  apply eq_true_iff_eq.
  rewrite !andb_true_iff, !Qle_bool_iff, Q.max_lub_iff, Q.min_glb_iff. tauto.
Qed.

Lemma filter_filter {A : Type} (f g : A -> bool) (l : list A) :
  filter f (filter g l) = filter (fun x => g x && f x) l.
Proof.
  induction l as [|x l IH]; cbn [filter]; [reflexivity|].
  destruct (g x); cbn [filter andb]; [|exact IH].
  destruct (f x); now rewrite IH.
Qed.

(** X11.  Ratio filters compose: filtering with one range and then with
    another keeps exactly the images whose ratio is in both ranges, so the
    order of two filters does not matter and the result is the filter of
    the intersection of the two ranges. *)
Theorem ratio_filters_compose (r1 r2 : Q * Q) (binary_images : list (ndarray Z)) :
  ratio_filter r1 (ratio_filter r2 binary_images)
  = ratio_filter r2 (ratio_filter r1 binary_images) /\
  ratio_filter r1 (ratio_filter r2 binary_images)
  = ratio_filter (range_meet r1 r2) binary_images /\
  (forall b,
     In b (ratio_filter r1 (ratio_filter r2 binary_images)) <->
     In b (ratio_filter r1 binary_images) /\ In b (ratio_filter r2 binary_images)).
Proof.
  rewrite !ratio_filter_filter, !filter_filter. split; [|split].
  - apply filter_ext. intros b. apply andb_comm.
  - apply filter_ext. intros b. rewrite passes_range_meet. apply andb_comm.
  - intros b. rewrite !filter_In, andb_true_iff. tauto.
Qed.

(** ** The images of a returned tuple *)

Section ReturnedImages.

Context {ext : Externals}.

Lemma binarize_binary (a : ndarray Q) (threshold : Q) :
  Forall (fun p => p = 0%Z \/ p = 1%Z) (data (binarize a threshold)).
Proof.
  unfold binarize. cbn [data]. apply Forall_map, Forall_forall. intros x _.
  destruct (Qle_bool threshold x); auto.
Qed.

Lemma Forall2_nth_error_in {A B : Type} (l : list A) (idx : list B)
    (xs : list A) (f : B -> nat) :
  Forall2 (fun i x => nth_error l (f i) = Some x) idx xs ->
  forall x, In x xs -> In x l.
Proof.
  induction 1 as [|i x idx xs Hi _ IH]; intros y Hy.
  - destruct Hy.
  - destruct Hy as [<-|Hy]; [|now apply IH].
    eapply nth_error_In. exact Hi.
Qed.

(** X12.  Every image of a returned tuple (the filtered images, the best
    generated image and the ranked images) is a 256x256 array of zeros and
    ones whose pixel ratio is in the requested range, and the ranked
    images and the best image are taken from the filtered set. *)
Theorem returned_images_are_binary (model : autoencoder)
    (obs_dataset : list (ndarray Q)) (z : ndarray Q) (num_samples : nat)
    (pixel_ratio_range : Q * Q) (threshold : Q) (num_images : nat)
    (print_info : bool) (out : list event) (r : result) :
  generate_and_filter_images model obs_dataset z num_samples pixel_ratio_range
    threshold num_images print_info = (out, Ok (Some r)) ->
  Forall (fun b => is_binary_image b /\ passes pixel_ratio_range b = true)
         (r_filtered_generated_images r) /\
  (forall b, In b (r_top_images r) -> In b (r_filtered_generated_images r)) /\
  (forall b, r_best_generated_image r = Some b ->
             In b (r_filtered_generated_images r)).
Proof.
  intros H. apply generate_and_filter_images_Ok in H.
  destruct H as (out1 & filtered & out2 & Hs & Hm & _).
  pose proof (sample_and_filter_images _ _ _ _ _ _ _ _ Hs) as Himg.
  apply sample_and_filter_Ok in Hs. destruct Hs as (_ & Hf & _).
  destruct (match_and_rank_consistent _ _ _ _ _ Hm)
    as (_ & g & _ & _ & _ & Hg & _ & _ & _ & _ & _ & Hin).
  apply match_and_rank_Ok in Hm.
  destruct Hm as (_ & _ & best & ti & tm & _ & _ & Hb & _ & ->).
  cbn [r_filtered_generated_images r_top_images r_best_generated_image] in *.
  split; [|split].
  - apply Forall_forall. intros b Hb'.
    rewrite Forall_forall in Himg. split; [split|].
    + now apply Himg.
    + rewrite Hf in Hb'. apply filter_In in Hb'. destruct Hb' as [Hc _].
      unfold candidates in Hc. apply in_map_iff in Hc.
      destruct Hc as (s & <- & _). apply binarize_binary.
    + rewrite Hf in Hb'. apply filter_In in Hb'. tauto.
  - apply phase_b_Ok in Hb. destruct Hb as (mse_list & _ & Hti & _).
    exact (Forall2_nth_error_in filtered _ ti (fun i => i) Hti).
  - intros b Hb'. congruence.
Qed.

(** X13.  Asking Phase B for fewer images gives a prefix of what it gives
    for more: the two rankings agree on their first entries. *)
Theorem fewer_images_give_a_prefix (best : option (ndarray Z))
    (filtered : list (ndarray Z)) (k k' : nat)
    (top_images top_images' : list (ndarray Z)) (top_mses top_mses' : list Q) :
  k <= k' ->
  phase_b best filtered k = Ok (top_images, top_mses) ->
  phase_b best filtered k' = Ok (top_images', top_mses') ->
  top_images = firstn k top_images' /\ top_mses = firstn k top_mses'.
Proof.
  intros Hle Hk Hk'. unfold phase_b in Hk, Hk'. rewrite for_each_collect in Hk, Hk'.
  destruct (map_o (mse_to_best best) filtered) as [mse_list|]; [|discriminate].
  cbn [obind app] in Hk, Hk'.
  assert (forall (A : Type) (l : list A) (idx : list nat) (xs : list A),
            map_o (getitem l) idx = Ok xs ->
            forall n, map_o (getitem l) (firstn n idx) = Ok (firstn n xs))
    as Hprefix.
  { intros A l idx. induction idx as [|i idx IH]; intros xs Hxs n.
    - cbn in Hxs. injection Hxs as <-. now rewrite !firstn_nil.
    - cbn [map_o] in Hxs. destruct (getitem l i) as [x|] eqn:Ei; [|discriminate].
      cbn [obind] in Hxs.
      destruct (map_o (getitem l) idx) as [xs'|] eqn:Er; [|discriminate].
      cbn [obind] in Hxs. injection Hxs as <-.
      destruct n as [|n]; [reflexivity|].
      cbn [firstn map_o]. rewrite Ei. cbn [obind].
      now rewrite (IH xs' eq_refl n). }
  assert (firstn k (argsort mse_list) = firstn k (firstn k' (argsort mse_list)))
    as Eidx.
  { rewrite firstn_firstn. now rewrite Nat.min_l. }
  rewrite Eidx in Hk.
  destruct (map_o (getitem filtered) (firstn k' (argsort mse_list)))
    as [ti'|] eqn:E1; [|discriminate].
  destruct (map_o (getitem mse_list) (firstn k' (argsort mse_list)))
    as [tm'|] eqn:E2; [|discriminate].
  cbn [obind] in Hk'. injection Hk' as <- <-.
  rewrite (Hprefix _ _ _ _ E1 k), (Hprefix _ _ _ _ E2 k) in Hk.
  cbn [obind] in Hk. now injection Hk as <- <-.
Qed.

End ReturnedImages.

Lemma returned_images_are_binary_witness :
  Forall (fun b => is_binary_image b /\ passes (5, 14)%Q b = true)
         (r_filtered_generated_images (tuple_of full_run)) /\
  (forall b, In b (r_top_images (tuple_of full_run)) ->
             In b (r_filtered_generated_images (tuple_of full_run))) /\
  (forall b, r_best_generated_image (tuple_of full_run) = Some b ->
             In b (r_filtered_generated_images (tuple_of full_run))).
Proof.
  exact (returned_images_are_binary (ext := reference_externals)
           (striped_model 11 4000 100) one_observation (latent_batch 11) 11
           (5, 14)%Q (1 # 2) 11 false (fst full_run) (tuple_of full_run)
           (returned_eq full_run full_run_returns)).
Defined.

Lemma fewer_images_give_a_prefix_witness :
  [tiny 1 0 0 0] = firstn 1 [tiny 1 0 0 0; tiny 1 1 1 1] /\
  [0 # 4]%Q = firstn 1 [0 # 4; 3 # 4]%Q.
Proof.
  apply (fewer_images_give_a_prefix (ext := reference_externals)
           (Some (tiny 1 0 0 0)) [tiny 1 1 1 1; tiny 1 0 0 0] 1 2
           [tiny 1 0 0 0] [tiny 1 0 0 0; tiny 1 1 1 1] [0 # 4]%Q [0 # 4; 3 # 4]%Q).
  - lia.
  - reflexivity.
  - reflexivity.
Defined.

(* ================================================================== *)
(** * The other functions of [generative/utils.py] *)

(** ** Frames of an array *)

Lemma concat_chunks {A : Type} (n k : nat) (l : list A) :
  length l = n * k -> concat (chunks n k l) = l.
Proof.
  revert l. induction n as [|n IH]; intros l Hlen; cbn [chunks concat].
  - destruct l; [reflexivity | discriminate].
  - rewrite IH.
    + apply firstn_skipn.
    + rewrite length_skipn. nia.
Qed.

Lemma chunks_concat {A : Type} (k : nat) (cs : list (list A)) :
  Forall (fun c => length c = k) cs ->
  chunks (length cs) k (concat cs) = cs.
Proof.
  induction 1 as [|c cs Hc _ IH]; cbn [length chunks concat]; [reflexivity|].
  rewrite firstn_app, <- Hc, Nat.sub_diag, firstn_all, firstn_O, app_nil_r.
  rewrite skipn_app, Nat.sub_diag, skipn_all, skipn_O. cbn [app].
  rewrite Hc. now rewrite IH.
Qed.

Lemma subarrays_frames {A : Type} (arr : ndarray A) (n : nat) (rest : list nat) :
  well_shaped arr -> shape arr = n :: rest ->
  length (subarrays arr) = n /\ Forall (frame_of rest) (subarrays arr).
Proof.
  unfold well_shaped, size, subarrays. intros Hwf Hshape. rewrite Hshape in *.
  split.
  - now rewrite length_map, chunks_length.
  - apply Forall_map. eapply Forall_impl; [|apply chunks_sizes; exact Hwf].
    intros c Hc. split; [reflexivity | exact Hc].
Qed.

Lemma subarrays_length {A : Type} (arr : ndarray A) (n : nat) (rest : list nat) :
  shape arr = n :: rest -> length (subarrays arr) = n.
Proof.
  unfold subarrays. intros ->. now rewrite length_map, chunks_length.
Qed.

Lemma map_data_frames {A : Type} (rest : list nat) (fs : list (ndarray A)) :
  Forall (frame_of rest) fs -> map (mk_ndarray rest) (map data fs) = fs.
Proof.
  induction 1 as [|f fs [Hs _] _ IH]; cbn [map]; [reflexivity|].
  rewrite IH. f_equal. destruct f. cbn in *. now subst.
Qed.

Lemma subarrays_stack {A : Type} (rest : list nat) (fs : list (ndarray A)) :
  Forall (frame_of rest) fs -> subarrays (stack rest fs) = fs.
Proof.
  intros Hfs. unfold subarrays, stack. cbn [shape data].
  rewrite <- (length_map data fs), chunks_concat.
  - now apply map_data_frames.
  - apply Forall_map. eapply Forall_impl; [|exact Hfs]. now intros f [_ Hf].
Qed.

Lemma stack_subarrays {A : Type} (arr : ndarray A) (n : nat) (rest : list nat) :
  well_shaped arr -> shape arr = n :: rest -> stack rest (subarrays arr) = arr.
Proof.
  intros Hwf Hshape. unfold stack.
  rewrite (subarrays_length arr n rest Hshape).
  unfold subarrays. rewrite Hshape, map_map. cbn [data]. rewrite map_id.
  rewrite concat_chunks.
  - destruct arr. cbn in *. now subst.
  - unfold well_shaped, size in Hwf. now rewrite Hshape in Hwf.
Qed.

Lemma stack_well_shaped {A : Type} (rest : list nat) (fs : list (ndarray A)) :
  Forall (frame_of rest) fs -> well_shaped (stack rest fs).
Proof.
  unfold well_shaped, size, stack. cbn [shape data prod fold_right].
  induction 1 as [|f fs [_ Hf] _ IH]; cbn [map concat length]; [reflexivity|].
  rewrite length_app, IH. unfold size in Hf. rewrite Hf. unfold prod. lia.
Qed.

(** ** Slices with a step *)

Lemma every_nth_from_nth_error {A : Type} (step : nat) (l : list A) (skip k : nat) :
  1 <= step ->
  nth_error (every_nth_from step skip l) k = nth_error l (skip + k * step).
Proof.
  intros Hstep. revert skip k. induction l as [|x l IH]; intros skip k.
  - cbn. now rewrite !nth_error_nil.
  - destruct skip as [|skip]; cbn [every_nth_from].
    + destruct k as [|k]; [reflexivity|]. cbn [nth_error Nat.add].
      rewrite IH. replace (S k * step) with (S (step - 1 + k * step)) by nia.
      reflexivity.
    + now rewrite IH.
Qed.

Lemma every_nth_from_lt {A : Type} (step : nat) (l : list A) (k : nat) :
  1 <= step ->
  k < length (every_nth_from step 0 l) <-> k * step < length l.
Proof.
  intros Hstep. rewrite <- !nth_error_Some.
  now rewrite every_nth_from_nth_error.
Qed.

Lemma every_nth_from_length {A : Type} (step : nat) (l : list A) :
  1 <= step ->
  length (every_nth_from step 0 l) = (length l + step - 1) / step.
Proof.
  intros Hstep.
  set (m := length (every_nth_from step 0 l)).
  assert (forall k, k < m <-> k * step < length l) as Hm
    by (intros k; now apply every_nth_from_lt).
  assert (m * step < length l + step) as Hup.
  { destruct m as [|m']; [lia|].
    pose proof (proj1 (Hm m') (Nat.lt_succ_diag_r m')). nia. }
  assert (length l <= m * step) as Hlow.
  { destruct (Nat.le_gt_cases (length l) (m * step)) as [|Hlt]; [assumption|].
    apply Hm in Hlt. lia. }
  apply Nat.div_unique with (r := length l + step - 1 - step * m); nia.
Qed.

Lemma every_nth_from_one {A : Type} (l : list A) : every_nth_from 1 0 l = l.
Proof.
  induction l as [|x l IH]; cbn; [reflexivity | now rewrite IH].
Qed.

Lemma every_nth_from_Forall {A : Type} (P : A -> Prop) (step : nat) (l : list A)
    (skip : nat) :
  Forall P l -> Forall P (every_nth_from step skip l).
Proof.
  intros H. revert skip. induction H as [|x l Hx _ IH]; intros skip; cbn.
  - constructor.
  - destruct skip; [constructor|]; auto.
Qed.

Lemma every_nth_from_compose {A : Type} (s1 s2 : nat) (l : list A) :
  1 <= s1 -> 1 <= s2 ->
  every_nth_from s2 0 (every_nth_from s1 0 l) = every_nth_from (s1 * s2) 0 l.
Proof.
  intros H1 H2. apply nth_error_ext. intros k.
  rewrite !every_nth_from_nth_error by nia. f_equal. nia.
Qed.

(** ** [sequential_undersample_3d_arr] *)

Lemma slice_step_frames {A : Type} (arr : ndarray A) (n : nat) (rest : list nat)
    (step : nat) :
  well_shaped arr -> shape arr = n :: rest ->
  subarrays (slice_step arr step) = every_nth_from step 0 (subarrays arr) /\
  well_shaped (slice_step arr step).
Proof.
  intros Hwf Hshape. unfold slice_step. rewrite Hshape.
  destruct (subarrays_frames arr n rest Hwf Hshape) as [_ Hframes].
  pose proof (every_nth_from_Forall (frame_of rest) step _ 0 Hframes) as Hsel.
  split; [now apply subarrays_stack | now apply stack_well_shaped].
Qed.

(** X14.  [sequential_undersample_3d_arr] raises [AssertionError] on an
    array that is not three-dimensional.  On an array of shape (n, h, w) it
    returns, with [step = max(1, sequence_jump)], the array of shape
    (ceil(n / step), h, w) whose k-th frame is frame [k * step] of the
    input. *)
Theorem undersample_frames {A : Type} (arr : ndarray A) (sequence_jump : Z)
    (_print : bool) :
  (length (shape arr) <> 3 ->
   sequential_undersample_3d_arr arr sequence_jump _print
   = ([], Raises AssertionError)) /\
  (forall n h w,
     shape arr = [n; h; w] -> well_shaped arr ->
     exists undersampled,
       snd (sequential_undersample_3d_arr arr sequence_jump _print)
       = Returns undersampled /\
       shape undersampled
       = [(n + Z.to_nat (Z.max 1 sequence_jump) - 1)
          / Z.to_nat (Z.max 1 sequence_jump); h; w] /\
       well_shaped undersampled /\
       forall k,
         nth_error (subarrays undersampled) k
         = nth_error (subarrays arr) (k * Z.to_nat (Z.max 1 sequence_jump))).
Proof.
  split.
  - intros Hdim. unfold sequential_undersample_3d_arr.
    now rewrite (proj2 (Nat.eqb_neq _ _) Hdim).
  - intros n h w Hshape Hwf. unfold sequential_undersample_3d_arr.
    rewrite Hshape. cbn [length Nat.eqb negb snd].
    set (step := Z.to_nat (Z.max 1 sequence_jump)).
    assert (1 <= step) as Hstep by (unfold step; lia).
    destruct (slice_step_frames arr n [h; w] step Hwf Hshape) as [Hframes Hwf'].
    exists (slice_step arr step). split; [reflexivity|]. split; [|split].
    + unfold slice_step. rewrite Hshape. unfold stack. cbn [shape].
      rewrite every_nth_from_length by exact Hstep.
      now rewrite (subarrays_length arr n [h; w] Hshape).
    + exact Hwf'.
    + intros k. rewrite Hframes. now rewrite every_nth_from_nth_error.
Qed.

(** X15.  A [sequence_jump] of 1 or less (zero and negative values
    included) leaves the array as it is. *)
Theorem undersample_small_jump {A : Type} (arr : ndarray A) (sequence_jump : Z)
    (_print : bool) :
  length (shape arr) = 3 -> well_shaped arr -> (sequence_jump <= 1)%Z ->
  snd (sequential_undersample_3d_arr arr sequence_jump _print) = Returns arr.
Proof.
  intros Hdim Hwf Hjump. unfold sequential_undersample_3d_arr.
  rewrite Hdim. cbn [Nat.eqb negb snd].
  replace (Z.max 1 sequence_jump) with 1%Z by lia. cbn [Z.to_nat Pos.to_nat].
  change (Pos.iter_op Nat.add 1%positive 1) with 1.
  destruct (shape arr) as [|n rest] eqn:Hshape; [discriminate|].
  unfold slice_step. rewrite Hshape, every_nth_from_one.
  now rewrite (stack_subarrays arr n rest Hwf Hshape).
Qed.

(** X16.  Undersampling twice is undersampling once with the product of
    the two jumps. *)
Theorem undersample_twice {A : Type} (arr : ndarray A) (jump1 jump2 : Z)
    (print1 print2 print3 : bool) (once : ndarray A) :
  length (shape arr) = 3 -> well_shaped arr ->
  (1 <= jump1)%Z -> (1 <= jump2)%Z ->
  snd (sequential_undersample_3d_arr arr jump1 print1) = Returns once ->
  snd (sequential_undersample_3d_arr once jump2 print2)
  = snd (sequential_undersample_3d_arr arr (jump1 * jump2) print3).
Proof.
  intros Hdim Hwf H1 H2. unfold sequential_undersample_3d_arr.
  rewrite Hdim. cbn [Nat.eqb negb snd].
  destruct (shape arr) as [|n [|h [|w [|]]]] eqn:Hshape; try discriminate.
  intros Honce. injection Honce as <-.
  destruct (slice_step_frames arr n [h; w] (Z.to_nat (Z.max 1 jump1)) Hwf Hshape)
    as [Hframes _].
  assert (shape (slice_step arr (Z.to_nat (Z.max 1 jump1)))
          = [length (every_nth_from (Z.to_nat (Z.max 1 jump1)) 0 (subarrays arr));
             h; w]) as Hshape1.
  { unfold slice_step. now rewrite Hshape. }
  rewrite Hshape1. cbn [length Nat.eqb negb snd]. f_equal.
  unfold slice_step at 1. rewrite Hshape1, Hframes.
  unfold slice_step. rewrite Hshape.
  rewrite every_nth_from_compose by lia.
  replace (Z.to_nat (Z.max 1 jump1) * Z.to_nat (Z.max 1 jump2))
    with (Z.to_nat (Z.max 1 (jump1 * jump2))) by nia.
  reflexivity.
Qed.

Lemma undersample_frames_witness :
  snd (sequential_undersample_3d_arr eight_frames 3 true)
  = Returns (mk_ndarray [3; 1; 2] [0; 0; 3; 3; 6; 6]%Z) /\
  exists undersampled,
    snd (sequential_undersample_3d_arr eight_frames 3 true)
    = Returns undersampled /\
    shape undersampled = [(8 + 3 - 1) / 3; 1; 2] /\
    well_shaped undersampled /\
    forall k,
      nth_error (subarrays undersampled) k
      = nth_error (subarrays eight_frames) (k * 3).
Proof.
  split; [reflexivity|].
  exact (proj2 (undersample_frames eight_frames 3 true) 8 1 2 eq_refl eq_refl).
Defined.

Lemma undersample_small_jump_witness :
  snd (sequential_undersample_3d_arr eight_frames 0 false) = Returns eight_frames.
Proof.
  apply (undersample_small_jump eight_frames 0 false).
  - reflexivity.
  - reflexivity.
  - discriminate.
Defined.

Lemma undersample_twice_witness :
  snd (sequential_undersample_3d_arr
         (mk_ndarray [4; 1; 2] [0; 0; 2; 2; 4; 4; 6; 6]%Z) 3 false)
  = snd (sequential_undersample_3d_arr eight_frames (2 * 3) false).
Proof.
  apply (undersample_twice eight_frames 2 3 false false false
           (mk_ndarray [4; 1; 2] [0; 0; 2; 2; 4; 4; 6; 6]%Z)).
  - reflexivity.
  - reflexivity.
  - discriminate.
  - discriminate.
  - reflexivity.
Defined.

(** ** [range] and index lists *)

Lemma py_range_forward (start stop step : Z) :
  (0 < step)%Z ->
  py_range start stop step
  = Ok (map (fun k => (start + Z.of_nat k * step)%Z)
          (seq 0 (Z.to_nat (range_length start stop step)))) /\
  (forall k,
     k < Z.to_nat (range_length start stop step) <->
     (start + Z.of_nat k * step < stop)%Z).
Proof.
  intros Hstep. split.
  - unfold py_range. destruct (Z.eqb_spec step 0); [lia | reflexivity].
  - intros k. unfold range_length.
    rewrite (proj2 (Z.ltb_lt 0 step) Hstep).
    destruct (Z.ltb_spec start stop) as [Hlt|Hge].
    + pose proof (Z.mul_div_le (stop - start - 1) step Hstep) as Hle.
      pose proof (Z.mul_succ_div_gt (stop - start - 1) step Hstep) as Hgt.
      assert (0 <= (stop - start - 1) / step)%Z as Hq
        by (apply Z.div_pos; lia).
      split; intros H; nia.
    + cbn. split; intros H; [lia | nia].
Qed.

Lemma take_frames_Raise {A : Type} (arr : ndarray A) (indices : list Z) (e : exn) :
  take_frames arr indices = Raise e -> e = IndexError.
Proof.
  unfold take_frames. destruct (shape arr) as [|n rest].
  - intros H. now injection H as <-.
  - induction indices as [|i indices IH]; cbn [map_o obind]; [discriminate|].
    destruct ((- Z.of_nat n <=? i)%Z && (i <? Z.of_nat n)%Z).
    + unfold getitem at 1. destruct (nth_error _ _); cbn [obind].
      * destruct (map_o _ indices); cbn [obind] in *; [discriminate|].
        intros H. apply IH. now injection H as <-.
      * intros H. now injection H as <-.
    + cbn [obind]. intros H. now injection H as <-.
Qed.

(** Frames taken at valid, non-negative positions. *)
Lemma select_frames {A : Type} (frames : list (ndarray A)) (n : nat)
    (positions : list nat) :
  length frames = n ->
  (forall i, In i positions -> i < n) ->
  exists selected,
    map_o (fun i =>
             if ((- Z.of_nat n <=? i) && (i <? Z.of_nat n))%Z
             then getitem frames (Z.to_nat (i mod Z.of_nat n))
             else Raise IndexError)
          (map Z.of_nat positions)
    = Ok selected /\
    map (nth_error frames) positions = map Some selected.
Proof.
  intros Hlen Hvalid. induction positions as [|i positions IH].
  - exists []. split; reflexivity.
  - destruct IH as (selected & Hrun & Hmap).
    { intros k Hk. apply Hvalid. now right. }
    assert (i < n) as Hi by (apply Hvalid; now left).
    destruct (nth_error frames i) as [f|] eqn:Ef;
      [|apply nth_error_None in Ef; lia].
    exists (f :: selected). cbn [map map_o]. split.
    + destruct (Z.leb_spec (- Z.of_nat n) (Z.of_nat i)); [|lia].
      destruct (Z.ltb_spec (Z.of_nat i) (Z.of_nat n)); [|lia].
      cbn [andb]. rewrite Z.mod_small by lia. rewrite Nat2Z.id.
      rewrite (proj2 (getitem_Ok frames i f) Ef). cbn [obind].
      rewrite Hrun. reflexivity.
    + now rewrite Ef, Hmap.
Qed.

Lemma take_frames_positions {A : Type} (arr : ndarray A) (n : nat)
    (rest : list nat) (positions : list nat) :
  shape arr = n :: rest ->
  (forall i, In i positions -> i < n) ->
  exists frames,
    take_frames arr (map Z.of_nat positions) = Ok (stack rest frames) /\
    map (nth_error (subarrays arr)) positions = map Some frames.
Proof.
  intros Hshape Hvalid. unfold take_frames. rewrite Hshape.
  destruct (select_frames (subarrays arr) n positions
              (subarrays_length arr n rest Hshape) Hvalid)
    as (selected & Hrun & Hmap).
  exists selected. rewrite Hrun. split; [reflexivity | exact Hmap].
Qed.

(** ** [sequential_train_val_split] *)

Lemma in_val_positions (n start step i : nat) :
  1 <= step ->
  In i (val_positions n start step) <->
  i < n /\ exists k, i = start + k * step.
Proof.
  intros Hstep. unfold val_positions.
  destruct (py_range_forward (Z.of_nat start) (Z.of_nat n) (Z.of_nat step))
    as [_ Hcount]; [lia|].
  rewrite in_map_iff. split.
  - intros (k & <- & Hk). apply in_seq in Hk. split; [|now exists k].
    assert (k < Z.to_nat (range_length (Z.of_nat start) (Z.of_nat n)
                            (Z.of_nat step))) as Hk' by lia.
    apply Hcount in Hk'. nia.
  - intros (Hi & k & ->). exists k. split; [reflexivity|].
    apply in_seq. split; [lia|]. cbn [Nat.add]. apply Hcount. nia.
Qed.

Lemma val_positions_sorted (n start step : nat) :
  1 <= step -> StronglySorted lt (val_positions n start step).
Proof.
  intros Hstep. unfold val_positions.
  generalize (Z.to_nat (range_length (Z.of_nat start) (Z.of_nat n)
                          (Z.of_nat step))) as c.
  intros c. generalize 0 as a. induction c as [|c IH]; intros a; cbn [seq map].
  - constructor.
  - constructor; [apply IH|].
    apply Forall_map, Forall_forall. intros k Hk. apply in_seq in Hk. nia.
Qed.

Lemma seq_sorted (a n : nat) : StronglySorted lt (seq a n).
Proof.
  revert a. induction n as [|n IH]; intros a; cbn [seq]; constructor.
  - apply IH.
  - apply Forall_forall. intros k Hk. apply in_seq in Hk. lia.
Qed.

Lemma filter_sorted {A : Type} (R : A -> A -> Prop) (f : A -> bool) (l : list A) :
  StronglySorted R l -> StronglySorted R (filter f l).
Proof.
  induction 1 as [|x l _ IH Hx]; cbn [filter]; [constructor|].
  destruct (f x); [|exact IH]. constructor; [exact IH|].
  rewrite Forall_forall in *. intros y Hy. apply filter_In in Hy. now apply Hx.
Qed.

Lemma sorted_lt_NoDup (l : list nat) : StronglySorted lt l -> NoDup l.
Proof.
  induction 1 as [|x l _ IH Hx]; constructor; [|exact IH].
  intros Hin. rewrite Forall_forall in Hx. specialize (Hx x Hin). lia.
Qed.

Lemma existsb_eqb_In (i : nat) (l : list nat) :
  existsb (Nat.eqb i) l = true <-> In i l.
Proof.
  rewrite existsb_exists. split.
  - intros (k & Hk & E). apply Nat.eqb_eq in E. now subst.
  - intros H. exists i. split; [exact H | apply Nat.eqb_refl].
Qed.

Lemma in_train_positions (n start step i : nat) :
  In i (train_positions n start step) <->
  i < n /\ ~ In i (val_positions n start step).
Proof.
  unfold train_positions. rewrite filter_In, in_seq, negb_true_iff.
  rewrite <- existsb_eqb_In. destruct (existsb _ _); intuition (try lia; congruence).
Qed.

Lemma filter_split_Permutation {A : Type} (f : A -> bool) (l : list A) :
  Permutation (filter (fun x => negb (f x)) l ++ filter f l) l.
Proof.
  induction l as [|x l IH]; cbn [filter]; [constructor|].
  destruct (f x); cbn [negb app].
  - apply Permutation_sym, Permutation_cons_app, Permutation_sym, IH.
  - now constructor.
Qed.

(** The two position lists split [0, n). *)
Lemma positions_split (n start step : nat) :
  1 <= step ->
  Permutation (train_positions n start step ++ val_positions n start step)
              (seq 0 n).
Proof.
  intros Hstep.
  apply Permutation_trans
    with (train_positions n start step
          ++ filter (fun i => existsb (Nat.eqb i) (val_positions n start step))
               (seq 0 n)).
  - apply Permutation_app_head. apply NoDup_Permutation.
    + apply sorted_lt_NoDup. now apply val_positions_sorted.
    + apply NoDup_filter, seq_NoDup.
    + intros i. rewrite filter_In, existsb_eqb_In, in_seq.
      rewrite (in_val_positions n start step i Hstep). intuition lia.
  - apply filter_split_Permutation.
Qed.

Lemma filter_map_swap {A B : Type} (f : B -> bool) (g : A -> B) (l : list A) :
  filter f (map g l) = map g (filter (fun x => f (g x)) l).
Proof.
  induction l as [|x l IH]; cbn [map filter]; [reflexivity|].
  destruct (f (g x)); cbn [map]; now rewrite IH.
Qed.

Lemma mem_Z_of_nat (i : nat) (l : list nat) :
  mem_Z (Z.of_nat i) (map Z.of_nat l) = existsb (Nat.eqb i) l.
Proof.
  unfold mem_Z. induction l as [|k l IH]; cbn [map existsb]; [reflexivity|].
  rewrite IH. f_equal.
  destruct (Nat.eqb_spec i k) as [->|Hne].
  - apply Z.eqb_refl.
  - apply Z.eqb_neq. lia.
Qed.

(** The split with a positive first index and a positive step, in terms
    of positions. *)
Lemma split_by_positions {A : Type} (train_data : ndarray A) (n : nat)
    (rest : list nat) (sequence_jump start_offset jump_multiplier : Z)
    (_print : bool) :
  shape train_data = n :: rest ->
  (1 <= sequence_jump)%Z -> (0 <= start_offset)%Z -> (1 <= jump_multiplier)%Z ->
  exists train_frames val_frames,
    sequential_train_val_split train_data sequence_jump start_offset
      jump_multiplier _print
    = ((if _print
        then [SplitInfo sequence_jump (length train_frames :: rest)
                (length val_frames :: rest)]
        else []),
       Ok (stack rest train_frames, stack rest val_frames)) /\
    map (nth_error (subarrays train_data))
        (train_positions n (Z.to_nat (sequence_jump * start_offset + 1))
           (Z.to_nat (sequence_jump * jump_multiplier)))
    = map Some train_frames /\
    map (nth_error (subarrays train_data))
        (val_positions n (Z.to_nat (sequence_jump * start_offset + 1))
           (Z.to_nat (sequence_jump * jump_multiplier)))
    = map Some val_frames.
Proof.
  intros Hshape Hj Ho Hm.
  set (start := Z.to_nat (sequence_jump * start_offset + 1)).
  set (step := Z.to_nat (sequence_jump * jump_multiplier)).
  assert (1 <= step) as Hstep by (unfold step; nia).
  assert (sequence_jump * start_offset + 1 = Z.of_nat start)%Z as Es
    by (unfold start; nia).
  assert (sequence_jump * jump_multiplier = Z.of_nat step)%Z as Et
    by (unfold step; nia).
  unfold sequential_train_val_split. rewrite Hshape, Es, Et.
  destruct (py_range_forward (Z.of_nat start) (Z.of_nat n) (Z.of_nat step))
    as [-> _]; [lia|].
  assert (map (fun k => (Z.of_nat start + Z.of_nat k * Z.of_nat step)%Z)
            (seq 0 (Z.to_nat (range_length (Z.of_nat start) (Z.of_nat n)
                                (Z.of_nat step))))
          = map Z.of_nat (val_positions n start step)) as ->.
  { unfold val_positions. rewrite map_map. apply map_ext. intros k. lia. }
  assert (filter (fun i => negb (mem_Z i (map Z.of_nat (val_positions n start step))))
            (map Z.of_nat (seq 0 n))
          = map Z.of_nat (train_positions n start step)) as ->.
  { rewrite filter_map_swap. unfold train_positions. f_equal.
    apply filter_ext. intros i. now rewrite mem_Z_of_nat. }
  destruct (take_frames_positions train_data n rest
              (train_positions n start step) Hshape)
    as (train_frames & -> & Htrain).
  { intros i Hi. now apply in_train_positions in Hi. }
  destruct (take_frames_positions train_data n rest
              (val_positions n start step) Hshape)
    as (val_frames & -> & Hval).
  { intros i Hi. now apply (in_val_positions n start step i Hstep) in Hi. }
  exists train_frames, val_frames. repeat split; assumption.
Qed.

Lemma map_Some_inj {A : Type} (l l' : list A) :
  map Some l = map Some l' -> l = l'.
Proof.
  revert l'. induction l as [|x l IH]; intros [|y l'] H; try discriminate.
  - reflexivity.
  - cbn in H. injection H as -> H. f_equal. now apply IH.
Qed.

Lemma map_nth_error_seq {A : Type} (l : list A) :
  map (nth_error l) (seq 0 (length l)) = map Some l.
Proof.
  induction l as [|x l IH]; [reflexivity|].
  cbn [length seq map nth_error]. f_equal.
  rewrite <- seq_shift, map_map. exact IH.
Qed.

Lemma selected_frames {A : Type} (P : A -> Prop) (l : list A)
    (positions : list nat) (selected : list A) :
  Forall P l ->
  map (nth_error l) positions = map Some selected ->
  Forall P selected.
Proof.
  intros Hl. revert selected.
  induction positions as [|i positions IH]; intros [|x selected] H;
    try discriminate; constructor.
  - cbn in H. injection H as Hi _. rewrite Forall_forall in Hl.
    apply Hl. eapply nth_error_In. exact Hi.
  - apply IH. cbn in H. now injection H.
Qed.

Lemma val_positions_nth (n start step k : nat) :
  1 <= step ->
  nth_error (val_positions n start step) k
  = if start + k * step <? n then Some (start + k * step) else None.
Proof.
  intros Hstep. unfold val_positions.
  destruct (py_range_forward (Z.of_nat start) (Z.of_nat n) (Z.of_nat step))
    as [_ Hcount]; [lia|].
  rewrite nth_error_map, nth_error_seq.
  destruct (Nat.ltb_spec k (Z.to_nat (range_length (Z.of_nat start)
                                        (Z.of_nat n) (Z.of_nat step))))
    as [Hk|Hk];
    destruct (Nat.ltb_spec (start + k * step) n) as [Hlt|Hge];
    try reflexivity.
  - apply Hcount in Hk. nia.
  - exfalso. apply (proj1 (Nat.le_ngt _ _) Hk). apply Hcount. nia.
Qed.

Lemma selected_nth {A : Type} (l : list A) (positions : list nat)
    (selected : list A) (k : nat) :
  map (nth_error l) positions = map Some selected ->
  nth_error selected k
  = match nth_error positions k with
    | Some i => nth_error l i
    | None => None
    end.
Proof.
  intros H.
  assert (nth_error (map Some selected) k
          = nth_error (map (nth_error l) positions) k) as Hk by now rewrite H.
  rewrite !nth_error_map in Hk.
  destruct (nth_error positions k) as [i|]; cbn in Hk.
  - destruct (nth_error selected k); cbn in Hk; [now injection Hk|].
    destruct (nth_error l i); [discriminate | reflexivity].
  - destruct (nth_error selected k); [discriminate | reflexivity].
Qed.

(** X17.  Unlike the undersampling, the split does not guard against a
    zero jump: on an array with at least one axis it raises [ValueError]
    (from [range]) exactly when [sequence_jump] or [jump_multiplier] is
    zero, and then prints nothing. *)
Theorem split_zero_step {A : Type} (train_data : ndarray A)
    (sequence_jump start_offset jump_multiplier : Z) (_print : bool) :
  shape train_data <> [] ->
  (sequence_jump = 0 \/ jump_multiplier = 0)%Z <->
  sequential_train_val_split train_data sequence_jump start_offset
    jump_multiplier _print = ([], Raise ValueError).
Proof.
  intros Hdim. unfold sequential_train_val_split, py_range.
  destruct (shape train_data) as [|n rest] eqn:Hshape; [now elim Hdim|].
  destruct (Z.eqb_spec (sequence_jump * jump_multiplier) 0) as [Hz|Hnz].
  - split; [reflexivity | lia].
  - split; [lia|].
    destruct (take_frames train_data _) as [X_train|e1] eqn:E1.
    + destruct (take_frames train_data _) as [X_val|e2] eqn:E2 in |- *.
      * discriminate.
      * intros H. injection H as ->. now apply take_frames_Raise in E2.
    + intros H. injection H as ->. now apply take_frames_Raise in E1.
Qed.

Section TrainValSplit.

Context {A : Type}.
Variable train_data : ndarray A.
Variable n : nat.
Variable rest : list nat.
Variables sequence_jump start_offset jump_multiplier : Z.
Hypothesis Hshape : shape train_data = n :: rest.
Hypothesis Hwf : well_shaped train_data.
Hypothesis Hjump : (1 <= sequence_jump)%Z.
Hypothesis Hoffset : (0 <= start_offset)%Z.
Hypothesis Hmultiplier : (1 <= jump_multiplier)%Z.

(** X18.  With [sequence_jump >= 1], [start_offset >= 0] and
    [jump_multiplier >= 1] the split returns, and it is a partition: the
    frames of [X_train] followed by those of [X_val] are a rearrangement
    of the frames of the input, every frame going to exactly one of the
    two, so the two first dimensions add up to the number of frames; the
    other dimensions are kept. *)
Theorem split_partitions (_print : bool) :
  exists X_train X_val n_train n_val,
    snd (sequential_train_val_split train_data sequence_jump start_offset
           jump_multiplier _print) = Ok (X_train, X_val) /\
    Permutation (subarrays X_train ++ subarrays X_val) (subarrays train_data) /\
    shape X_train = n_train :: rest /\ shape X_val = n_val :: rest /\
    n_train + n_val = n /\
    well_shaped X_train /\ well_shaped X_val.
Proof.
  destruct (split_by_positions train_data n rest sequence_jump start_offset
              jump_multiplier _print Hshape Hjump Hoffset Hmultiplier)
    as (tf & vf & Hrun & Htrain & Hval).
  set (start := Z.to_nat (sequence_jump * start_offset + 1)) in *.
  set (step := Z.to_nat (sequence_jump * jump_multiplier)) in *.
  assert (1 <= step) as Hstep by (unfold step; nia).
  destruct (subarrays_frames train_data n rest Hwf Hshape) as [Hlen Hframes].
  pose proof (selected_frames _ _ _ _ Hframes Htrain) as Htf.
  pose proof (selected_frames _ _ _ _ Hframes Hval) as Hvf.
  assert (Permutation (tf ++ vf) (subarrays train_data)) as Hperm.
  { pose proof (Permutation_map (nth_error (subarrays train_data))
                  (positions_split n start step Hstep)) as H.
    rewrite map_app, Htrain, Hval, <- Hlen, map_nth_error_seq, <- map_app in H.
    apply Permutation_map_inv in H. destruct H as (l & El & Hl).
    apply map_Some_inj in El. subst l. now apply Permutation_sym. }
  exists (stack rest tf), (stack rest vf), (length tf), (length vf).
  rewrite Hrun, !subarrays_stack by assumption.
  repeat split; try assumption; try (now apply stack_well_shaped).
  rewrite <- length_app, (Permutation_length Hperm). exact Hlen.
Qed.

(** X19.  Under the same conditions the validation set holds, in order,
    the frames at positions [start], [start + step], [start + 2 * step],
    ... below the number of frames, with
    [start = sequence_jump * start_offset + 1] and
    [step = sequence_jump * jump_multiplier]; the training set holds the
    other frames, in their order.  Frame 0 is never a validation frame. *)
Theorem split_validation_frames (_print : bool) :
  exists X_train X_val train_idx,
    snd (sequential_train_val_split train_data sequence_jump start_offset
           jump_multiplier _print) = Ok (X_train, X_val) /\
    (forall k,
       nth_error (subarrays X_val) k
       = if Z.to_nat (sequence_jump * start_offset + 1)
            + k * Z.to_nat (sequence_jump * jump_multiplier) <? n
         then nth_error (subarrays train_data)
                (Z.to_nat (sequence_jump * start_offset + 1)
                 + k * Z.to_nat (sequence_jump * jump_multiplier))
         else None) /\
    map (nth_error (subarrays train_data)) train_idx
    = map Some (subarrays X_train) /\
    StronglySorted lt train_idx /\
    (forall i,
       In i train_idx <->
       i < n /\
       ~ exists k, i = Z.to_nat (sequence_jump * start_offset + 1)
                       + k * Z.to_nat (sequence_jump * jump_multiplier)) /\
    (0 < n -> In 0 train_idx).
Proof.
  destruct (split_by_positions train_data n rest sequence_jump start_offset
              jump_multiplier _print Hshape Hjump Hoffset Hmultiplier)
    as (tf & vf & Hrun & Htrain & Hval).
  set (start := Z.to_nat (sequence_jump * start_offset + 1)) in *.
  set (step := Z.to_nat (sequence_jump * jump_multiplier)) in *.
  assert (1 <= step) as Hstep by (unfold step; nia).
  assert (1 <= start) as Hstart by (unfold start; nia).
  destruct (subarrays_frames train_data n rest Hwf Hshape) as [Hlen Hframes].
  pose proof (selected_frames _ _ _ _ Hframes Htrain) as Htf.
  pose proof (selected_frames _ _ _ _ Hframes Hval) as Hvf.
  assert (forall i, In i (train_positions n start step) <->
                    i < n /\ ~ exists k, i = start + k * step) as Hin.
  { intros i. rewrite in_train_positions, (in_val_positions n start step i Hstep).
    tauto. }
  exists (stack rest tf), (stack rest vf), (train_positions n start step).
  rewrite Hrun, !subarrays_stack by assumption.
  split; [reflexivity|]. split; [|split; [exact Htrain|split; [|split]]].
  - intros k. rewrite (selected_nth _ _ _ k Hval), val_positions_nth by exact Hstep.
    now destruct (start + k * step <? n).
  - apply filter_sorted, seq_sorted.
  - exact Hin.
  - intros Hn. apply Hin. split; [exact Hn|]. intros [k Hk]. nia.
Qed.

(** X20.  When the first validation position
    [sequence_jump * start_offset + 1] is not below the number of frames,
    nothing goes to the validation set: [X_val] has no frame and
    [X_train] is the input. *)
Theorem split_short_data (_print : bool) :
  (Z.of_nat n <= sequence_jump * start_offset + 1)%Z ->
  snd (sequential_train_val_split train_data sequence_jump start_offset
         jump_multiplier _print)
  = Ok (train_data, mk_ndarray (0 :: rest) []).
Proof.
  intros Hshort.
  destruct (split_by_positions train_data n rest sequence_jump start_offset
              jump_multiplier _print Hshape Hjump Hoffset Hmultiplier)
    as (tf & vf & Hrun & Htrain & Hval).
  set (start := Z.to_nat (sequence_jump * start_offset + 1)) in *.
  set (step := Z.to_nat (sequence_jump * jump_multiplier)) in *.
  assert (1 <= step) as Hstep by (unfold step; nia).
  assert (val_positions n start step = []) as Eval.
  { destruct (val_positions n start step) as [|i l] eqn:E; [reflexivity|].
    assert (In i (val_positions n start step)) as Hi by (rewrite E; now left).
    apply (in_val_positions n start step i Hstep) in Hi.
    destruct Hi as (Hi & k & ->). unfold start in Hi. nia. }
  assert (train_positions n start step = seq 0 n) as Etrain.
  { unfold train_positions. rewrite Eval.
    induction (seq 0 n) as [|i l IH]; cbn in *; [reflexivity | now f_equal]. }
  rewrite Eval in Hval. rewrite Etrain in Htrain.
  destruct vf; [|discriminate].
  destruct (subarrays_frames train_data n rest Hwf Hshape) as [Hlen _].
  rewrite <- Hlen, map_nth_error_seq in Htrain.
  apply map_Some_inj in Htrain. subst tf.
  rewrite Hrun. cbn [snd]. now rewrite (stack_subarrays train_data n rest Hwf Hshape).
Qed.

End TrainValSplit.

Lemma split_zero_step_witness :
  (0 = 0 \/ 3 = 0)%Z <->
  sequential_train_val_split eight_frames 0 default_start_offset
    default_jump_multiplier true = ([], Raise ValueError).
Proof.
  apply (split_zero_step eight_frames 0 default_start_offset
           default_jump_multiplier true).
  discriminate.
Defined.

Lemma split_partitions_witness :
  snd (sequential_train_val_split eight_frames 1 default_start_offset
         default_jump_multiplier true)
  = Ok (mk_ndarray [6; 1; 2] [0; 0; 1; 1; 2; 2; 4; 4; 5; 5; 7; 7]%Z,
        mk_ndarray [2; 1; 2] [3; 3; 6; 6]%Z) /\
  exists X_train X_val n_train n_val,
    snd (sequential_train_val_split eight_frames 1 default_start_offset
           default_jump_multiplier true) = Ok (X_train, X_val) /\
    Permutation (subarrays X_train ++ subarrays X_val) (subarrays eight_frames) /\
    shape X_train = [n_train; 1; 2] /\ shape X_val = [n_val; 1; 2] /\
    n_train + n_val = 8 /\
    well_shaped X_train /\ well_shaped X_val.
Proof.
  split; [reflexivity|].
  apply (split_partitions eight_frames 8 [1; 2] 1 default_start_offset
           default_jump_multiplier).
  - reflexivity.
  - reflexivity.
  - discriminate.
  - discriminate.
  - discriminate.
Defined.

Lemma split_validation_frames_witness :
  exists X_train X_val train_idx,
    snd (sequential_train_val_split eight_frames 1 default_start_offset
           default_jump_multiplier false) = Ok (X_train, X_val) /\
    (forall k,
       nth_error (subarrays X_val) k
       = if 3 + k * 3 <? 8
         then nth_error (subarrays eight_frames) (3 + k * 3)
         else None) /\
    map (nth_error (subarrays eight_frames)) train_idx
    = map Some (subarrays X_train) /\
    StronglySorted lt train_idx /\
    (forall i,
       In i train_idx <-> i < 8 /\ ~ exists k, i = 3 + k * 3) /\
    (0 < 8 -> In 0 train_idx).
Proof.
  apply (split_validation_frames eight_frames 8 [1; 2] 1 default_start_offset
           default_jump_multiplier).
  - reflexivity.
  - reflexivity.
  - discriminate.
  - discriminate.
  - discriminate.
Defined.

Lemma split_short_data_witness :
  snd (sequential_train_val_split eight_frames 4 default_start_offset
         default_jump_multiplier true)
  = Ok (eight_frames, mk_ndarray [0; 1; 2] []).
Proof.
  apply (split_short_data eight_frames 8 [1; 2] 4 default_start_offset
           default_jump_multiplier).
  - reflexivity.
  - reflexivity.
  - discriminate.
  - discriminate.
  - discriminate.
  - discriminate.
Defined.

(** ** The undersampling and the split together *)

Section UndersampleAndSplit.

Context {A : Type}.
Variable arr : ndarray A.
Variables n h w : nat.
Variables sequence_jump start_offset jump_multiplier : Z.
Hypothesis Hshape : shape arr = [n; h; w].
Hypothesis Hwf : well_shaped arr.
Hypothesis Hjump : (2 <= sequence_jump)%Z.
Hypothesis Hoffset : (0 <= start_offset)%Z.
Hypothesis Hmultiplier : (1 <= jump_multiplier)%Z.

(** X21.  On a three-dimensional array, with the same
    [sequence_jump >= 2] and with [start_offset >= 0] and
    [jump_multiplier >= 1] (the defaults 2 and 3 are such), the
    undersampling and the split do not overlap: every frame kept by
    [sequential_undersample_3d_arr] sits at a position that
    [sequential_train_val_split] puts in the training set, none at a
    validation position.  (A negative [start_offset] is excluded: the
    validation indices then start below zero and wrap around.) *)
Theorem undersampled_frames_are_training_frames (_print _print' : bool) :
  exists undersampled X_train X_val train_idx,
    snd (sequential_undersample_3d_arr arr sequence_jump _print)
    = Returns undersampled /\
    snd (sequential_train_val_split arr sequence_jump start_offset
           jump_multiplier _print') = Ok (X_train, X_val) /\
    map (nth_error (subarrays arr)) train_idx = map Some (subarrays X_train) /\
    StronglySorted lt train_idx /\
    forall k,
      k < length (subarrays undersampled) ->
      nth_error (subarrays undersampled) k
      = nth_error (subarrays arr) (k * Z.to_nat sequence_jump) /\
      In (k * Z.to_nat sequence_jump) train_idx /\
      forall k',
        nth_error (subarrays X_val) k'
        = (if Z.to_nat (sequence_jump * start_offset + 1)
              + k' * Z.to_nat (sequence_jump * jump_multiplier) <? n
           then nth_error (subarrays arr)
                  (Z.to_nat (sequence_jump * start_offset + 1)
                   + k' * Z.to_nat (sequence_jump * jump_multiplier))
           else None) /\
        k * Z.to_nat sequence_jump
        <> Z.to_nat (sequence_jump * start_offset + 1)
           + k' * Z.to_nat (sequence_jump * jump_multiplier).
Proof.
  destruct (split_by_positions arr n [h; w] sequence_jump start_offset
              jump_multiplier _print' Hshape ltac:(lia) Hoffset Hmultiplier)
    as (tf & vf & Hrun & Htrain & Hval).
  set (start := Z.to_nat (sequence_jump * start_offset + 1)) in *.
  set (step := Z.to_nat (sequence_jump * jump_multiplier)) in *.
  set (jump := Z.to_nat sequence_jump).
  assert (2 <= jump) as Hj by (unfold jump; lia).
  assert (step = jump * Z.to_nat jump_multiplier) as Estep
    by (unfold step, jump; rewrite Z2Nat.inj_mul; lia).
  assert (start = jump * Z.to_nat start_offset + 1) as Estart
    by (unfold start, jump; rewrite Z2Nat.inj_add, Z2Nat.inj_mul; lia).
  assert (1 <= step) as Hstep by (unfold step; nia).
  assert (forall k k', k * jump <> start + k' * step) as Hapart.
  { intros k k' E. rewrite Estep, Estart in E.
    assert ((k * jump) mod jump = 0) as H0 by (apply Nat.Div0.mod_mul).
    rewrite E in H0.
    replace (jump * Z.to_nat start_offset + 1
             + k' * (jump * Z.to_nat jump_multiplier))
      with (1 + (Z.to_nat start_offset + k' * Z.to_nat jump_multiplier) * jump)
      in H0 by nia.
    rewrite Nat.Div0.mod_add, Nat.mod_small in H0 by lia. discriminate. }
  destruct (subarrays_frames arr n [h; w] Hwf Hshape) as [Hlen Hframes].
  pose proof (selected_frames _ _ _ _ Hframes Htrain) as Htf.
  pose proof (selected_frames _ _ _ _ Hframes Hval) as Hvf.
  destruct (slice_step_frames arr n [h; w] jump Hwf Hshape) as [Hsel _].
  exists (slice_step arr jump), (stack [h; w] tf), (stack [h; w] vf),
    (train_positions n start step).
  rewrite Hrun, !subarrays_stack by assumption.
  split.
  { unfold sequential_undersample_3d_arr. rewrite Hshape. cbn [length Nat.eqb negb].
    cbn [snd]. rewrite Z.max_r by lia. reflexivity. }
  split; [reflexivity|]. split; [exact Htrain|].
  split; [apply filter_sorted, seq_sorted|].
  intros k Hk. rewrite Hsel in Hk |- *.
  apply every_nth_from_lt in Hk; [|lia]. rewrite Hlen in Hk.
  split; [apply every_nth_from_nth_error; lia|].
  split.
  - apply in_train_positions. split; [exact Hk|].
    intros Hin. apply (in_val_positions n start step _ Hstep) in Hin.
    destruct Hin as (_ & k' & E). exact (Hapart _ _ E).
  - intros k'. split; [|apply Hapart].
    rewrite (selected_nth _ _ _ k' Hval), val_positions_nth by exact Hstep.
    now destruct (start + k' * step <? n).
Qed.

End UndersampleAndSplit.

Lemma undersampled_frames_are_training_frames_witness :
  exists undersampled X_train X_val train_idx,
    snd (sequential_undersample_3d_arr eight_frames 2 false)
    = Returns undersampled /\
    snd (sequential_train_val_split eight_frames 2 1 1 false)
    = Ok (X_train, X_val) /\
    map (nth_error (subarrays eight_frames)) train_idx
    = map Some (subarrays X_train) /\
    StronglySorted lt train_idx /\
    forall k,
      k < length (subarrays undersampled) ->
      nth_error (subarrays undersampled) k
      = nth_error (subarrays eight_frames) (k * 2) /\
      In (k * 2) train_idx /\
      forall k',
        nth_error (subarrays X_val) k'
        = (if 3 + k' * 2 <? 8
           then nth_error (subarrays eight_frames) (3 + k' * 2)
           else None) /\
        k * 2 <> 3 + k' * 2.
Proof.
  apply (undersampled_frames_are_training_frames eight_frames 8 1 2 2 1 1).
  - reflexivity.
  - reflexivity.
  - discriminate.
  - discriminate.
  - discriminate.
Defined.

(** With [start_offset = -1] the validation indices are -1, 1, 3, 5, 7:
    the last frame, which the undersampling keeps, is both a training and
    a validation frame. *)
Example negative_offset_overlaps :
  snd (sequential_train_val_split nine_frames 2 (-1) 1 false)
  = Ok (mk_ndarray [5; 1; 2] [0; 0; 2; 2; 4; 4; 6; 6; 8; 8]%Z,
        mk_ndarray [5; 1; 2] [8; 8; 1; 1; 3; 3; 5; 5; 7; 7]%Z) /\
  snd (sequential_undersample_3d_arr nine_frames 2 false)
  = Returns (mk_ndarray [5; 1; 2] [0; 0; 2; 2; 4; 4; 6; 6; 8; 8]%Z).
Proof.
  split; reflexivity.
Qed.

(** ** [test_data_metrics] *)

Lemma accumulate_errors_returns {B : Type} (batch_error : B -> py_outcome Q)
    (data : list B) (errors : list Q) (total_error : Q) :
  map batch_error data = map Returns errors ->
  exists total,
    accumulate_errors batch_error data total_error = Returns total /\
    (total == total_error + Qsum errors)%Q.
Proof.
  revert errors total_error.
  induction data as [|X data IH]; intros [|error errors] total_error H;
    try discriminate.
  - exists total_error. split; [reflexivity|]. cbn. ring.
  - cbn in H. injection H as HX H. cbn [accumulate_errors]. rewrite HX.
    destruct (IH errors (total_error + error)%Q H) as (total & Hrun & Htotal).
    exists total. split; [exact Hrun|]. rewrite Htotal. cbn [Qsum fold_right].
    fold (Qsum errors). ring.
Qed.

Lemma accumulate_errors_raises {B : Type} (batch_error : B -> py_outcome Q)
    (before after : list B) (X : B) (errors : list Q) (e : py_exn)
    (total_error : Q) :
  map batch_error before = map Returns errors ->
  batch_error X = Raises e ->
  accumulate_errors batch_error (before ++ X :: after) total_error = Raises e.
Proof.
  revert errors total_error.
  induction before as [|Y before IH]; intros [|error errors] total_error H HX;
    try discriminate.
  - cbn. now rewrite HX.
  - cbn in H. injection H as HY H. cbn [app accumulate_errors]. rewrite HY.
    now apply (IH errors).
Qed.

(** X22.  [test_data_metrics] divides the sum of the batch errors by the
    number of samples of the dataset (not by the number of batches).  When
    the criterion returns on every batch, the result is that quotient if
    the dataset is not empty and [ZeroDivisionError] if it is; an exception
    raised on a batch is the outcome, whatever the dataset's length. *)
Theorem test_data_metrics_outcome {B : Type} (batch_error : B -> py_outcome Q)
    (loader : data_loader B) :
  (forall errors,
     map batch_error (batches loader) = map Returns errors ->
     if dataset_length loader =? 0
     then test_data_metrics batch_error loader = Raises ZeroDivisionError
     else exists value,
            test_data_metrics batch_error loader = Returns value /\
            (value == Qsum errors
                      / inject_Z (Z.of_nat (dataset_length loader)))%Q) /\
  (forall before X after errors e,
     batches loader = before ++ X :: after ->
     map batch_error before = map Returns errors ->
     batch_error X = Raises e ->
     test_data_metrics batch_error loader = Raises e).
Proof.
  split.
  - intros errors H. unfold test_data_metrics.
    destruct (accumulate_errors_returns batch_error _ errors 0%Q H)
      as (total & -> & Htotal).
    unfold divide_by_length. destruct (dataset_length loader =? 0);
      [reflexivity|].
    eexists. split; [reflexivity|]. rewrite Htotal. now rewrite Qplus_0_l.
  - intros before X after errors e Hb H HX. unfold test_data_metrics.
    rewrite Hb. now rewrite (accumulate_errors_raises _ _ _ _ errors e 0%Q H HX).
Qed.

Lemma test_data_metrics_outcome_witness :
  (exists value,
     test_data_metrics (fun X : Q => Returns X)
       (mk_data_loader 4 [3; 5]%Q) = Returns value /\
     (value == 2)%Q) /\
  test_data_metrics (fun X : Q => Returns X) (mk_data_loader 0 [])
  = Raises ZeroDivisionError /\
  test_data_metrics
    (fun X : Q => if Qeq_bool X 5 then Raises (Builtin ValueError) else Returns X)
    (mk_data_loader 0 [3; 5; 7]%Q)
  = Raises (Builtin ValueError).
Proof.
  split; [|split].
  - destruct (proj1 (test_data_metrics_outcome (fun X : Q => Returns X)
                       (mk_data_loader 4 [3; 5]%Q)) [3; 5]%Q eq_refl)
      as (value & Hrun & Hvalue).
    exists value. split; [exact Hrun|]. rewrite Hvalue. reflexivity.
  - exact (proj1 (test_data_metrics_outcome (fun X : Q => Returns X)
                    (mk_data_loader 0 [])) [] eq_refl).
  - exact (proj2 (test_data_metrics_outcome
                    (fun X : Q => if Qeq_bool X 5 then Raises (Builtin ValueError)
                                  else Returns X)
                    (mk_data_loader 0 [3; 5; 7]%Q))
             [3%Q] 5%Q [7%Q] [3%Q] (Builtin ValueError) eq_refl eq_refl eq_refl).
Defined.
